(** * MigrationTool: the portal client and the orchestration engine it drives

    The portal (Next.js) sources are embedded function by function:
    [lib/api.ts] (the HTTP client), [components/InventoryTable.tsx],
    the job page, the login page and the dashboard.  The orchestration
    engine (plan compiler, executor) is not part of the portal sources; it is
    modelled from the design document in the modules [Compiler] and
    [Executor].

    Conventions.
    - A JavaScript string is a Rocq [string], the bytes of its UTF-8
      encoding.  White space is every WhiteSpace and LineTerminator
      character of the language.  Lower case is mapped on the ASCII range;
      upper case beyond ASCII is the engine's, taken as a parameter.
    - A JSON number is an integer [Z] printed in decimal; fractions,
      exponents and integers of 22 digits or more are outside the model.
    - A value that may be [undefined] is an [option]; [None] is [undefined]. *)

From Stdlib Require Import ZArith List String Ascii Bool Lia Permutation Sorted.
From stdpp Require Import base option gmap strings list pretty.
Import ListNotations.
Open Scope string_scope.
Open Scope list_scope.

(** ** JavaScript values that cross the HTTP boundary *)

Module JS.

#[local] Set Warnings "-register-all".

(** What [JSON.parse] produces.  An object keeps its members in insertion
    order; its keys are distinct. *)
Inductive JSON : Type :=
| JNull
| JBool (b : bool)
| JNum (n : Z)
| JStr (s : string)
| JArr (items : list JSON)
| JObj (fields : list (string * JSON)).

(** A JavaScript value as the client sees it: [None] is [undefined]. *)
Definition Value : Type := option JSON.

(** ToBoolean. *)
Definition truthy (v : Value) : bool :=
  match v with
  | None => false
  | Some JNull => false
  | Some (JBool b) => b
  | Some (JNum n) => negb (n =? 0)%Z
  | Some (JStr s) => negb (String.eqb s "")
  | Some (JArr _) => true
  | Some (JObj _) => true
  end.

(** [a || b]. *)
Definition or_else (a b : Value) : Value := if truthy a then a else b.

Fixpoint assoc (k : string) (fields : list (string * JSON)) : Value :=
  match fields with
  | [] => None
  | (k', v) :: rest => if String.eqb k k' then Some v else assoc k rest
  end.

(** [v.k] for a data property [k] (one that no prototype defines, such as
    [detail] and [message]): reading a property of [null] raises a
    TypeError, the outer [None]; primitives and arrays have no such
    property. *)
Definition get_prop (v : JSON) (k : string) : option Value :=
  match v with
  | JNull => None
  | JObj fields => Some (assoc k fields)
  | _ => Some None
  end.

(** ToString, as applied by [new Error(x)] and by template literals. *)
Fixpoint ToString (v : JSON) : string :=
  match v with
  | JNull => "null"
  | JBool true => "true"
  | JBool false => "false"
  | JNum n => pretty n
  | JStr s => s
  | JArr items =>
      (* Array.prototype.join: null elements print as the empty string *)
      String.concat ","
        (List.map (fun x => match x with JNull => "" | _ => ToString x end) items)
  | JObj _ => "[object Object]"
  end.

Definition ToString_value (v : Value) : string :=
  match v with
  | None => "undefined"
  | Some j => ToString j
  end.

Definition hex_digit (n : N) : ascii :=
  ascii_of_N (if (n <? 10)%N then 48 + n else 87 + n).

(** QuoteJSONString, one character at a time. *)
Definition quote_char (c : ascii) : string :=
  let n := N_of_ascii c in
  if (n =? 8)%N then "\b"
  else if (n =? 9)%N then "\t"
  else if (n =? 10)%N then "\n"
  else if (n =? 12)%N then "\f"
  else if (n =? 13)%N then "\r"
  else if (n =? 34)%N then String "\" (String c "")
  else if (n =? 92)%N then "\\"
  else if (n <? 32)%N then
    "\u00" +:+ String (hex_digit (n / 16)) (String (hex_digit (n mod 16)) "")
  else String c "".

Fixpoint quote_chars (s : string) : string :=
  match s with
  | EmptyString => ""
  | String c rest => quote_char c +:+ quote_chars rest
  end.

Definition dquote : ascii := ascii_of_N 34.

Definition quote (s : string) : string :=
  String dquote (quote_chars s +:+ String dquote "").

(** [JSON.stringify(v)] without indentation. *)
Fixpoint JSON_stringify (v : JSON) : string :=
  match v with
  | JNull => "null"
  | JBool true => "true"
  | JBool false => "false"
  | JNum n => pretty n
  | JStr s => quote s
  | JArr items => "[" +:+ String.concat "," (List.map JSON_stringify items) +:+ "]"
  | JObj fields =>
      "{" +:+ String.concat ","
                (List.map (fun kv => quote (fst kv) +:+ ":" +:+ JSON_stringify (snd kv))
                          fields)
          +:+ "}"
  end.

(** What an [async] function settles to: a value, or a thrown exception. *)
Inductive Thrown : Type :=
| Error (message : string)     (* [new Error(message)] *)
| SyntaxError                  (* [res.json()] on a body that is not JSON *)
| TypeError                    (* a property read on [null] *)
| NetworkError.                (* [fetch] itself rejected *)

Inductive Outcome (A : Type) : Type :=
| Returns (a : A)
| Throws (e : Thrown).
Arguments Returns {A} a.
Arguments Throws {A} e.

End JS.
Import JS.

(** ** [lib/api.ts]: the HTTP client *)

Module Api.

(** The part of a [fetch] Response the client reads.  [json] is the result
    of [await res.json()]: [None] when the body is not JSON and the call
    rejects. *)
Record Response : Type := mkResponse {
  ok : bool;
  statusText : string;
  json : option JSON
}.

Record Request : Type := mkRequest {
  method : string;
  url : string;
  headers : list (string * string);
  body : option string
}.

(** The [try] block of [handleResponse]:
    [errorData.detail || errorData.message || JSON.stringify(errorData)]
    after [errorData = await res.json()]; [None] when the block throws. *)
Definition errorMsg_try (res : Response) : option Value :=
  errorData ← json res;
  detail ← get_prop errorData "detail";
  if truthy detail then Some detail
  else
    message ← get_prop errorData "message";
    if truthy message then Some message
    else Some (Some (JStr (JSON_stringify errorData))).

Definition handleResponse (res : Response) : Outcome JSON :=
  if negb (ok res) then
    let errorMsg :=
      match errorMsg_try res with
      | Some v => v
      | None => Some (JStr (statusText res))   (* catch (e) *)
      end in
    Throws (Error (ToString_value errorMsg))
  else
    match json res with
    | Some v => Returns v
    | None => Throws SyntaxError
    end.

(** An [async] function of the client: it settles, or awaits one [fetch]
    and goes on with what the network gave ([None]: the request failed
    before any response). *)
Inductive Async (A : Type) : Type :=
| Settled (o : Outcome A)
| Fetch (req : Request) (k : option Response → Async A).
Arguments Settled {A} o.
Arguments Fetch {A} req k.

(** [const res = await fetch(...); return handleResponse(res);] *)
Definition fetch_then_handle (req : Request) : Async JSON :=
  Fetch req (λ r, match r with
                  | Some res => Settled (handleResponse res)
                  | None => Settled (Throws NetworkError)
                  end).

(** Running a client function against a network: the requests sent, in
    order, and what the function settles to. *)
Fixpoint run {A} (net : Request → option Response) (p : Async A)
  : list Request * Outcome A :=
  match p with
  | Settled o => ([], o)
  | Fetch req k =>
      let '(sent, o) := run net (k (net req)) in (req :: sent, o)
  end.

Section Client.

(** [process.env.NEXT_PUBLIC_API_URL] *)
Variable NEXT_PUBLIC_API_URL : option string.

Definition API_URL : string :=
  match NEXT_PUBLIC_API_URL with
  | Some u => if String.eqb u "" then "http://localhost:8000" else u
  | None => "http://localhost:8000"
  end.

(** [clientId && clientSecret] on two optional strings. *)
Definition both_given (clientId clientSecret : option string) : bool :=
  truthy (JStr <$> clientId) && truthy (JStr <$> clientSecret).

(** [payload.k = v] for a key the object does not have yet: the member is
    added last.  A member whose value is [undefined] is left out by
    [JSON.stringify], so it is not recorded. *)
Definition set_prop (k : string) (v : option string)
    (payload : list (string * JSON)) : list (string * JSON) :=
  match v with
  | Some s => payload ++ [(k, JStr s)]
  | None => payload
  end.

(** The [payload] object of [triggerAssessment] at the time it is
    serialized. *)
Definition assessment_payload (tenantId subscriptionId : string)
    (clientId clientSecret : option string) : list (string * JSON) :=
  let payload := [("tenant_id", JStr tenantId); ("subscription_id", JStr subscriptionId)] in
  if both_given clientId clientSecret
  then set_prop "client_secret" clientSecret (set_prop "client_id" clientId payload)
  else payload.

Definition triggerAssessment (tenantId subscriptionId : string)
    (clientId clientSecret : option string) : Async JSON :=
  fetch_then_handle
    {| method := "POST";
       url := API_URL +:+ "/api/v1/assess";
       headers := [("Content-Type", "application/json")];
       body := Some (JSON_stringify
                 (JObj (assessment_payload tenantId subscriptionId clientId clientSecret))) |}.

(** [fetch(url)] with no init: a GET without headers or body. *)
Definition get (u : string) : Request :=
  {| method := "GET"; url := u; headers := []; body := None |}.

Definition getJobStatus (jobId : string) : Async JSON :=
  fetch_then_handle (get (API_URL +:+ "/api/v1/jobs/" +:+ jobId)).

Definition migration_payload (jobId sourceRg targetRgId : string)
    (resources : list string) : list (string * JSON) :=
  [("job_id", JStr jobId);
   ("source_resource_group", JStr sourceRg);
   ("target_resource_group_id", JStr targetRgId);
   ("resources", JArr (JStr <$> resources))].

Definition triggerMigration (jobId sourceRg targetRgId : string)
    (resources : list string) : Async JSON :=
  fetch_then_handle
    {| method := "POST";
       url := API_URL +:+ "/api/v1/migrate";
       headers := [("Content-Type", "application/json")];
       body := Some (JSON_stringify
                 (JObj (migration_payload jobId sourceRg targetRgId resources))) |}.

Definition getMigrationPlan (planId : string) : Async JSON :=
  fetch_then_handle (get (API_URL +:+ "/api/v1/plans/" +:+ planId)).

Definition getExportUrl (jobId : string) : string :=
  API_URL +:+ "/api/v1/jobs/" +:+ jobId +:+ "/export".

Definition getARMExportUrl (jobId : string) : string :=
  API_URL +:+ "/api/v1/jobs/" +:+ jobId +:+ "/export/arm".

End Client.

End Api.

(** ** Strings: the [String.prototype] methods the portal calls *)

Module Str.

Definition lower_char (c : ascii) : ascii :=
  let n := N_of_ascii c in
  if (65 <=? n)%N && (n <=? 90)%N then ascii_of_N (n + 32) else c.

Fixpoint toLowerCase (s : string) : string :=
  match s with
  | EmptyString => EmptyString
  | String c rest => String (lower_char c) (toLowerCase rest)
  end.

(** [s.includes(needle)] *)
Fixpoint includes (s needle : string) : bool :=
  String.prefix needle s
  || match s with
     | EmptyString => false
     | String _ rest => includes rest needle
     end.

(** [reasons.join(sep)] *)
Definition join (sep : string) (parts : list string) : string :=
  String.concat sep parts.

(** A string by the numbers of its bytes.  The strings of the portal are
    read as UTF-8: a character beyond ASCII is the two, three or four
    bytes of its encoding. *)
Definition bytes (l : list N) : string :=
  string_of_list_ascii (ascii_of_N <$> l).

(** The characters [trim] removes, each as its UTF-8 encoding: the
    WhiteSpace and LineTerminator code points of the language. *)
Definition white_space : list string :=
  [ bytes [9]%N;              (* U+0009 tab *)
    bytes [10]%N;             (* U+000A line feed *)
    bytes [11]%N;             (* U+000B vertical tab *)
    bytes [12]%N;             (* U+000C form feed *)
    bytes [13]%N;             (* U+000D carriage return *)
    bytes [32]%N;             (* U+0020 space *)
    bytes [194; 160]%N;       (* U+00A0 no-break space *)
    bytes [225; 154; 128]%N;  (* U+1680 *)
    bytes [226; 128; 128]%N;  (* U+2000 *)
    bytes [226; 128; 129]%N;  (* U+2001 *)
    bytes [226; 128; 130]%N;  (* U+2002 *)
    bytes [226; 128; 131]%N;  (* U+2003 *)
    bytes [226; 128; 132]%N;  (* U+2004 *)
    bytes [226; 128; 133]%N;  (* U+2005 *)
    bytes [226; 128; 134]%N;  (* U+2006 *)
    bytes [226; 128; 135]%N;  (* U+2007 *)
    bytes [226; 128; 136]%N;  (* U+2008 *)
    bytes [226; 128; 137]%N;  (* U+2009 *)
    bytes [226; 128; 138]%N;  (* U+200A *)
    bytes [226; 128; 168]%N;  (* U+2028 line separator *)
    bytes [226; 128; 169]%N;  (* U+2029 paragraph separator *)
    bytes [226; 128; 175]%N;  (* U+202F *)
    bytes [226; 129; 159]%N;  (* U+205F *)
    bytes [227; 128; 128]%N;  (* U+3000 *)
    bytes [239; 187; 191]%N   (* U+FEFF *) ].

(** Whether [w] is one white-space character. *)
Definition is_space (w : string) : bool :=
  existsb (String.eqb w) white_space.

(** [s.trimStart()]: the white-space characters at the front are dropped,
    one after the other; a character is one, two or three bytes long. *)
Fixpoint trimStart (s : string) : string :=
  match s with
  | EmptyString => EmptyString
  | String c1 r1 =>
      if is_space (String c1 EmptyString) then trimStart r1
      else
        match r1 with
        | EmptyString => s
        | String c2 r2 =>
            if is_space (String c1 (String c2 EmptyString)) then trimStart r2
            else
              match r2 with
              | EmptyString => s
              | String c3 r3 =>
                  if is_space (String c1 (String c2 (String c3 EmptyString)))
                  then trimStart r3
                  else s
              end
        end
  end.

(** [s.trimEnd()]: the rest is trimmed first; what is left of it ends in
    no white space, so the whole ends in white space only when the first
    byte and what is left make up one white-space character. *)
Fixpoint trimEnd (s : string) : string :=
  match s with
  | EmptyString => EmptyString
  | String c rest =>
      if is_space (String c (trimEnd rest)) then EmptyString
      else String c (trimEnd rest)
  end.

Definition trim (s : string) : string := trimEnd (trimStart s).

End Str.

(** ** The records of [lib/api.ts]

    The members the portal reads.  The optional [tags], [sku] and [kind] of
    a resource, [tenant_id] and [dependencies] of a snapshot and
    [created_at] of a job are read nowhere and are left out. *)

Record AzureResource : Type := mkResource {
  id : string;
  name : string;
  type : string;
  location : string;
  resource_group : string
}.

Record ResourceGroup : Type := mkGroup {
  rg_name : string;
  rg_location : string
}.

Record InventorySnapshot : Type := mkSnapshot {
  subscription_id : string;
  total_resources : Z;
  resources : list AzureResource;
  resource_groups : list ResourceGroup
}.

Inductive JobStatus : Type := PENDING | IN_PROGRESS | COMPLETED | FAILED.

Record AssessmentJob : Type := mkJob {
  job_id : string;
  tenant_id : string;
  status : JobStatus;
  inventory_snapshot : option InventorySnapshot;
  blockers : option (gmap string (list string));
  ai_generated_summary : option string
}.

(** ** [components/InventoryTable.tsx]: one row of the table

    The columns that depend on the blocker map: [Can be moved] and
    [Remarks].  The other columns show members of the resource itself. *)

Module InventoryTable.

(** The three renderings of the column [Can be moved]. *)
Inductive Status : Type := Yes | No | Dash.

Section Row.

Variable blockers : gmap string (list string).
Variable res : AzureResource.

(** [blockers[res.id] || []]: an array, even an empty one, is truthy. *)
Definition blockersList : list string := default [] (blockers !! id res).

Definition isBlocked : bool := (0 <? length blockersList)%nat.

Definition combinedIssues : string :=
  Str.toLowerCase (Str.join " " blockersList).

Definition isUnknown : bool :=
  Str.includes combinedIssues "no specific official documentation".

Definition getRemarks : string :=
  if isBlocked then
    if isUnknown then EmptyString
    else "This resource type does not support move operation and will be recreated in the Destination Subscription with same configurations."
  else "This resource type supports for direct move operation.".

Definition renderStatus : Status :=
  if isBlocked then
    if isUnknown then Dash else No
  else Yes.

End Row.

(** The column [Can be moved] of the whole table, row by row. *)
Definition statuses (resources : list AzureResource)
    (blockers : gmap string (list string)) : list Status :=
  renderStatus blockers <$> resources.

End InventoryTable.

(** ** The job page: the four counters above the table *)

Module JobPage.

(** [job.inventory_snapshot?.total_resources || 0] *)
Definition totalResources (job : AssessmentJob) : Z :=
  match inventory_snapshot job with
  | Some snap => total_resources snap
  | None => 0
  end.

(** [job.blockers ? Object.keys(job.blockers).length : 0] *)
Definition blockersCount (job : AssessmentJob) : Z :=
  match blockers job with
  | Some b => Z.of_nat (size b)
  | None => 0
  end.

(** The counter [Ready to Move]. *)
Definition readyCount (job : AssessmentJob) : Z :=
  totalResources job - blockersCount job.

(** The table under the counters: [job.inventory_snapshot &&
    <InventoryTable resources=... blockers={job.blockers || {}} />]. *)
Definition table (job : AssessmentJob) : list InventoryTable.Status :=
  match inventory_snapshot job with
  | Some snap => InventoryTable.statuses (resources snap) (default ∅ (blockers job))
  | None => []
  end.

Record Ui : Type := mkUi {
  migrating : bool;
  planId : Value;
  alerts : list string
}.

Section Migrate.

Variable NEXT_PUBLIC_API_URL : option string.
Variable net : Api.Request → option Api.Response.
(** [err.message] of the exceptions the engine itself raises. *)
Variable native_message : Thrown → string.

Definition err_message (e : Thrown) : string :=
  match e with
  | Error m => m
  | _ => native_message e
  end.

(** [job.inventory_snapshot.resource_groups[0]?.name || "default"] *)
Definition sourceRg_of (snap : InventorySnapshot) : string :=
  match resource_groups snap with
  | g :: _ => if String.eqb (rg_name g) "" then "default" else rg_name g
  | [] => "default"
  end.

Definition migration_failed (ui : Ui) (e : Thrown) : Ui :=
  {| migrating := false;
     planId := planId ui;
     alerts := alerts ui ++ ["Migration trigger failed: " +:+ err_message e] |}.

Definition handleMigrate (job : AssessmentJob) (ui : Ui) : Ui :=
  match inventory_snapshot job with
  | None => ui
  | Some snap =>
      let ui := {| migrating := true; planId := planId ui; alerts := alerts ui |} in
      let resources := id <$> resources snap in
      let sourceRg := sourceRg_of snap in
      let targetSub := subscription_id snap in
      let targetRgId :=
        "/subscriptions/" +:+ targetSub +:+ "/resourceGroups/" +:+ sourceRg +:+ "-migrated" in
      match snd (Api.run net
                   (Api.triggerMigration NEXT_PUBLIC_API_URL
                      (job_id job) sourceRg targetRgId resources)) with
      | Returns data =>
          match get_prop data "plan_id" with
          | Some plan_id =>
              {| migrating := migrating ui; planId := plan_id; alerts := alerts ui |}
          | None => migration_failed ui TypeError
          end
      | Throws e => migration_failed ui e
      end
  end.

End Migrate.

End JobPage.

(** ** The login page: saved logins and the hand-over to the dashboard *)

Module LoginPage.

Inductive Mode : Type := auto | explicit.

Definition mode_string (m : Mode) : string :=
  match m with auto => "auto" | explicit => "explicit" end.

Record SavedLogin : Type := mkLogin {
  alias : string;
  tenantId : string;
  subId : string;
  mode : Mode;
  clientId : option string;
  clientSecret : option string
}.

(** The state the handler reads and writes: the form fields (React state),
    the saved logins, the browser's [localStorage] and the URLs pushed to
    the router, oldest first. *)
Record Page : Type := mkPage {
  f_tenantId : string;
  f_subId : string;
  f_alias : string;
  f_loginMode : Mode;
  f_clientId : string;
  f_clientSecret : string;
  savedLogins : list SavedLogin;
  localStorage : gmap string string;
  pushed : list string
}.

(** [l.findIndex(p)]: the first index at which [p] holds, or -1. *)
Fixpoint findIndex {A} (p : A → bool) (l : list A) : Z :=
  match l with
  | [] => -1
  | x :: rest =>
      if p x then 0
      else let i := findIndex p rest in
           if (i <? 0)%Z then -1 else (i + 1)%Z
  end.

(** The serializer of [URLSearchParams.toString()]
    (application/x-www-form-urlencoded): letters, digits and [* - . _] stay,
    a space becomes [+], every other byte becomes [%XX]. *)
Definition HEX_digit (n : N) : ascii :=
  ascii_of_N (if (n <? 10)%N then 48 + n else 55 + n).

Definition form_unreserved (n : N) : bool :=
  ((48 <=? n)%N && (n <=? 57)%N) || ((65 <=? n)%N && (n <=? 90)%N)
  || ((97 <=? n)%N && (n <=? 122)%N)
  || (n =? 42)%N || (n =? 45)%N || (n =? 46)%N || (n =? 95)%N.

Definition form_char (c : ascii) : string :=
  let n := N_of_ascii c in
  if form_unreserved n then String c EmptyString
  else if (n =? 32)%N then "+"
  else String "%" (String (HEX_digit (n / 16)) (String (HEX_digit (n mod 16)) EmptyString)).

Fixpoint form_encode (s : string) : string :=
  match s with
  | EmptyString => EmptyString
  | String c rest => form_char c +:+ form_encode rest
  end.

Definition params_toString (params : list (string * string)) : string :=
  String.concat "&" ((λ kv, form_encode (fst kv) +:+ "=" +:+ form_encode (snd kv)) <$> params).

Definition login_json (l : SavedLogin) : JSON :=
  JObj (Api.set_prop "clientSecret" (clientSecret l)
         (Api.set_prop "clientId" (clientId l)
           [("alias", JStr (alias l)); ("tenantId", JStr (tenantId l));
            ("subId", JStr (subId l)); ("mode", JStr (mode_string (mode l)))])).

Section Connect.

Variable p : Page.

Definition newLogin : SavedLogin :=
  {| alias := Str.trim (f_alias p);
     tenantId := f_tenantId p;
     subId := f_subId p;
     mode := f_loginMode p;
     clientId := Some (f_clientId p);
     clientSecret := Some (f_clientSecret p) |}.

(** The list handed to [setSavedLogins] when the alias is not blank. *)
Definition updatedLogins : list SavedLogin :=
  let existingIndex :=
    findIndex (λ l, String.eqb (alias l) (alias newLogin)) (savedLogins p) in
  if (0 <=? existingIndex)%Z
  then <[Z.to_nat existingIndex := newLogin]> (savedLogins p)
  else savedLogins p ++ [newLogin].

(** The query parameters handed to the dashboard. *)
Definition params : list (string * string) :=
  [("tenantId", f_tenantId p);
   ("subId", f_subId p);
   ("mode", mode_string (f_loginMode p));
   ("clientId", match f_loginMode p with explicit => f_clientId p | auto => EmptyString end);
   ("clientSecret", match f_loginMode p with explicit => f_clientSecret p | auto => EmptyString end)].

Definition dashboard_url : string := "/dashboard?" +:+ params_toString params.

Definition handleConnect : Page :=
  let saved :=
    if negb (String.eqb (Str.trim (f_alias p)) EmptyString)
    then (updatedLogins,
          <["azure_migration_logins" :=
              JSON_stringify (JArr (login_json <$> updatedLogins))]> (localStorage p))
    else (savedLogins p, localStorage p) in
  {| f_tenantId := f_tenantId p;
     f_subId := f_subId p;
     f_alias := f_alias p;
     f_loginMode := f_loginMode p;
     f_clientId := f_clientId p;
     f_clientSecret := f_clientSecret p;
     savedLogins := fst saved;
     localStorage := snd saved;
     pushed := pushed p ++ [dashboard_url] |}.

End Connect.

End LoginPage.

(** ** The Migration Plan Compiler (design document, sections 3 and 4.5)

    The backend that compiles and executes plans is not among the portal
    sources.  The definitions of this module and of [Executor] follow the
    design document sentence by sentence. *)

Module Compiler.

(** Modelled from the spec: the backend's DependencyEdge record is missing;
    an ordered pair (from, to), [from] must be relocated no later than
    [to]. *)
Record DependencyEdge : Type := mkEdge {
  from : string;
  to : string
}.

(** Modelled from the spec: the backend's InventorySnapshot is missing; the
    compiler reads the ids of its resources and its dependency edges. *)
Record Snapshot : Type := mkSnap {
  resource_ids : list string;
  dependencies : list DependencyEdge
}.

(** Modelled from the spec: the backend's error taxonomy for plan creation is
    missing. *)
Inductive CompileError : Type :=
| CycleDetected
| UnknownResource (r : string)
| ValidationRejected (detail : string).

(** Modelled from the spec: the result of the collaborator call
    validateRelocation(resourceIds, targetScope) is missing. *)
Inductive Validation : Type :=
| Accept
| Reject (detail : string).

(** Modelled from the spec: the backend's plan statuses are missing; a plan
    is VALIDATED before execution begins, and ends COMPLETED,
    PARTIALLY_FAILED or CANCELLED. *)
Inductive PlanStatus : Type :=
| VALIDATED | EXECUTING | COMPLETED | PARTIALLY_FAILED | CANCELLED.

(** Modelled from the spec: the backend's MigrationPlan record is missing;
    identity, reference to the source job, ordered batches, status. *)
Record MigrationPlan : Type := mkPlan {
  plan_id : nat;
  source_job : string;
  ordered_batches : list (list string);
  plan_status : PlanStatus
}.

(** Modelled from the spec: the tie-break inside a level is missing; a
    stable secondary key, the lexical order of resource ids. *)
Fixpoint insert_id (x : string) (l : list string) : list string :=
  match l with
  | [] => [x]
  | y :: rest => if String.leb x y then x :: l else y :: insert_id x rest
  end.

Definition sort_ids (l : list string) : list string := foldr insert_id [] l.

(** Modelled from the spec: the in-degree test of the leveling is missing;
    [r] still waits when an edge into [r] starts at a resource that has not
    been removed yet. *)
Definition waits (edges : list DependencyEdge) (remaining : list string)
    (r : string) : bool :=
  existsb (λ e, String.eqb (to e) r && bool_decide (from e ∈ remaining)) edges.

(** Modelled from the spec: the Kahn-style leveling is missing; the
    resources of in-degree zero form a batch, they are removed, and the rest
    is leveled again.  The result is the batches in order and the resources
    left unassigned when no resource is ready.  [fuel] bounds the number of
    batches; the length of the selection is enough. *)
Fixpoint levels (fuel : nat) (edges : list DependencyEdge)
    (remaining : list string) : list (list string) * list string :=
  match fuel with
  | O => ([], remaining)
  | S fuel' =>
      match List.filter (λ r, negb (waits edges remaining r)) remaining with
      | [] => ([], remaining)
      | ready =>
          let '(batches, unassigned) :=
            levels fuel' edges (list_difference remaining ready) in
          (sort_ids ready :: batches, unassigned)
      end
  end.

Section Compile.

(** The remote pre-flight validation collaborator. *)
Variable validateRelocation : list string → string → Validation.

(** Modelled from the spec: the backend's compile is missing.  The selection
    is a set of ids (a repeated id counts once); the dependency graph is
    restricted to it; a resource left unassigned is a cycle; a selected id
    absent from the snapshot is an unknown resource; the ordered resource list
    then goes to pre-flight validation.  The document does not place the
    unknown-resource check: here it follows the leveling, the one place
    where a cyclic selection always yields CycleDetected. *)
Definition compile (snap : Snapshot) (selection : list string)
    (target : string) : CompileError + list (list string) :=
  let sel := remove_dups selection in
  let '(batches, unassigned) := levels (length sel) (dependencies snap) sel in
  match unassigned with
  | _ :: _ => inl CycleDetected
  | [] =>
      match List.find (λ r, negb (bool_decide (r ∈ resource_ids snap))) sel with
      | Some r => inl (UnknownResource r)
      | None =>
          match validateRelocation (concat batches) target with
          | Reject detail => inl (ValidationRejected detail)
          | Accept => inr batches
          end
      end
  end.

(** Modelled from the spec: the keyed store of plans is missing; create and
    read by id. *)
Record Store : Type := mkStore {
  plans : gmap nat MigrationPlan;
  next_id : nat
}.

(** Modelled from the spec: the caller-facing operation submit
    migration(job id, selection, target) is missing; a plan record is
    created only when compilation succeeds. *)
Definition submit_migration (st : Store) (job : string) (snap : Snapshot)
    (selection : list string) (target : string) : Store * (CompileError + nat) :=
  match compile snap selection target with
  | inl err => (st, inl err)
  | inr batches =>
      let plan := {| plan_id := next_id st; source_job := job;
                     ordered_batches := batches; plan_status := VALIDATED |} in
      ({| plans := <[next_id st := plan]> (plans st); next_id := S (next_id st) |},
       inr (next_id st))
  end.

End Compile.

(** [r] depends on [d] in the graph restricted to the selection: an edge
    leads from [d] to [r] and both are selected. *)
Definition depends_on (edges : list DependencyEdge) (selection : list string)
    (r d : string) : Prop :=
  mkEdge d r ∈ edges ∧ d ∈ selection ∧ r ∈ selection.

(** The selection contains a dependency cycle: some resource depends on
    itself through one or more edges of the restricted graph. *)
Definition has_cycle (edges : list DependencyEdge) (selection : list string) : Prop :=
  ∃ r, tc (depends_on edges selection) r r.

End Compiler.

(** ** The Migration Executor (design document, sections 4.6 and 5) *)

Module Executor.

(** Modelled from the spec: the per-resource outcomes of the executor are
    missing. *)
Inductive MoveOutcome : Type := MOVED | FAILED | TIMED_OUT.

(** Modelled from the spec: the entries of the execution log are missing; a
    resource is not attempted (no entry), submitted, or resolved with its
    outcome. *)
Inductive Entry : Type :=
| NotAttempted
| Submitted
| Resolved (o : MoveOutcome).

(** Modelled from the spec: the executor's state is missing; the plan
    status, the index of the batch at hand, whether that batch is in flight,
    and the execution log. *)
Record State : Type := mkState {
  status : Compiler.PlanStatus;
  current : nat;
  in_flight : bool;
  log : gmap string Entry
}.

(** The entry of a resource; without a record it is not attempted. *)
Definition entry (st : State) (r : string) : Entry :=
  default NotAttempted (log st !! r).

(** Modelled from the spec: the state in which execution starts is missing;
    a validated plan, nothing attempted. *)
Definition initial : State :=
  {| status := Compiler.VALIDATED; current := 0; in_flight := false; log := ∅ |}.

(** Modelled from the spec: the submission of a batch is missing; the moves
    of a batch are issued together. *)
Definition submit_all (batch : list string) (lg : gmap string Entry)
  : gmap string Entry :=
  foldr (λ r m, <[r := Submitted]> m) lg batch.

(** A plan that is not in a terminal status. *)
Definition runnable (s : Compiler.PlanStatus) : Prop :=
  s = Compiler.VALIDATED ∨ s = Compiler.EXECUTING.

(** Modelled from the spec: the executor's transitions are missing.  Batches
    are driven strictly in order; the moves of a batch resolve in any order;
    the next batch is admitted only when every move of the batch has
    resolved as MOVED; an outcome other than MOVED ends the plan as
    PARTIALLY_FAILED; cancellation is honoured between batches; a resolved
    entry is never written again. *)
Inductive step (batches : list (list string)) : State → State → Prop :=
| step_submit st b :
    runnable (status st) → in_flight st = false →
    batches !! current st = Some b →
    step batches st
      {| status := Compiler.EXECUTING; current := current st;
         in_flight := true; log := submit_all b (log st) |}
| step_resolve st b r o :
    in_flight st = true → status st = Compiler.EXECUTING →
    batches !! current st = Some b → r ∈ b →
    log st !! r = Some Submitted →
    step batches st
      {| status := status st; current := current st;
         in_flight := true; log := <[r := Resolved o]> (log st) |}
| step_advance st b :
    in_flight st = true → status st = Compiler.EXECUTING →
    batches !! current st = Some b →
    (∀ r, r ∈ b → log st !! r = Some (Resolved MOVED)) →
    step batches st
      {| status := status st; current := S (current st);
         in_flight := false; log := log st |}
| step_block st b r o :
    in_flight st = true → status st = Compiler.EXECUTING →
    batches !! current st = Some b →
    (∀ r', r' ∈ b → ∃ o', log st !! r' = Some (Resolved o')) →
    r ∈ b → log st !! r = Some (Resolved o) → o ≠ MOVED →
    step batches st
      {| status := Compiler.PARTIALLY_FAILED; current := current st;
         in_flight := false; log := log st |}
| step_complete st :
    runnable (status st) → in_flight st = false →
    batches !! current st = None →
    step batches st
      {| status := Compiler.COMPLETED; current := current st;
         in_flight := false; log := log st |}
| step_cancel st :
    runnable (status st) → in_flight st = false →
    step batches st
      {| status := Compiler.CANCELLED; current := current st;
         in_flight := false; log := log st |}.

(** The states an execution of the plan can be in. *)
Definition reachable (batches : list (list string)) (st : State) : Prop :=
  rtc (step batches) initial st.

(** What every state of an execution satisfies: the batches after the
    current one are untouched, the batches before it are moved, and a batch
    that is about to be submitted is untouched. *)
Record Inv (batches : list (list string)) (st : State) : Prop := mkInv {
  later_untouched :
    ∀ J b r, current st < J → batches !! J = Some b → r ∈ b → log st !! r = None;
  earlier_moved :
    ∀ K b r, K < current st → batches !! K = Some b → r ∈ b →
             log st !! r = Some (Resolved MOVED);
  idle_untouched :
    in_flight st = false → runnable (status st) →
    ∀ b r, batches !! current st = Some b → r ∈ b → log st !! r = None
}.

Definition is_moved (o : MoveOutcome) : bool :=
  match o with MOVED => true | _ => false end.

(** The moves of a batch resolve one after the other, each with the
    outcome [poll] reports for it. *)
Definition resolve_all (poll : string → MoveOutcome) (batch : list string)
    (lg : gmap string Entry) : gmap string Entry :=
  foldl (λ m r, <[r := Resolved (poll r)]> m) lg batch.

(** Modelled from the spec: the executor's driver is missing.  One run to
    the end, when nothing cancels it and the remote operations end as
    [poll] says: a batch is submitted, its moves resolve, and the next batch
    is taken up only when all of them are MOVED. *)
Fixpoint execute_from (poll : string → MoveOutcome) (todo : list (list string))
    (k : nat) (lg : gmap string Entry) : State :=
  match todo with
  | [] =>
      {| status := Compiler.COMPLETED; current := k; in_flight := false; log := lg |}
  | b :: rest =>
      let lg' := resolve_all poll b (submit_all b lg) in
      if forallb (λ r, is_moved (poll r)) b
      then execute_from poll rest (S k) lg'
      else {| status := Compiler.PARTIALLY_FAILED; current := k;
              in_flight := false; log := lg' |}
  end.

Definition execute (poll : string → MoveOutcome) (batches : list (list string)) : State :=
  execute_from poll batches 0 ∅.

End Executor.

(** * The claims' vocabulary

    Definitions that follow the wording of the design claims; the code's
    definitions above are compared with them below. *)

Module Claimed.
Import Api.

(** A string argument that is given and not empty. *)
Definition given (o : option string) : Prop := ∃ s, o = Some s ∧ s ≠ EmptyString.

(** The member [k] of a JSON body, when the body is an object that has
    one. *)
Definition member (body : JSON) (k : string) : Value :=
  match body with
  | JObj fields => assoc k fields
  | _ => None
  end.

(** The failure message as the claim words it: the body's detail member
    when present, else its message member when present, else the serialized
    body, else (no JSON body) the HTTP status text. *)
Definition claimed_message (res : Response) : string :=
  match json res with
  | Some body =>
      match member body "detail" with
      | Some d => ToString d
      | None =>
          match member body "message" with
          | Some m => ToString m
          | None => JSON_stringify body
          end
      end
  | None => statusText res
  end.

Definition claimed_handleResponse (res : Response) : Outcome JSON :=
  if ok res then
    match json res with
    | Some v => Returns v
    | None => Throws SyntaxError
    end
  else Throws (Error (claimed_message res)).

(** What every operation of the client settles to, given what the network
    answered to its one request. *)
Definition settle (r : option Response) : Outcome JSON :=
  match r with
  | Some res => handleResponse res
  | None => Throws NetworkError
  end.

(** Movable, in the words of the data model: the resource's entry in the
    blocker map is absent or an empty list. *)
Definition movable (b : gmap string (list string)) (r : AzureResource) : bool :=
  match b !! id r with
  | None | Some [] => true
  | Some (_ :: _) => false
  end.

(** The number of resources of the job's snapshot that are movable. *)
Definition movable_count (job : AssessmentJob) : Z :=
  match inventory_snapshot job with
  | Some snap =>
      Z.of_nat (length (List.filter (movable (default ∅ (blockers job))) (resources snap)))
  | None => 0
  end.

(** A coverage-unknown entry: its reasons carry the marker the table looks
    for. *)
Definition coverage_unknown (reasons : list string) : bool :=
  Str.includes (Str.toLowerCase (Str.join " " reasons))
    "no specific official documentation".


(** Reading a query-string value back, as [searchParams.get] does on the
    dashboard: [+] is a space and [%XX] is the byte with that code. *)
Definition unhex (c : ascii) : option N :=
  let n := N_of_ascii c in
  if (48 <=? n)%N && (n <=? 57)%N then Some (n - 48)%N
  else if (65 <=? n)%N && (n <=? 70)%N then Some (n - 55)%N
  else if (97 <=? n)%N && (n <=? 102)%N then Some (n - 87)%N
  else None.

Fixpoint form_decode (s : string) : string :=
  match s with
  | EmptyString => EmptyString
  | String c rest =>
      if (N_of_ascii c =? 37)%N then
        match rest with
        | String h (String l rest') =>
            match unhex h, unhex l with
            | Some a, Some b => String (ascii_of_N (16 * a + b)) (form_decode rest')
            | _, _ => String c (form_decode rest)
            end
        | _ => String c (form_decode rest)
        end
      else if (N_of_ascii c =? 43)%N then String " " (form_decode rest)
      else String c (form_decode rest)
  end.

End Claimed.

(** * Scenarios

    The concrete responses, jobs, pages, snapshots and plans the properties
    below are tried on. *)

Module Scenarios.
Import Api InventoryTable LoginPage.

(** A rejection whose detail is the empty string and whose message is
    not. *)
Definition rejected_empty_detail : Response :=
  {| ok := false;
     statusText := "Bad Request";
     json := Some (JObj [("detail", JStr EmptyString);
                         ("message", JStr "quota exceeded")]) |}.

(** A pre-flight rejection with its detail. *)
Definition rejected_quota : Response :=
  {| ok := false;
     statusText := "Bad Request";
     json := Some (JObj [("detail", JStr "quota exceeded")]) |}.

(** One virtual machine, and a completed job over it with a given blocker
    map. *)
Definition vm1 : AzureResource :=
  {| id := "/subscriptions/sub-1/resourceGroups/rg/providers/Microsoft.Compute/virtualMachines/vm1";
     name := "vm1";
     type := "Microsoft.Compute/virtualMachines";
     location := "westeurope";
     resource_group := "rg" |}.

Definition job_with (b : gmap string (list string)) : AssessmentJob :=
  {| job_id := "job-1";
     tenant_id := "tenant-demo-1";
     status := COMPLETED;
     inventory_snapshot :=
       Some {| subscription_id := "sub-1"; total_resources := 1;
               resources := [vm1]; resource_groups := [mkGroup "rg" "westeurope"] |};
     blockers := Some b;
     ai_generated_summary := None |}.

Definition job_empty_entry : AssessmentJob := job_with {[ id vm1 := [] ]}.

(** A reason that carries the marker of an unconfirmed resource. *)
Definition unknown_reason : string :=
  "No specific official documentation found for this resource type.".

Definition job_unknown_entry : AssessmentJob :=
  job_with {[ id vm1 := [unknown_reason] ]}.

(** The login form in mode auto with a client id and a secret typed in. *)
Definition page_auto (cid secret : string) : Page :=
  {| f_tenantId := "tenant-demo-1"; f_subId := "sub 1"; f_alias := EmptyString;
     f_loginMode := auto; f_clientId := cid; f_clientSecret := secret;
     savedLogins := []; localStorage := ∅; pushed := [] |}.

(** Two saved logins, and a form that saves under the alias of the first. *)
Definition production : SavedLogin :=
  {| alias := "Production"; tenantId := "old-tenant"; subId := "old-sub";
     mode := explicit; clientId := Some "old-app"; clientSecret := Some "old-pw" |}.

Definition dev : SavedLogin :=
  {| alias := "Dev"; tenantId := "dev-tenant"; subId := "dev-sub";
     mode := auto; clientId := Some EmptyString; clientSecret := Some EmptyString |}.

Definition page_resave : Page :=
  {| f_tenantId := "new-tenant"; f_subId := "new-sub"; f_alias := "  Production ";
     f_loginMode := auto; f_clientId := EmptyString; f_clientSecret := EmptyString;
     savedLogins := [production; dev]; localStorage := ∅; pushed := [] |}.

(** Scenario A of the design document: a network, a disk and a virtual
    machine that depends on both. *)
Definition scenario_A : Compiler.Snapshot :=
  {| Compiler.resource_ids := ["vm"; "net"; "disk"];
     Compiler.dependencies := [Compiler.mkEdge "net" "vm"; Compiler.mkEdge "disk" "vm"] |}.

Definition accept_all (ids : list string) (target : string) : Compiler.Validation :=
  Compiler.Accept.

Definition empty_store : Compiler.Store :=
  {| Compiler.plans := ∅; Compiler.next_id := 0 |}.

(** Two resources, each in the other's dependency edge, next to a third
    that depends on nothing. *)
Definition contrived : Compiler.Snapshot :=
  {| Compiler.resource_ids := ["a"; "b"; "c"];
     Compiler.dependencies := [Compiler.mkEdge "a" "b"; Compiler.mkEdge "b" "a"] |}.

(** A plan of two batches; the move of the network fails. *)
Definition two_batches : list (list string) := [["disk"; "net"]; ["vm"]].

Definition net_fails (r : string) : Executor.MoveOutcome :=
  if String.eqb r "net" then Executor.FAILED else Executor.MOVED.

End Scenarios.

(** * The rest of the portal

    The handlers and helpers of the same files that the modules above leave
    out: the other actions of the login page, the query string as the
    dashboard reads it, the dashboard's handlers, the remaining columns of
    the inventory table and the remaining actions of the job page. *)

(** ** The login page: loading and deleting a saved login *)

Module LoginActions.
Import LoginPage.

(** [loadLogin(login)]: the form takes the values of the entry;
    [login.clientId || ""] for the two optional members. *)
Definition loadLogin (p : Page) (login : SavedLogin) : Page :=
  {| f_tenantId := tenantId login;
     f_subId := subId login;
     f_alias := alias login;
     f_loginMode := mode login;
     f_clientId := default EmptyString (clientId login);
     f_clientSecret := default EmptyString (clientSecret login);
     savedLogins := savedLogins p;
     localStorage := localStorage p;
     pushed := pushed p |}.

(** [deleteLogin(e, targetAlias)]: the entries with another alias are kept,
    as state and in the browser storage. *)
Definition deleteLogin (p : Page) (targetAlias : string) : Page :=
  let filtered :=
    List.filter (λ l, negb (String.eqb (alias l) targetAlias)) (savedLogins p) in
  {| f_tenantId := f_tenantId p;
     f_subId := f_subId p;
     f_alias := f_alias p;
     f_loginMode := f_loginMode p;
     f_clientId := f_clientId p;
     f_clientSecret := f_clientSecret p;
     savedLogins := filtered;
     localStorage :=
       <["azure_migration_logins" := JSON_stringify (JArr (login_json <$> filtered))]>
         (localStorage p);
     pushed := pushed p |}.

(** The browser storage holds the serialized saved logins. *)
Definition in_sync (p : Page) : Prop :=
  localStorage p !! "azure_migration_logins"
  = Some (JSON_stringify (JArr (login_json <$> savedLogins p))).

(** Whether [s] ends with [w]. *)
Fixpoint ends_with (w s : string) : bool :=
  String.eqb s w
  || match s with
     | EmptyString => false
     | String _ rest => ends_with w rest
     end.

(** A white-space character at the front, at the end. *)
Definition starts_with_space (s : string) : bool :=
  existsb (λ w, String.prefix w s) Str.white_space.

Definition ends_with_space (s : string) : bool :=
  existsb (λ w, ends_with w s) Str.white_space.

End LoginActions.

(** ** The query string, as [URLSearchParams] reads it *)

Module Query.

(** [s.split(sep)] for a separator of one character: never an empty
    list. *)
Fixpoint split_on (sep : ascii) (s : string) : list string :=
  match s with
  | EmptyString => [EmptyString]
  | String c rest =>
      if Ascii.eqb c sep then EmptyString :: split_on sep rest
      else match split_on sep rest with
           | piece :: pieces => String c piece :: pieces
           | [] => [String c EmptyString]
           end
  end.

(** The text before the first [sep] and, when there is one, the text after
    it. *)
Fixpoint split_first (sep : ascii) (s : string) : string * option string :=
  match s with
  | EmptyString => (EmptyString, None)
  | String c rest =>
      if Ascii.eqb c sep then (EmptyString, Some rest)
      else let '(before, after) := split_first sep rest in (String c before, after)
  end.

(** Whether [c] occurs in [s]. *)
Fixpoint occurs (c : ascii) (s : string) : bool :=
  match s with
  | EmptyString => false
  | String x rest => Ascii.eqb x c || occurs c rest
  end.

(** One [name=value] piece; a piece without [=] has the empty value. *)
Definition parse_pair (piece : string) : string * string :=
  let '(n, v) := split_first "=" piece in
  (Claimed.form_decode n, Claimed.form_decode (default EmptyString v)).

(** The application/x-www-form-urlencoded parser: the pieces between [&],
    the empty ones skipped. *)
Definition parse_query (q : string) : list (string * string) :=
  parse_pair <$> List.filter (λ piece, negb (String.eqb piece EmptyString)) (split_on "&" q).

(** [searchParams.get(k)]: the value of the first pair named [k], or
    [null]. *)
Fixpoint get (params : list (string * string)) (k : string) : option string :=
  match params with
  | [] => None
  | (n, v) :: rest => if String.eqb n k then Some v else get rest k
  end.

(** The query of a URL: what stands between the first [?] and the [#] that
    follows, if any. *)
Definition query_of (u : string) : string :=
  match split_first "?" u with
  | (_, Some rest) => fst (split_first "#" rest)
  | (_, None) => EmptyString
  end.

End Query.

(** ** [app/dashboard/page.tsx] *)

Module Dashboard.

(** The state the handlers of the dashboard write. *)
Record State : Type := mkState {
  loadingAction : option string;
  pushed : list string;
  alerts : list string;
  console : list Thrown;
  showKeyInfo : bool;
  keyInfo : Value;
  loadingKeyInfo : bool
}.

Inductive AIStatus : Type := checking | success | failed.

Section Content.

Variable NEXT_PUBLIC_API_URL : option string.
Variable net : Api.Request → option Api.Response.
(** What [useSearchParams()] gives: the parsed query of the page's URL. *)
Variable searchParams : list (string * string).

(** [searchParams.get(k) || fallback] *)
Definition param (k fallback : string) : string :=
  match Query.get searchParams k with
  | Some v => if String.eqb v EmptyString then fallback else v
  | None => fallback
  end.

Definition tenantId : string := param "tenantId" EmptyString.
Definition subId : string := param "subId" EmptyString.
Definition loginMode : string := param "mode" "auto".
Definition clientId : string := param "clientId" EmptyString.
Definition clientSecret : string := param "clientSecret" EmptyString.

(** [loginMode === "explicit" ? x : undefined] *)
Definition when_explicit (x : string) : option string :=
  if String.eqb loginMode "explicit" then Some x else None.

Definition assessment_failed (sent : list Api.Request) (st : State) (e : Thrown)
  : list Api.Request * State :=
  (sent,
   {| loadingAction := None;
      pushed := pushed st;
      alerts := alerts st ++ ["Failed to trigger assessment. Check console."];
      console := console st ++ [e];
      showKeyInfo := showKeyInfo st;
      keyInfo := keyInfo st;
      loadingKeyInfo := loadingKeyInfo st |}).

(** [handleAssessment]: the requests sent and the state afterwards. *)
Definition handleAssessment (st : State) : list Api.Request * State :=
  let '(sent, outcome) :=
    Api.run net (Api.triggerAssessment NEXT_PUBLIC_API_URL tenantId subId
                   (when_explicit clientId) (when_explicit clientSecret)) in
  match outcome with
  | Returns data =>
      match get_prop data "job_id" with
      | Some job_id =>
          (sent,
           {| loadingAction := Some "assessment";
              pushed := pushed st ++ ["/jobs/" +:+ ToString_value job_id];
              alerts := alerts st;
              console := console st;
              showKeyInfo := showKeyInfo st;
              keyInfo := keyInfo st;
              loadingKeyInfo := loadingKeyInfo st |})
      | None => assessment_failed sent st TypeError
      end
  | Throws e => assessment_failed sent st e
  end.

(** The address [loadKeyInfo] fetches: the two ids are put in as they
    are. *)
Definition context_url : string :=
  "http://localhost:8000/api/v1/context?subscription_id=" +:+ subId
    +:+ "&tenant_id=" +:+ tenantId.

(** [loadKeyInfo]: the context is kept when the answer is ok; a failure is
    logged; the busy flag is cleared in the end. *)
Definition loadKeyInfo (st : State) : list Api.Request * State :=
  let req := Api.get context_url in
  let finished ki errs :=
    {| loadingAction := loadingAction st;
       pushed := pushed st;
       alerts := alerts st;
       console := console st ++ errs;
       showKeyInfo := showKeyInfo st;
       keyInfo := ki;
       loadingKeyInfo := false |} in
  ([req],
   match net req with
   | None => finished (keyInfo st) [NetworkError]
   | Some res =>
       if Api.ok res then
         match Api.json res with
         | Some data => finished (Some data) []
         | None => finished (keyInfo st) [SyntaxError]
         end
       else finished (keyInfo st) []
   end).

(** [handleInsights]: the modal opens and the context is loaded. *)
Definition handleInsights (st : State) : list Api.Request * State :=
  loadKeyInfo
    {| loadingAction := loadingAction st;
       pushed := pushed st;
       alerts := alerts st;
       console := console st;
       showKeyInfo := true;
       keyInfo := keyInfo st;
       loadingKeyInfo := loadingKeyInfo st |}.

(** [handleMigration]: the card only announces the wizard. *)
Definition handleMigration (st : State) : list Api.Request * State :=
  ([],
   {| loadingAction := loadingAction st;
      pushed := pushed st;
      alerts := alerts st ++ ["Migration Wizard coming soon! (Phase 3)"];
      console := console st;
      showKeyInfo := showKeyInfo st;
      keyInfo := keyInfo st;
      loadingKeyInfo := loadingKeyInfo st |}).

(** [checkStatus] of [AIStatusIndicator]: the request and the status set
    when the promise chain settles. *)
Definition checkStatus : Api.Request * AIStatus :=
  let req := Api.get "http://localhost:8000/api/ai-status" in
  (req,
   match net req with
   | None => failed
   | Some res =>
       if negb (Api.ok res) then failed
       else match Api.json res with
            | None => failed
            | Some data =>
                match get_prop data "connected" with
                | None => failed
                | Some connected => if truthy connected then success else failed
                end
            end
   end).

End Content.

End Dashboard.

(** ** The inventory table: the columns taken from the resource *)

Module TableColumns.

(** [res.id.split("/")[2] || "unknown"] *)
Definition subId (res : AzureResource) : string :=
  match Query.split_on "/" (id res) !! 2 with
  | Some s => if String.eqb s EmptyString then "unknown" else s
  | None => "unknown"
  end.

(** [c.toUpperCase()] for a character of ASCII: the letters a to z become
    A to Z, every other character stays. *)
Definition upper_ascii (c : ascii) : ascii :=
  let n := N_of_ascii c in
  if (97 <=? n)%N && (n <=? 122)%N then ascii_of_N (n - 32) else c.

Section HumanType.

(** [s.toUpperCase()] for a string [s] of one character of the Basic
    Multilingual Plane beyond ASCII, UTF-8 in and out: the case tables of the
    engine, which are no part of the repository.  The result may be longer
    than the character. *)
Variable toUpperCase : string → string.

(** [last.charAt(0).toUpperCase() + last.slice(1)], by the first byte of
    [last]: a character of ASCII; a character of two or of three bytes;
    or a character beyond the Basic Multilingual Plane, of which [charAt(0)]
    is one half, which [toUpperCase] leaves alone. *)
Definition capitalize (last : string) : string :=
  match last with
  | EmptyString => EmptyString
  | String c1 r1 =>
      let n := N_of_ascii c1 in
      if (n <? 128)%N then String (upper_ascii c1) r1
      else if (192 <=? n)%N && (n <? 224)%N then
        match r1 with
        | String c2 r2 => toUpperCase (String c1 (String c2 EmptyString)) +:+ r2
        | EmptyString => last
        end
      else if (224 <=? n)%N && (n <? 240)%N then
        match r1 with
        | String c2 (String c3 r3) =>
            toUpperCase (String c1 (String c2 (String c3 EmptyString))) +:+ r3
        | _ => last
        end
      else last
  end.

(** [getHumanType(t)]: the last segment of the type with a capital first
    letter; the type itself when the last segment is empty. *)
Definition getHumanType (t : string) : string :=
  let parts := Query.split_on "/" t in
  match last parts with
  | Some (String c rest) => capitalize (String c rest)
  | _ => t
  end.

End HumanType.

End TableColumns.

(** ** The job page: polling, export and the buttons *)

Module JobActions.

(** The state of the job page. *)
Record View : Type := mkView {
  job : Value;
  loading : bool;
  exportingARM : bool;
  downloads : list string;
  alerts : list string;
  console : list Thrown
}.

(** What the page renders first: the spinner, the notice that the job is
    not found, or the dashboard of the job. *)
Inductive Screen : Type :=
| Spinner
| JobNotFound
| JobDashboard (j : JSON).

Definition screen (v : View) : Screen :=
  if loading v then Spinner
  else match job v with
       | Some j => if truthy (Some j) then JobDashboard j else JobNotFound
       | None => JobNotFound
       end.

(** [getStatusColor(status)] *)
Definition getStatusColor (status : string) : string :=
  if String.eqb status "COMPLETED" then "text-green-600"
  else if String.eqb status "FAILED" then "text-red-600"
  else "text-yellow-600".

(** The button Start Migration: [None] when it is not rendered, else
    whether it is disabled.
    [job.status === "COMPLETED" && !planId && <button disabled={migrating}>] *)
Definition startMigration (j : AssessmentJob) (ui : JobPage.Ui) : option bool :=
  match status j with
  | COMPLETED => if truthy (JobPage.planId ui) then None else Some (JobPage.migrating ui)
  | _ => None
  end.

Section Actions.

Variable NEXT_PUBLIC_API_URL : option string.
Variable net : Api.Request → option Api.Response.

(** [fetchJob] for the job id [id]: the job is replaced when the read
    succeeds, the error is logged when it fails, and the spinner is taken
    away in both cases. *)
Definition fetchJob (id : string) (v : View) : list Api.Request * View :=
  let '(sent, outcome) := Api.run net (Api.getJobStatus NEXT_PUBLIC_API_URL id) in
  (sent,
   match outcome with
   | Returns data =>
       {| job := Some data; loading := false; exportingARM := exportingARM v;
          downloads := downloads v; alerts := alerts v; console := console v |}
   | Throws e =>
       {| job := job v; loading := false; exportingARM := exportingARM v;
          downloads := downloads v; alerts := alerts v; console := console v ++ [e] |}
   end).

(** The request [handleMigrate] sends, if any. *)
Definition migrate_request (j : AssessmentJob) : option Api.Request :=
  match inventory_snapshot j with
  | None => None
  | Some snap =>
      let sourceRg := JobPage.sourceRg_of snap in
      Some {| Api.method := "POST";
              Api.url := Api.API_URL NEXT_PUBLIC_API_URL +:+ "/api/v1/migrate";
              Api.headers := [("Content-Type", "application/json")];
              Api.body := Some (JSON_stringify (JObj
                (Api.migration_payload (job_id j) sourceRg
                   ("/subscriptions/" +:+ subscription_id snap +:+ "/resourceGroups/"
                      +:+ sourceRg +:+ "-migrated")
                   (id <$> resources snap)))) |}
  end.

(** [response.blob()] of an export: [None] when reading the body fails. *)
Variable blob : Api.Response → option string.

(** [handleARMExport] for the job id [id]: the templates are fetched and
    handed to the browser as a download, a failure is announced, and the
    button is released in the end. *)
Definition handleARMExport (id : string) (v : View) : list Api.Request * View :=
  let req := Api.get (Api.getARMExportUrl NEXT_PUBLIC_API_URL id) in
  let failedExport :=
    {| job := job v; loading := loading v; exportingARM := false;
       downloads := downloads v;
       alerts := alerts v ++ ["Failed to download ARM templates."];
       console := console v |} in
  ([req],
   match net req with
   | None => failedExport
   | Some res =>
       if negb (Api.ok res) then failedExport
       else match blob res with
            | None => failedExport
            | Some _ =>
                {| job := job v; loading := loading v; exportingARM := false;
                   downloads :=
                     downloads v ++ ["Blocked_Resources_Templates_" +:+ id +:+ ".zip"];
                   alerts := alerts v;
                   console := console v |}
            end
   end).

End Actions.

(** The page as it is mounted: no job yet, the spinner on. *)
Definition mounted : View :=
  {| job := Some JNull; loading := true; exportingARM := false;
     downloads := []; alerts := []; console := [] |}.

(** The calls of [fetchJob] one after the other, each settled before the
    next one starts; [nets] is the network as it answers at the time of each
    call. *)
Fixpoint reads (NEXT_PUBLIC_API_URL : option string) (id : string)
    (nets : list (Api.Request → option Api.Response)) (v : View) : View :=
  match nets with
  | [] => v
  | net :: rest =>
      reads NEXT_PUBLIC_API_URL id rest (snd (fetchJob NEXT_PUBLIC_API_URL net id v))
  end.

(** The effect that polls: [if (!id) return; fetchJob();
    setInterval(fetchJob, 3000)].  The id of the route may be missing
    ([None]) or empty, and then nothing is read. *)
Definition polling (NEXT_PUBLIC_API_URL : option string) (id : option string)
    (nets : list (Api.Request → option Api.Response)) (v : View) : View :=
  match id with
  | Some i => if String.eqb i EmptyString then v else reads NEXT_PUBLIC_API_URL i nets v
  | None => v
  end.

End JobActions.

(** * Properties of the HTTP client *)

Module ApiFacts.
Import Api Claimed Scenarios.

Lemma truthy_string_given (o : option string) :
  truthy (JStr <$> o) = true ↔ given o.
Proof.
  destruct o as [s|]; simpl.
  - destruct (String.eqb_spec s EmptyString) as [->|Hne]; simpl.
    + split; [discriminate | intros (s' & [= <-] & Hs); congruence].
    + split; [intros _; exists s; auto | auto].
  - split; [discriminate | intros (s' & [=] & _)].
Qed.

Lemma both_given_iff (clientId clientSecret : option string) :
  both_given clientId clientSecret = true ↔ given clientId ∧ given clientSecret.
Proof.
  unfold both_given. rewrite andb_true_iff, !truthy_string_given. tauto.
Qed.

(** C10: [triggerAssessment] sends a POST whose body is the serialized
    payload, and the payload has the members [client_id] and [client_secret]
    exactly when both the [clientId] and the [clientSecret] argument are
    given and non-empty; then they carry the two arguments.  In every other
    case, also when only one of the two is supplied, the payload is the
    credential-free one: tenant and subscription only. *)
Theorem triggerAssessment_credentials_iff
    (env : option string) (tenantId subscriptionId : string)
    (clientId clientSecret : option string) :
  ∃ payload req k,
    triggerAssessment env tenantId subscriptionId clientId clientSecret = Fetch req k
    ∧ body req = Some (JSON_stringify (JObj payload))
    ∧ (is_Some (assoc "client_id" payload) ↔ given clientId ∧ given clientSecret)
    ∧ (is_Some (assoc "client_secret" payload) ↔ given clientId ∧ given clientSecret)
    ∧ (given clientId ∧ given clientSecret →
         assoc "client_id" payload = JStr <$> clientId
         ∧ assoc "client_secret" payload = JStr <$> clientSecret)
    ∧ (¬ (given clientId ∧ given clientSecret) →
         payload = [("tenant_id", JStr tenantId); ("subscription_id", JStr subscriptionId)]).
Proof.
  eexists (assessment_payload tenantId subscriptionId clientId clientSecret), _, _.
  split; [reflexivity|]. split; [reflexivity|].
  unfold assessment_payload.
  destruct (both_given clientId clientSecret) eqn:Hb.
  - pose proof (proj1 (both_given_iff _ _) Hb) as Hg.
    pose proof Hg as [(c & Ec & Hc) (s & Es & Hs)]. subst. simpl.
    split; [split; [intros _; exact Hg | intros _; eexists; reflexivity]|].
    split; [split; [intros _; exact Hg | intros _; eexists; reflexivity]|].
    split; [intros _; split; reflexivity|].
    intros Hn. contradiction.
  - assert (Hn : ¬ (given clientId ∧ given clientSecret)).
    { intros Hg. apply both_given_iff in Hg. congruence. }
    simpl.
    split; [split; [intros [? [=]] | tauto]|].
    split; [split; [intros [? [=]] | tauto]|].
    split; [tauto | reflexivity].
Qed.

(** The credential-free form when the secret is missing, and the full form
    when both are typed. *)
Example triggerAssessment_only_id :
  assessment_payload "t" "s" (Some "app") None
  = [("tenant_id", JStr "t"); ("subscription_id", JStr "s")].
Proof. reflexivity. Qed.

Example triggerAssessment_empty_secret :
  assessment_payload "t" "s" (Some "app") (Some EmptyString)
  = [("tenant_id", JStr "t"); ("subscription_id", JStr "s")].
Proof. reflexivity. Qed.

Example triggerAssessment_body :
  body <$> (match triggerAssessment None "t" "s" (Some "app") (Some "pw") with
            | Fetch req _ => Some req
            | Settled _ => None
            end)
  = Some (Some (JSON_stringify
       (JObj [("tenant_id", JStr "t"); ("subscription_id", JStr "s");
              ("client_id", JStr "app"); ("client_secret", JStr "pw")]))).
Proof. reflexivity. Qed.

(** *** [handleResponse] *)

Lemma get_prop_member (body : JSON) (k : string) :
  body ≠ JNull → get_prop body k = Some (member body k).
Proof. intros Hn. destruct body; try reflexivity. contradiction. Qed.

Lemma errorMsg_try_object (res : Response) (body : JSON) :
  json res = Some body → body ≠ JNull →
  errorMsg_try res =
    Some (if truthy (member body "detail") then member body "detail"
          else if truthy (member body "message") then member body "message"
          else Some (JStr (JSON_stringify body))).
Proof.
  intros Hj Hn. unfold errorMsg_try. rewrite Hj. simpl.
  rewrite !get_prop_member by assumption. simpl.
  destruct (truthy (member body "detail")); [reflexivity|].
  destruct (truthy (member body "message")); reflexivity.
Qed.

Lemma errorMsg_try_caught (res : Response) :
  json res = None ∨ json res = Some JNull → errorMsg_try res = None.
Proof. intros [H|H]; unfold errorMsg_try; rewrite H; reflexivity. Qed.

(** What is thrown for a JSON body other than null. *)
Lemma handleResponse_not_ok_body (res : Response) (body : JSON) :
  ok res = false → json res = Some body → body ≠ JNull →
  handleResponse res =
    Throws (Error
      (if truthy (member body "detail")
       then ToString_value (member body "detail")
       else if truthy (member body "message")
       then ToString_value (member body "message")
       else JSON_stringify body)).
Proof.
  intros Hok Hj Hn. unfold handleResponse. rewrite Hok. simpl.
  rewrite (errorMsg_try_object res body Hj Hn).
  destruct (truthy (member body "detail")); [reflexivity|].
  destruct (truthy (member body "message")); reflexivity.
Qed.

(** A detail that is a string and not empty is the message. *)
Lemma handleResponse_detail_string (res : Response)
    (fields : list (string * JSON)) (d : string) :
  ok res = false → json res = Some (JObj fields) →
  assoc "detail" fields = Some (JStr d) → d ≠ EmptyString →
  handleResponse res = Throws (Error d).
Proof.
  intros Hok Hj Hd Hne.
  rewrite (handleResponse_not_ok_body res _ Hok Hj) by discriminate.
  simpl. rewrite Hd. simpl.
  destruct (String.eqb_spec d EmptyString); [contradiction | reflexivity].
Qed.

(** C3, as stated, fails: the detail member is present (it is the empty
    string), yet the thrown message is the message member. *)
Lemma handleResponse_detail_present_not_used :
  handleResponse rejected_empty_detail = Throws (Error "quota exceeded")
  ∧ claimed_handleResponse rejected_empty_detail = Throws (Error EmptyString)
  ∧ handleResponse rejected_empty_detail ≠ claimed_handleResponse rejected_empty_detail.
Proof. repeat split. vm_compute. discriminate. Qed.

(** C3, amended: on a response that is not ok [handleResponse] throws an
    Error and returns nothing.  The message is the first truthy one of the
    body's detail member, its message member and the serialized body (a
    member that is present but falsy is passed over, a value that is not a
    string is converted with ToString); it is the status text when the body
    is not JSON or is null.  On an ok response with a JSON body it returns
    that body.  A detail string that is not empty is the thrown message,
    verbatim. *)
Theorem handleResponse_amended (res : Response) :
  (ok res = false → ∃ m, handleResponse res = Throws (Error m))
  ∧ (ok res = false → ∀ body, json res = Some body → body ≠ JNull →
       handleResponse res =
         Throws (Error
           (if truthy (member body "detail")
            then ToString_value (member body "detail")
            else if truthy (member body "message")
            then ToString_value (member body "message")
            else JSON_stringify body)))
  ∧ (ok res = false → json res = None ∨ json res = Some JNull →
       handleResponse res = Throws (Error (statusText res)))
  ∧ (ok res = true → ∀ v, json res = Some v → handleResponse res = Returns v)
  ∧ (ok res = false → ∀ fields d,
       json res = Some (JObj fields) → assoc "detail" fields = Some (JStr d) →
       d ≠ EmptyString → handleResponse res = Throws (Error d)).
Proof.
  split; [|split; [|split; [|split]]].
  - intros Hok. unfold handleResponse. rewrite Hok. simpl. eauto.
  - intros Hok body Hj Hn. apply handleResponse_not_ok_body; assumption.
  - intros Hok Hc. unfold handleResponse. rewrite Hok. simpl.
    rewrite (errorMsg_try_caught res Hc). reflexivity.
  - intros Hok v Hj. unfold handleResponse. rewrite Hok, Hj. reflexivity.
  - intros Hok fields d Hj Hd Hne. eapply handleResponse_detail_string; eauto.
Qed.

Lemma handleResponse_amended_witness :
  handleResponse rejected_quota = Throws (Error "quota exceeded").
Proof.
  apply (proj2 (proj2 (proj2 (proj2 (handleResponse_amended rejected_quota))))
           eq_refl [("detail", JStr "quota exceeded")] "quota exceeded" eq_refl eq_refl).
  discriminate.
Defined.

(** The job page shows the rejection as it came: when the backend answers
    the migration request with a failure whose detail is a non-empty
    string, the alert is that detail after the fixed prefix, and no plan id
    is set. *)
Lemma handleMigrate_alerts_detail
    (env : option string) (net : Request → option Response)
    (native : Thrown → string) (job : AssessmentJob) (snap : InventorySnapshot)
    (ui : JobPage.Ui) (res : Response) (fields : list (string * JSON)) (d : string) :
  inventory_snapshot job = Some snap →
  (∀ req, net req = Some res) →
  ok res = false → json res = Some (JObj fields) →
  assoc "detail" fields = Some (JStr d) → d ≠ EmptyString →
  JobPage.handleMigrate env net native job ui
  = {| JobPage.migrating := false;
       JobPage.planId := JobPage.planId ui;
       JobPage.alerts := JobPage.alerts ui ++ ["Migration trigger failed: " +:+ d] |}.
Proof.
  intros Hs Hnet Hok Hj Hd Hne.
  unfold JobPage.handleMigrate. rewrite Hs. cbv zeta.
  unfold triggerMigration, fetch_then_handle. simpl. rewrite Hnet. simpl.
  rewrite (handleResponse_detail_string res fields d Hok Hj Hd Hne).
  reflexivity.
Qed.

(** Further behaviour at the edges of the chain. *)
Example handleResponse_list_detail :
  handleResponse
    {| ok := false; statusText := "Unprocessable Entity";
       json := Some (JObj [("detail",
                 JArr [JObj [("msg", JStr "field required")]])]) |}
  = Throws (Error "[object Object]").
Proof. reflexivity. Qed.

Example handleResponse_null_body :
  handleResponse {| ok := false; statusText := "Bad Gateway"; json := Some JNull |}
  = Throws (Error "Bad Gateway").
Proof. reflexivity. Qed.

Example handleResponse_no_members :
  handleResponse
    {| ok := false; statusText := "Conflict";
       json := Some (JObj [("code", JNum 409)]) |}
  = Throws (Error (JSON_stringify (JObj [("code", JNum 409)]))).
Proof. reflexivity. Qed.

Example handleResponse_not_json :
  handleResponse {| ok := false; statusText := "Internal Server Error"; json := None |}
  = Throws (Error "Internal Server Error").
Proof. reflexivity. Qed.

(** *** The four operations *)

(** Each of the four operations of the client sends exactly one request
    and settles to what [handleResponse] makes of the answer; on an ok
    answer the value returned is the JSON body the server sent, unchanged.
    The two other members of [api] are addresses, strings, and send
    nothing. *)
Lemma four_operations_requests (env : option string) (net : Request → option Response) :
  (∀ tenantId subscriptionId clientId clientSecret, ∃ req payload,
      run net (triggerAssessment env tenantId subscriptionId clientId clientSecret)
        = ([req], settle (net req))
      ∧ method req = "POST"
      ∧ url req = API_URL env +:+ "/api/v1/assess"
      ∧ body req = Some (JSON_stringify (JObj payload))
      ∧ assoc "tenant_id" payload = Some (JStr tenantId)
      ∧ assoc "subscription_id" payload = Some (JStr subscriptionId))
  ∧ (∀ jobId, ∃ req,
      run net (getJobStatus env jobId) = ([req], settle (net req))
      ∧ req = {| method := "GET"; url := API_URL env +:+ "/api/v1/jobs/" +:+ jobId;
                 headers := []; body := None |})
  ∧ (∀ jobId sourceRg targetRgId resources, ∃ req,
      run net (triggerMigration env jobId sourceRg targetRgId resources)
        = ([req], settle (net req))
      ∧ method req = "POST"
      ∧ url req = API_URL env +:+ "/api/v1/migrate"
      ∧ body req = Some (JSON_stringify (JObj
          [("job_id", JStr jobId);
           ("source_resource_group", JStr sourceRg);
           ("target_resource_group_id", JStr targetRgId);
           ("resources", JArr (JStr <$> resources))])))
  ∧ (∀ planId, ∃ req,
      run net (getMigrationPlan env planId) = ([req], settle (net req))
      ∧ req = {| method := "GET"; url := API_URL env +:+ "/api/v1/plans/" +:+ planId;
                 headers := []; body := None |})
  ∧ (∀ res v, ok res = true → json res = Some v → settle (Some res) = Returns v)
  ∧ (∀ jobId,
      getExportUrl env jobId = API_URL env +:+ "/api/v1/jobs/" +:+ jobId +:+ "/export"
      ∧ getARMExportUrl env jobId
        = API_URL env +:+ "/api/v1/jobs/" +:+ jobId +:+ "/export/arm").
Proof.
  assert (Hrun : ∀ req, run net (fetch_then_handle req) = ([req], settle (net req))).
  { intros req. unfold fetch_then_handle. simpl. destruct (net req); reflexivity. }
  split; [|split; [|split; [|split; [|split; [|split; reflexivity]]]]].
  - intros tenantId subscriptionId clientId clientSecret.
    eexists _, (assessment_payload tenantId subscriptionId clientId clientSecret).
    split; [apply Hrun|]. simpl. repeat split; try reflexivity.
    all: unfold assessment_payload;
      destruct (both_given clientId clientSecret); [|reflexivity];
      destruct clientId, clientSecret; reflexivity.
  - intros jobId. eexists. split; [apply Hrun | reflexivity].
  - intros jobId sourceRg targetRgId resources. eexists.
    split; [apply Hrun|]. simpl. repeat split; reflexivity.
  - intros planId. eexists. split; [apply Hrun | reflexivity].
  - intros res v Hok Hj. simpl. unfold handleResponse. rewrite Hok, Hj. reflexivity.
Qed.

(** C4, as stated, fails.  The result has the shape the backend gives it
    and no other: to an ok answer with the body {} submit assessment returns
    {}, a value without job id.  And the four operations are not all of the
    surface: the client has a member for the address of the ARM export, and
    the job page requests that address. *)
Lemma api_surface_beyond_four_operations :
  snd (run (λ _, Some {| ok := true; statusText := "OK"; json := Some (JObj []) |})
         (triggerAssessment None "tenant-demo-1" "sub-1" None None))
  = Returns (JObj [])
  ∧ member (JObj []) "job_id" = None
  ∧ getARMExportUrl None "job-1" = "http://localhost:8000/api/v1/jobs/job-1/export/arm"
  ∧ fst (JobActions.handleARMExport None (λ _, None) (λ _, None) "job-1" JobActions.mounted)
    = [get "http://localhost:8000/api/v1/jobs/job-1/export/arm"].
Proof. repeat split. Qed.

(** C4, amended: the client performs each of the four operations the spec
    names as one request to its endpoint with the arguments it was given:
    submit assessment is a POST to /api/v1/assess whose body carries the
    tenant and the subscription; read job is a GET of /api/v1/jobs/{id};
    submit migration is a POST to /api/v1/migrate whose body carries the job
    id, the source group, the target and the selected resources; read plan is
    a GET of /api/v1/plans/{id}.  On an ok answer the value returned is the
    JSON body of the answer, unchanged, whatever its members are.  The four
    are not the whole surface: the client also gives the addresses of the
    two report exports, and the portal requests the ARM export, the context
    of a subscription and the status of the reasoning service directly. *)
Theorem api_surface (env : option string) (net : Request → option Response) :
  ((∀ tenantId subscriptionId clientId clientSecret, ∃ req payload,
      run net (triggerAssessment env tenantId subscriptionId clientId clientSecret)
        = ([req], settle (net req))
      ∧ method req = "POST"
      ∧ url req = API_URL env +:+ "/api/v1/assess"
      ∧ body req = Some (JSON_stringify (JObj payload))
      ∧ assoc "tenant_id" payload = Some (JStr tenantId)
      ∧ assoc "subscription_id" payload = Some (JStr subscriptionId))
  ∧ (∀ jobId, ∃ req,
      run net (getJobStatus env jobId) = ([req], settle (net req))
      ∧ req = {| method := "GET"; url := API_URL env +:+ "/api/v1/jobs/" +:+ jobId;
                 headers := []; body := None |})
  ∧ (∀ jobId sourceRg targetRgId resources, ∃ req,
      run net (triggerMigration env jobId sourceRg targetRgId resources)
        = ([req], settle (net req))
      ∧ method req = "POST"
      ∧ url req = API_URL env +:+ "/api/v1/migrate"
      ∧ body req = Some (JSON_stringify (JObj
          [("job_id", JStr jobId);
           ("source_resource_group", JStr sourceRg);
           ("target_resource_group_id", JStr targetRgId);
           ("resources", JArr (JStr <$> resources))])))
  ∧ (∀ planId, ∃ req,
      run net (getMigrationPlan env planId) = ([req], settle (net req))
      ∧ req = {| method := "GET"; url := API_URL env +:+ "/api/v1/plans/" +:+ planId;
                 headers := []; body := None |})
  ∧ (∀ res v, ok res = true → json res = Some v → settle (Some res) = Returns v)
  ∧ (∀ jobId,
      getExportUrl env jobId = API_URL env +:+ "/api/v1/jobs/" +:+ jobId +:+ "/export"
      ∧ getARMExportUrl env jobId
        = API_URL env +:+ "/api/v1/jobs/" +:+ jobId +:+ "/export/arm"))
  ∧ (∀ blob id v,
       fst (JobActions.handleARMExport env net blob id v) = [get (getARMExportUrl env id)])
  ∧ (∀ sp st,
       fst (Dashboard.loadKeyInfo net sp st)
       = [get ("http://localhost:8000/api/v1/context?subscription_id="
                 +:+ Dashboard.subId sp +:+ "&tenant_id=" +:+ Dashboard.tenantId sp)])
  ∧ fst (Dashboard.checkStatus net) = get "http://localhost:8000/api/ai-status".
Proof.
  split; [exact (four_operations_requests env net)|].
  split; [intros blob id v; reflexivity|].
  split; [intros sp st; reflexivity | reflexivity].
Qed.

(** What goes over the wire for a job id and for a migration of two
    resources, against the default backend address. *)
Example getJobStatus_request :
  fst (run (λ _, None) (getJobStatus None "42"))
  = [{| method := "GET"; url := "http://localhost:8000/api/v1/jobs/42";
        headers := []; body := None |}].
Proof. reflexivity. Qed.

Example triggerMigration_request_body :
  JSON_stringify (JObj (migration_payload "j" "rg" "/subscriptions/s/resourceGroups/rg-migrated" ["a"; "b"]))
  = "{" +:+ quote "job_id" +:+ ":" +:+ quote "j" +:+ ","
        +:+ quote "source_resource_group" +:+ ":" +:+ quote "rg" +:+ ","
        +:+ quote "target_resource_group_id" +:+ ":"
        +:+ quote "/subscriptions/s/resourceGroups/rg-migrated" +:+ ","
        +:+ quote "resources" +:+ ":[" +:+ quote "a" +:+ "," +:+ quote "b" +:+ "]}".
Proof. reflexivity. Qed.

End ApiFacts.

(** * Properties of the inventory table and of the job page *)

Module TableFacts.
Import InventoryTable Claimed Scenarios.

(** The column shows Yes exactly for the movable resources: entry absent
    or empty. *)
Lemma renderStatus_Yes_iff (b : gmap string (list string)) (res : AzureResource) :
  renderStatus b res = Yes ↔ b !! id res = None ∨ b !! id res = Some [].
Proof.
  unfold renderStatus, isBlocked, isUnknown, combinedIssues, blockersList.
  destruct (b !! id res) as [[|reason rest]|]; simpl.
  - split; auto.
  - destruct (Str.includes _ _); split; try discriminate; intros [H|H]; discriminate.
  - split; auto.
Qed.

Lemma renderStatus_Yes_movable (b : gmap string (list string)) (res : AzureResource) :
  renderStatus b res = Yes ↔ movable b res = true.
Proof.
  rewrite renderStatus_Yes_iff. unfold movable.
  destruct (b !! id res) as [[|reason rest]|]; split; auto; try discriminate.
  intros [H|H]; discriminate.
Qed.

(** A resource whose reasons carry the marker is blocked: no marker without
    a reason. *)
Lemma isUnknown_isBlocked (b : gmap string (list string)) (res : AzureResource) :
  isUnknown b res = true → isBlocked b res = true.
Proof.
  unfold isUnknown, isBlocked, combinedIssues, blockersList.
  destruct (b !! id res) as [[|reason rest]|]; simpl; auto.
  all: vm_compute; discriminate.
Qed.

Lemma isUnknown_coverage_unknown (b : gmap string (list string))
    (res : AzureResource) (reasons : list string) :
  b !! id res = Some reasons → isUnknown b res = coverage_unknown reasons.
Proof.
  intros H. unfold isUnknown, combinedIssues, blockersList, coverage_unknown.
  rewrite H. reflexivity.
Qed.

(** C1: the table shows Yes for the one resource, whose blocker list is
    empty, so one resource is movable; the counter Ready to Move shows 0,
    because the key is counted whatever its list holds. *)
Theorem readyCount_counts_empty_entry_as_blocked :
  JobPage.table job_empty_entry = [Yes]
  ∧ movable_count job_empty_entry = 1%Z
  ∧ JobPage.blockersCount job_empty_entry = 1%Z
  ∧ JobPage.readyCount job_empty_entry = 0%Z.
Proof. repeat split; vm_compute; reflexivity. Qed.

(** When the counters of the job page are right: the snapshot's total is the
    number of its resources, no id occurs twice, and every key of the
    blocker map is the id of a resource and holds at least one reason.  Then
    Ready to Move is the number of movable resources. *)
Lemma readyCount_movable_count
    (job : AssessmentJob) (snap : InventorySnapshot) (b : gmap string (list string)) :
  inventory_snapshot job = Some snap → blockers job = Some b →
  total_resources snap = Z.of_nat (length (resources snap)) →
  NoDup (id <$> resources snap) →
  (∀ k reasons, b !! k = Some reasons → reasons ≠ [] ∧ k ∈ id <$> resources snap) →
  JobPage.readyCount job = movable_count job.
Proof.
  intros Hs Hb Htot Hnd Hkeys.
  unfold JobPage.readyCount, JobPage.totalResources, JobPage.blockersCount, movable_count.
  rewrite Hs, Hb, Htot. simpl.
  set (rs := resources snap) in *.
  set (P := λ r : AzureResource, is_Some (b !! id r)).
  assert (Hne : ∀ k reasons, b !! k = Some reasons → reasons ≠ [])
    by (intros k reasons Hk; apply (Hkeys k reasons Hk)).
  assert (Hsplit : length (List.filter (movable b) rs) + length (filter P rs) = length rs).
  { clear Hnd Htot Hkeys. induction rs as [|r rs IH]; [reflexivity|].
    simpl. rewrite filter_cons.
    destruct (decide (P r)) as [[reasons Hr]|HP].
    - assert (Hm : movable b r = false).
      { unfold movable. rewrite Hr. destruct reasons; [|reflexivity].
        exfalso. eapply Hne; eauto. }
      rewrite Hm. simpl. lia.
    - assert (Hm : movable b r = true).
      { unfold movable. destruct (b !! id r) eqn:Hr; [|reflexivity].
        exfalso. apply HP. unfold P. rewrite Hr. eauto. }
      rewrite Hm. simpl. lia. }
  assert (Hsize : size b = length (filter P rs)).
  { rewrite <- (size_dom (D := gset string)).
    assert (Hdom : dom b = list_to_set (id <$> filter P rs)).
    { apply set_eq. intros k. rewrite elem_of_dom, elem_of_list_to_set, list_elem_of_fmap.
      split.
      - intros [reasons Hk]. destruct (Hkeys k reasons Hk) as [_ Hin].
        apply list_elem_of_fmap in Hin as (r & -> & Hr).
        exists r. split; [reflexivity|]. apply list_elem_of_filter. split; [|exact Hr].
        unfold P. eauto.
      - intros (r & -> & Hr). apply list_elem_of_filter in Hr as [Hr _]. exact Hr. }
    rewrite Hdom, size_list_to_set, length_fmap; [reflexivity|].
    eapply sublist_NoDup; [exact Hnd|]. apply fmap_sublist, sublist_filter. }
  lia.
Qed.


(** The three renderings side by side. *)
Example table_three_rows :
  statuses
    [mkResource "a" "a" "t" "l" "g"; mkResource "b" "b" "t" "l" "g";
     mkResource "c" "c" "t" "l" "g"; mkResource "d" "d" "t" "l" "g"]
    {[ "b" := ["Resource has a CanNotDelete lock."];
       "c" := [unknown_reason];
       "d" := [] ]}
  = [Yes; No; Dash; Yes].
Proof. vm_compute. reflexivity. Qed.

End TableFacts.

(** * Properties of the login page *)

Module LoginFacts.
Import LoginPage Scenarios.

(** *** The URL handed to the dashboard *)

(** C8: in mode auto the query string carries empty [clientId] and
    [clientSecret] whatever was typed, so two pages that agree on tenant and
    subscription navigate to the same URL; in mode explicit the typed id and
    secret are in the query string. *)
Theorem dashboard_url_auto_hides_credentials (p q : Page) :
  f_loginMode p = auto → f_loginMode q = auto →
  f_tenantId p = f_tenantId q → f_subId p = f_subId q →
  dashboard_url p = dashboard_url q
  ∧ last (pushed (handleConnect p)) = last (pushed (handleConnect q))
  ∧ last (pushed (handleConnect p)) = Some (dashboard_url p)
  ∧ params p = [("tenantId", f_tenantId p); ("subId", f_subId p); ("mode", "auto");
                ("clientId", EmptyString); ("clientSecret", EmptyString)]
  ∧ dashboard_url p =
      "/dashboard?tenantId=" +:+ form_encode (f_tenantId p)
        +:+ "&subId=" +:+ form_encode (f_subId p)
        +:+ "&mode=auto&clientId=&clientSecret="
  ∧ (∀ r, f_loginMode r = explicit →
       dashboard_url r =
         "/dashboard?tenantId=" +:+ form_encode (f_tenantId r)
           +:+ "&subId=" +:+ form_encode (f_subId r)
           +:+ "&mode=explicit&clientId=" +:+ form_encode (f_clientId r)
           +:+ "&clientSecret=" +:+ form_encode (f_clientSecret r)).
Proof.
  intros Hp Hq Ht Hs.
  assert (Hurl : ∀ r, f_loginMode r = auto →
            dashboard_url r =
              "/dashboard?tenantId=" +:+ form_encode (f_tenantId r)
                +:+ "&subId=" +:+ form_encode (f_subId r)
                +:+ "&mode=auto&clientId=&clientSecret=").
  { intros r Hr. unfold dashboard_url, params_toString, params. rewrite Hr.
    reflexivity. }
  assert (Heq : dashboard_url p = dashboard_url q)
    by (rewrite (Hurl p Hp), (Hurl q Hq), Ht, Hs; reflexivity).
  assert (Hlast : ∀ r, last (pushed (handleConnect r)) = Some (dashboard_url r))
    by (intros r; simpl; apply last_snoc).
  split; [exact Heq|].
  split; [rewrite !Hlast, Heq; reflexivity|].
  split; [apply Hlast|].
  split; [unfold params; rewrite Hp; reflexivity|].
  split; [apply Hurl; exact Hp|].
  intros r Hr. unfold dashboard_url, params_toString, params. rewrite Hr.
  reflexivity.
Qed.

Lemma dashboard_url_auto_hides_credentials_witness :
  dashboard_url (page_auto "app" "s3cret") = dashboard_url (page_auto EmptyString EmptyString).
Proof.
  exact (proj1 (dashboard_url_auto_hides_credentials
                  (page_auto "app" "s3cret") (page_auto EmptyString EmptyString)
                  eq_refl eq_refl eq_refl eq_refl)).
Defined.

Example dashboard_url_auto :
  dashboard_url (page_auto "app" "s3cret")
  = "/dashboard?tenantId=tenant-demo-1&subId=sub+1&mode=auto&clientId=&clientSecret=".
Proof. reflexivity. Qed.

Example dashboard_url_explicit :
  dashboard_url
    {| f_tenantId := "t"; f_subId := "s"; f_alias := EmptyString;
       f_loginMode := explicit; f_clientId := "app"; f_clientSecret := "p&w/1";
       savedLogins := []; localStorage := ∅; pushed := [] |}
  = "/dashboard?tenantId=t&subId=s&mode=explicit&clientId=app&clientSecret=p%26w%2F1".
Proof. reflexivity. Qed.

(** The query string can be read back: the encoding loses nothing. *)
Lemma form_decode_char (c : ascii) (rest : string) :
  Claimed.form_decode (form_char c +:+ rest) = String c (Claimed.form_decode rest).
Proof.
  destruct c as [[] [] [] [] [] [] [] []]; reflexivity.
Qed.

Lemma form_decode_encode (s : string) : Claimed.form_decode (form_encode s) = s.
Proof.
  induction s as [|c s IH]; [reflexivity|].
  cbn [form_encode]. rewrite form_decode_char, IH. reflexivity.
Qed.

Lemma form_encode_inj (s t : string) : form_encode s = form_encode t → s = t.
Proof.
  intros H. rewrite <- (form_decode_encode s), <- (form_decode_encode t), H. reflexivity.
Qed.

(** In mode explicit the URL gives the typed secret away: two pages that
    agree on everything but the secret navigate to different URLs. *)
Lemma dashboard_url_explicit_reveals_secret (p q : Page) :
  f_loginMode p = explicit → f_loginMode q = explicit →
  f_tenantId p = f_tenantId q → f_subId p = f_subId q →
  f_clientId p = f_clientId q →
  dashboard_url p = dashboard_url q → f_clientSecret p = f_clientSecret q.
Proof.
  intros Hp Hq Ht Hs Hc.
  unfold dashboard_url, params_toString, params. rewrite Hp, Hq, Ht, Hs, Hc.
  intros H. apply form_encode_inj.
  repeat (apply String.app_inj in H). exact H.
Qed.

(** *** The saved logins *)

Lemma findIndex_range {A} (f : A → bool) (l : list A) :
  (-1 ≤ findIndex f l)%Z.
Proof.
  induction l as [|x l IH]; simpl; [lia|].
  destruct (f x); [lia|].
  destruct (findIndex f l <? 0)%Z eqn:E; lia.
Qed.

(** [findIndex] found nothing: no element satisfies the test. *)
Lemma findIndex_none {A} (f : A → bool) (l : list A) :
  (findIndex f l < 0)%Z → Forall (λ y, f y = false) l.
Proof.
  induction l as [|x l IH]; simpl; intros H; [constructor|].
  destruct (f x) eqn:Ex; [lia|].
  destruct (findIndex f l <? 0)%Z eqn:E.
  - constructor; [exact Ex | apply IH; lia].
  - pose proof (findIndex_range f l). lia.
Qed.

(** [findIndex] found an index: it is the position of the first element
    that satisfies the test. *)
Lemma findIndex_some {A} (f : A → bool) (l : list A) :
  (0 ≤ findIndex f l)%Z →
  ∃ l1 x l2, l = l1 ++ x :: l2 ∧ f x = true
             ∧ Forall (λ y, f y = false) l1
             ∧ Z.to_nat (findIndex f l) = length l1.
Proof.
  induction l as [|x l IH]; simpl; intros H; [lia|].
  destruct (f x) eqn:Ex.
  - exists [], x, l. repeat split; auto.
  - destruct (findIndex f l <? 0)%Z eqn:E; [lia|].
    destruct IH as (l1 & y & l2 & -> & Hy & Hl1 & Hlen); [lia|].
    exists (x :: l1), y, l2. repeat split; auto.
    simpl. rewrite <- Hlen. lia.
Qed.

Lemma filter_alias_none (a : string) (l : list SavedLogin) :
  Forall (λ y, alias y ≠ a) l → filter (λ y, alias y = a) l = [].
Proof.
  induction 1 as [|y l Hy _ IH]; [reflexivity|].
  rewrite filter_cons_False by exact Hy. exact IH.
Qed.

Lemma Forall_eqb_ne (a : string) (l : list SavedLogin) :
  Forall (λ y, String.eqb (alias y) a = false) l → Forall (λ y, alias y ≠ a) l.
Proof. intros H. eapply Forall_impl; [exact H|]. intros y. apply String.eqb_neq. Qed.

Lemma not_in_aliases (a : string) (l : list SavedLogin) :
  a ∉ alias <$> l → Forall (λ y, alias y ≠ a) l.
Proof.
  intros H. apply Forall_forall. intros y Hy Ha. apply H.
  apply list_elem_of_fmap. exists y. split; [symmetry; exact Ha | exact Hy].
Qed.

(** C9: when the saved aliases are pairwise distinct and the typed alias is
    not blank, the aliases stay pairwise distinct, exactly one entry carries
    the trimmed alias and it holds the values of the form, and the entries
    with another alias are the same, in the same order; when the typed
    alias is blank the saved logins and the browser storage are left as they
    were. *)
Theorem handleConnect_saved_logins (p : Page) :
  NoDup (alias <$> savedLogins p) →
  (Str.trim (f_alias p) ≠ EmptyString →
     NoDup (alias <$> savedLogins (handleConnect p))
     ∧ filter (λ l, alias l = Str.trim (f_alias p)) (savedLogins (handleConnect p))
       = [ {| alias := Str.trim (f_alias p);
              tenantId := f_tenantId p;
              subId := f_subId p;
              mode := f_loginMode p;
              clientId := Some (f_clientId p);
              clientSecret := Some (f_clientSecret p) |} ]
     ∧ filter (λ l, alias l ≠ Str.trim (f_alias p)) (savedLogins (handleConnect p))
       = filter (λ l, alias l ≠ Str.trim (f_alias p)) (savedLogins p))
  ∧ (Str.trim (f_alias p) = EmptyString →
     savedLogins (handleConnect p) = savedLogins p
     ∧ localStorage (handleConnect p) = localStorage p).
Proof.
  intros Hnd. split.
  - intros Hne. simpl.
    destruct (String.eqb_spec (Str.trim (f_alias p)) EmptyString) as [E|_];
      [contradiction|]. simpl.
    unfold updatedLogins. fold (newLogin p).
    set (a := Str.trim (f_alias p)).
    change (alias (newLogin p)) with a.
    destruct (0 <=? findIndex (λ l, String.eqb (alias l) a) (savedLogins p))%Z eqn:E.
    + apply Z.leb_le in E.
      destruct (findIndex_some _ _ E) as (l1 & x & l2 & Hl & Hx & Hl1 & Hlen).
      apply String.eqb_eq in Hx. apply Forall_eqb_ne in Hl1.
      rewrite Hlen, Hl.
      replace (length l1) with (length l1 + 0) by lia.
      rewrite insert_app_r. simpl.
      rewrite Hl, fmap_app, fmap_cons, Hx in Hnd.
      assert (Hl2 : Forall (λ y, alias y ≠ a) l2).
      { apply not_in_aliases. apply NoDup_app in Hnd as (_ & _ & Hnd).
        apply NoDup_cons in Hnd as [Hnd _]. exact Hnd. }
      split; [rewrite fmap_app, fmap_cons; exact Hnd|].
      rewrite !filter_app, !filter_cons.
      rewrite !(filter_alias_none a l1 Hl1), !(filter_alias_none a l2 Hl2).
      split.
      * destruct (decide (alias (newLogin p) = a)) as [_|Hc]; [reflexivity|].
        exfalso. apply Hc. reflexivity.
      * destruct (decide (alias (newLogin p) ≠ a)) as [Hc|_];
          [exfalso; apply Hc; reflexivity|].
        destruct (decide (alias x ≠ a)) as [Hc|_]; [contradiction | reflexivity].
    + apply Z.leb_gt in E.
      pose proof (Forall_eqb_ne a _ (findIndex_none _ _ E)) as Hall.
      split; [|split].
      * rewrite fmap_app. apply NoDup_app. split; [exact Hnd|]. split.
        -- intros y Hy Hin. apply list_elem_of_singleton in Hin. subst y.
           apply list_elem_of_fmap in Hy as (z & Hz & Hzin).
           rewrite Forall_forall in Hall. apply (Hall z Hzin). symmetry. exact Hz.
        -- apply NoDup_singleton.
      * rewrite filter_app, (filter_alias_none a _ Hall). simpl.
        rewrite filter_cons_True by reflexivity. reflexivity.
      * rewrite filter_app. rewrite (filter_cons_False _ (newLogin p) []).
        -- rewrite filter_nil, app_nil_r. reflexivity.
        -- intros Hc. apply Hc. reflexivity.
  - intros He. simpl. rewrite He. simpl. split; reflexivity.
Qed.

Lemma handleConnect_saved_logins_witness :
  NoDup (alias <$> savedLogins (handleConnect page_resave))
  ∧ filter (λ l, alias l ≠ "Production") (savedLogins (handleConnect page_resave)) = [dev].
Proof.
  assert (Hnd : NoDup (alias <$> savedLogins page_resave)).
  { apply (bool_decide_unpack _). vm_compute. exact I. }
  assert (Hne : Str.trim (f_alias page_resave) ≠ EmptyString) by discriminate.
  destruct (proj1 (handleConnect_saved_logins page_resave Hnd) Hne) as (H1 & _ & H3).
  split; [exact H1 | exact H3].
Defined.

Example handleConnect_replaces_in_place :
  savedLogins (handleConnect page_resave)
  = [ {| alias := "Production"; tenantId := "new-tenant"; subId := "new-sub";
         mode := auto; clientId := Some EmptyString; clientSecret := Some EmptyString |};
      dev ].
Proof. reflexivity. Qed.

Example handleConnect_blank_alias :
  savedLogins (handleConnect (page_auto "app" "s3cret")) = []
  ∧ localStorage (handleConnect (page_auto "app" "s3cret")) = ∅.
Proof. split; reflexivity. Qed.

End LoginFacts.

(** * Properties of the plan compiler *)

Module CompilerFacts.
Import Compiler Scenarios.

Lemma elem_of_concat {A} (x : A) (ls : list (list A)) :
  x ∈ concat ls ↔ ∃ l, l ∈ ls ∧ x ∈ l.
Proof.
  rewrite list_elem_of_In, in_concat.
  split; intros (l & Hl & Hx); exists l; split; apply list_elem_of_In; assumption.
Qed.

(** A resource sits in one batch only when no id occurs twice. *)
Lemma batch_unique (batches : list (list string)) :
  NoDup (concat batches) →
  ∀ i j bi bj x,
    batches !! i = Some bi → batches !! j = Some bj → x ∈ bi → x ∈ bj → i = j.
Proof.
  induction batches as [|b bs IH]; intros Hnd i j bi bj x Hi Hj Hxi Hxj.
  - rewrite lookup_nil in Hi. discriminate.
  - simpl in Hnd. apply NoDup_app in Hnd as (_ & Hdisj & Hnd).
    assert (Hin : ∀ k bk, bs !! k = Some bk → x ∈ bk → x ∈ concat bs).
    { intros k bk Hk Hx. apply elem_of_concat. exists bk. split; [|exact Hx].
      eapply list_elem_of_lookup_2; eauto. }
    destruct i as [|i], j as [|j]; simpl in Hi, Hj.
    + reflexivity.
    + injection Hi as <-. exfalso. eapply Hdisj; eauto.
    + injection Hj as <-. exfalso. eapply Hdisj; eauto.
    + f_equal. eapply IH; eauto.
Qed.

Lemma insert_id_perm (x : string) (l : list string) : insert_id x l ≡ₚ x :: l.
Proof.
  induction l as [|y l IH]; simpl; [reflexivity|].
  destruct (String.leb x y); [reflexivity|].
  rewrite IH. apply Permutation_swap.
Qed.

Lemma sort_ids_perm (l : list string) : sort_ids l ≡ₚ l.
Proof.
  induction l as [|x l IH]; simpl; [reflexivity|].
  rewrite insert_id_perm, IH. reflexivity.
Qed.

Lemma elem_of_sort_ids (x : string) (l : list string) : x ∈ sort_ids l ↔ x ∈ l.
Proof. rewrite (sort_ids_perm l). reflexivity. Qed.

Lemma waits_true (edges : list DependencyEdge) (remaining : list string) (r : string) :
  waits edges remaining r = true ↔ ∃ d, mkEdge d r ∈ edges ∧ d ∈ remaining.
Proof.
  unfold waits. rewrite existsb_exists. split.
  - intros ([d r'] & Hin & Hc). apply andb_true_iff in Hc as [Hr Hd]. simpl in *.
    apply String.eqb_eq in Hr. subst r'. apply bool_decide_eq_true in Hd.
    exists d. split; [apply list_elem_of_In; exact Hin | exact Hd].
  - intros (d & Hin & Hd). exists (mkEdge d r). split; [apply list_elem_of_In; exact Hin|].
    simpl. rewrite String.eqb_refl. simpl. apply bool_decide_eq_true. exact Hd.
Qed.

Lemma elem_of_ready (edges : list DependencyEdge) (remaining : list string) (x : string) :
  x ∈ List.filter (λ r, negb (waits edges remaining r)) remaining
  ↔ x ∈ remaining ∧ waits edges remaining x = false.
Proof.
  rewrite !list_elem_of_In, filter_In, negb_true_iff. reflexivity.
Qed.

(** One round of the leveling. *)
Lemma levels_S (fuel : nat) (edges : list DependencyEdge) (remaining : list string) :
  levels (S fuel) edges remaining =
    match List.filter (λ r, negb (waits edges remaining r)) remaining with
    | [] => ([], remaining)
    | ready =>
        (sort_ids ready :: (levels fuel edges (list_difference remaining ready)).1,
         (levels fuel edges (list_difference remaining ready)).2)
    end.
Proof.
  simpl. destruct (List.filter _ remaining) as [|a ready]; [reflexivity|].
  destruct (levels fuel edges _); reflexivity.
Qed.

(** The batches and the unassigned rest hold the remaining resources, each
    once. *)
Lemma levels_partition (edges : list DependencyEdge) (fuel : nat) :
  ∀ remaining batches unassigned,
    levels fuel edges remaining = (batches, unassigned) →
    (∀ x, x ∈ concat batches ++ unassigned ↔ x ∈ remaining)
    ∧ (NoDup remaining → NoDup (concat batches ++ unassigned)).
Proof.
  induction fuel as [|fuel IH]; intros remaining batches unassigned H.
  - simpl in H. injection H as <- <-. simpl. split; [reflexivity | auto].
  - rewrite levels_S in H.
    destruct (List.filter _ remaining) as [|a ready'] eqn:Hready.
    + injection H as <- <-. simpl. split; [reflexivity | auto].
    + assert (Hr : ∀ x, x ∈ a :: ready'
                        ↔ x ∈ remaining ∧ waits edges remaining x = false).
      { intros x. rewrite <- Hready. apply elem_of_ready. }
      assert (Hnr : NoDup remaining → NoDup (a :: ready')).
      { intros Hn. rewrite <- Hready. apply NoDup_ListNoDup, List.NoDup_filter.
        apply NoDup_ListNoDup. exact Hn. }
      destruct (levels fuel edges (list_difference remaining (a :: ready')))
        as [bs un] eqn:Hrec.
      cbv zeta in H. rewrite Hrec in H. cbn [fst snd] in H. injection H as <- <-.
      destruct (IH _ _ _ Hrec) as [Hmem Hnd].
      split.
      * intros x. rewrite concat_cons, <- app_assoc, elem_of_app.
        change (insert_id a (sort_ids ready')) with (sort_ids (a :: ready')).
        rewrite elem_of_sort_ids, Hmem, list_elem_of_difference, Hr.
        destruct (waits edges remaining x); split; intros Hx.
        -- destruct Hx as [[_ [=]]|[? _]]; assumption.
        -- right. split; [assumption|]. intros [_ [=]].
        -- destruct Hx as [[? _]|[? _]]; assumption.
        -- left. split; [assumption | reflexivity].
      * intros Hn. rewrite concat_cons, <- app_assoc. apply NoDup_app.
        change (insert_id a (sort_ids ready')) with (sort_ids (a :: ready')).
        split; [|split].
        -- rewrite (sort_ids_perm (a :: ready')). apply Hnr. exact Hn.
        -- intros x Hx Hx'. apply (proj1 (elem_of_sort_ids _ _)) in Hx.
           apply (proj1 (Hmem _)) in Hx'.
           apply list_elem_of_difference in Hx' as [_ Hx']. exact (Hx' Hx).
        -- apply Hnd. apply NoDup_list_difference. exact Hn.
Qed.

(** What one call of the leveling did: it stopped, out of fuel or with no
    resource ready, or it formed a batch of the ready resources and leveled
    the rest. *)
Lemma levels_inv (edges : list DependencyEdge) (fuel : nat)
    (remaining : list string) (batches : list (list string)) (unassigned : list string) :
  levels fuel edges remaining = (batches, unassigned) →
  (batches = [] ∧ unassigned = remaining
   ∧ (fuel = 0 ∨ ∀ x, x ∈ remaining → waits edges remaining x = true))
  ∨ (∃ fuel' ready bs,
       fuel = S fuel' ∧ ready ≠ []
       ∧ (∀ x, x ∈ ready ↔ x ∈ remaining ∧ waits edges remaining x = false)
       ∧ batches = sort_ids ready :: bs
       ∧ levels fuel' edges (list_difference remaining ready) = (bs, unassigned)).
Proof.
  destruct fuel as [|fuel]; intros H.
  - simpl in H. injection H as <- <-. left. auto.
  - rewrite levels_S in H.
    destruct (List.filter _ remaining) as [|a ready'] eqn:Hready.
    + injection H as <- <-. left. split; [reflexivity|]. split; [reflexivity|].
      right. intros x Hx. destruct (waits edges remaining x) eqn:Hw; [reflexivity|].
      assert (Hin : x ∈ List.filter (λ r, negb (waits edges remaining r)) remaining)
        by (apply elem_of_ready; auto).
      rewrite Hready in Hin. inversion Hin.
    + right. exists fuel, (a :: ready').
      destruct (levels fuel edges (list_difference remaining (a :: ready')))
        as [bs un] eqn:Hrec.
      cbv zeta in H. rewrite Hrec in H. cbn [fst snd] in H. injection H as <- <-.
      exists bs. split; [reflexivity|]. split; [discriminate|].
      split; [intros x; rewrite <- Hready; apply elem_of_ready|].
      split; reflexivity.
Qed.

(** A dependency that is still to be placed lands in an earlier batch. *)
Lemma levels_order (edges : list DependencyEdge) (fuel : nat) :
  ∀ remaining batches unassigned,
    levels fuel edges remaining = (batches, unassigned) →
    ∀ K bk r d, batches !! K = Some bk → r ∈ bk →
      mkEdge d r ∈ edges → d ∈ remaining →
      ∃ J bj, J < K ∧ batches !! J = Some bj ∧ d ∈ bj.
Proof.
  induction fuel as [|fuel IH]; intros remaining batches unassigned H K bk r d HK Hr He Hd;
    destruct (levels_inv _ _ _ _ _ H)
      as [(-> & _ & _)|(fuel' & ready & bs & Hf & _ & Hready & -> & Hrec)];
    try (rewrite lookup_nil in HK; discriminate); try discriminate.
  injection Hf as <-.
  destruct K as [|K]; simpl in HK.
  - injection HK as <-. apply (proj1 (elem_of_sort_ids _ _)) in Hr.
    apply Hready in Hr as [_ Hw].
    assert (Hw' : waits edges remaining r = true) by (apply waits_true; eauto).
    congruence.
  - destruct (decide (d ∈ ready)) as [Hin|Hout].
    + exists 0, (sort_ids ready). split; [lia|]. split; [reflexivity|].
      apply elem_of_sort_ids. exact Hin.
    + destruct (IH _ _ _ Hrec K bk r d HK Hr He) as (J & bj & HJ & Hbj & Hdj).
      { apply list_elem_of_difference. auto. }
      exists (S J), bj. split; [lia|]. split; assumption.
Qed.

(** A resource that waits for nothing is in the first batch. *)
Lemma levels_first (edges : list DependencyEdge) (fuel : nat)
    (remaining : list string) (batches : list (list string)) (r : string) :
  levels fuel edges remaining = (batches, []) →
  r ∈ remaining → waits edges remaining r = false →
  ∃ b, batches !! 0 = Some b ∧ r ∈ b.
Proof.
  intros H Hr Hw.
  destruct (levels_inv _ _ _ _ _ H)
    as [(_ & <- & _)|(fuel' & ready & bs & _ & _ & Hready & -> & _)].
  - inversion Hr.
  - exists (sort_ids ready). split; [reflexivity|].
    apply elem_of_sort_ids, Hready. auto.
Qed.

(** A resource of a later batch has a dependency in the batch just before:
    it could not have been placed any earlier. *)
Lemma levels_greedy (edges : list DependencyEdge) (fuel : nat) :
  ∀ remaining batches unassigned,
    levels fuel edges remaining = (batches, unassigned) →
    ∀ K b r, batches !! S K = Some b → r ∈ b →
      ∃ bk d, batches !! K = Some bk ∧ d ∈ bk ∧ mkEdge d r ∈ edges.
Proof.
  induction fuel as [|fuel IH]; intros remaining batches unassigned H K b r HK Hr;
    destruct (levels_inv _ _ _ _ _ H)
      as [(-> & _ & _)|(fuel' & ready & bs & Hf & _ & Hready & -> & Hrec)];
    try (rewrite lookup_nil in HK; discriminate); try discriminate.
  injection Hf as <-. simpl in HK.
  destruct K as [|K].
  - destruct (levels_inv _ _ _ _ _ Hrec)
      as [(-> & _ & _)|(fuel' & ready2 & bs2 & _ & _ & Hready2 & -> & _)];
      [rewrite lookup_nil in HK; discriminate|].
    simpl in HK. injection HK as <-.
    apply (proj1 (elem_of_sort_ids _ _)) in Hr.
    apply Hready2 in Hr as [Hin Hw2].
    apply list_elem_of_difference in Hin as [Hin Hnot].
    destruct (waits edges remaining r) eqn:Hw.
    + apply waits_true in Hw as (d & He & Hd).
      exists (sort_ids ready), d. split; [reflexivity|]. split; [|exact He].
      apply elem_of_sort_ids.
      destruct (decide (d ∈ ready)) as [Hdr|Hdr]; [exact Hdr|].
      exfalso.
      assert (Hw' : waits edges (list_difference remaining ready) r = true).
      { apply waits_true. exists d. split; [exact He|].
        apply list_elem_of_difference. auto. }
      congruence.
    + exfalso. apply Hnot, Hready. auto.
  - destruct (IH _ _ _ Hrec K b r HK Hr) as (bk & d & Hbk & Hd & He).
    exists bk, d. auto.
Qed.

(** Resources that wait for one another are never assigned: a set of
    remaining resources, each with a dependency inside the set, ends up
    among the unassigned. *)
Lemma levels_stuck (edges : list DependencyEdge) (S : string → Prop) (fuel : nat) :
  ∀ remaining batches unassigned,
    levels fuel edges remaining = (batches, unassigned) →
    (∀ x, S x → x ∈ remaining ∧ ∃ y, S y ∧ mkEdge y x ∈ edges) →
    ∀ x, S x → x ∈ unassigned.
Proof.
  induction fuel as [|fuel IH]; intros remaining batches unassigned H HS x Hx;
    destruct (levels_inv _ _ _ _ _ H)
      as [(_ & -> & _)|(fuel' & ready & bs & Hf & _ & Hready & -> & Hrec)];
    try (apply HS; exact Hx); try discriminate.
  injection Hf as <-.
  apply (IH _ _ _ Hrec); [|exact Hx].
  intros z Hz. destruct (HS z Hz) as (Hzin & y & Hy & He).
  split; [|eauto].
  apply list_elem_of_difference. split; [exact Hzin|].
  intros Hzr. apply Hready in Hzr as [_ Hw].
  assert (Hw' : waits edges remaining z = true).
  { apply waits_true. exists y. split; [exact He|]. apply HS. exact Hy. }
  congruence.
Qed.

Section Compiled.

Variable validateRelocation : list string → string → Validation.
Variable snap : Snapshot.
Variable selection : list string.
Variable target : string.

Lemma compile_inr (batches : list (list string)) :
  compile validateRelocation snap selection target = inr batches →
  levels (length (remove_dups selection)) (dependencies snap) (remove_dups selection)
    = (batches, [])
  ∧ validateRelocation (concat batches) target = Accept
  ∧ ∀ r, r ∈ selection → r ∈ resource_ids snap.
Proof.
  unfold compile.
  destruct (levels _ _ _) as [bs un] eqn:Hl.
  destruct un as [|u un]; [|discriminate].
  destruct (List.find _ _) as [r0|] eqn:Hfind; [discriminate|].
  destruct (validateRelocation (concat bs) target) eqn:Hv; [|discriminate].
  intros [= <-]. split; [reflexivity|]. split; [exact Hv|].
  intros r Hr.
  pose proof (find_none _ _ Hfind r
                (proj1 (list_elem_of_In _ _) (proj2 (elem_of_remove_dups _ _) Hr))) as Hn.
  cbv beta in Hn. apply negb_false_iff, bool_decide_eq_true in Hn. exact Hn.
Qed.

(** What holds of the batches of a successful compilation. *)
Lemma compile_leveling (batches : list (list string)) :
  compile validateRelocation snap selection target = inr batches →
  NoDup (concat batches)
  ∧ (∀ x, x ∈ concat batches ↔ x ∈ selection)
  ∧ (∀ K J bk bj r d,
       batches !! K = Some bk → r ∈ bk → batches !! J = Some bj → d ∈ bj →
       depends_on (dependencies snap) selection r d → J < K)
  ∧ (∀ r, r ∈ selection →
       (∀ d, ¬ depends_on (dependencies snap) selection r d) →
       ∃ b, batches !! 0 = Some b ∧ r ∈ b)
  ∧ (∀ K b r, batches !! S K = Some b → r ∈ b →
       ∃ bk d, batches !! K = Some bk ∧ d ∈ bk
               ∧ depends_on (dependencies snap) selection r d).
Proof.
  intros Hc. destruct (compile_inr batches Hc) as (Hl & _ & _).
  destruct (levels_partition _ _ _ _ _ Hl) as [Hmem Hnd].
  rewrite app_nil_r in Hnd.
  assert (Hmem' : ∀ x, x ∈ concat batches ↔ x ∈ selection).
  { intros x. rewrite <- (elem_of_remove_dups selection x), <- (Hmem x), app_nil_r.
    reflexivity. }
  assert (Hbatch : ∀ K b x, batches !! K = Some b → x ∈ b → x ∈ selection).
  { intros K b x HK Hx. apply Hmem', elem_of_concat. exists b.
    split; [eapply list_elem_of_lookup_2; eauto | exact Hx]. }
  pose proof (Hnd (NoDup_remove_dups selection)) as Hnodup.
  split; [exact Hnodup|]. split; [exact Hmem'|]. split; [|split].
  - intros K J bk bj r d HK Hr HJ Hd (He & Hds & Hrs).
    destruct (levels_order _ _ _ _ _ Hl K bk r d HK Hr He) as (J' & bj' & Hlt & HJ' & Hd').
    { apply elem_of_remove_dups. exact Hds. }
    rewrite (batch_unique batches Hnodup J J' bj bj' d HJ HJ' Hd Hd'). exact Hlt.
  - intros r Hr Hnone.
    apply (levels_first _ _ _ _ r Hl); [apply elem_of_remove_dups; exact Hr|].
    destruct (waits _ _ r) eqn:Hw; [|reflexivity].
    apply waits_true in Hw as (d & He & Hd). exfalso.
    apply (Hnone d). split; [exact He|]. split; [|exact Hr].
    apply (proj1 (elem_of_remove_dups _ _)) in Hd. exact Hd.
  - intros K b r HK Hr.
    destruct (levels_greedy _ _ _ _ _ Hl K b r HK Hr) as (bk & d & Hbk & Hd & He).
    exists bk, d. split; [exact Hbk|]. split; [exact Hd|].
    split; [exact He|]. split; eauto.
Qed.

End Compiled.

(** The batches of a created plan share no resource: what the executor
    relies on. *)
Lemma created_plan_disjoint
    (validateRelocation : list string → string → Validation)
    (st st' : Store) (job : string) (snap : Snapshot)
    (selection : list string) (target : string) (pid : nat) (plan : MigrationPlan) :
  submit_migration validateRelocation st job snap selection target = (st', inr pid) →
  plans st' !! pid = Some plan →
  NoDup (concat (ordered_batches plan)).
Proof.
  unfold submit_migration.
  destruct (compile validateRelocation snap selection target) as [err|batches] eqn:Hc;
    [discriminate|].
  intros [= <- <-]. simpl. rewrite lookup_insert_eq. intros [= <-]. simpl.
  exact (proj1 (compile_leveling validateRelocation snap selection target batches Hc)).
Qed.

(** C5: a plan that is created is VALIDATED and its ordered batches are a
    topological leveling of the dependency graph restricted to the
    selection: every selected resource is in exactly one batch; a resource
    is in a strictly later batch than each resource it depends on, so never
    depends on a resource of a later batch; a resource that depends on
    nothing is in the first batch, and a resource of any later batch has a
    dependency in the batch just before, so no resource could stand
    earlier. *)
Theorem plan_batches_topological
    (validateRelocation : list string → string → Validation)
    (st st' : Store) (job : string) (snap : Snapshot)
    (selection : list string) (target : string) (pid : nat) :
  submit_migration validateRelocation st job snap selection target = (st', inr pid) →
  ∃ plan,
    plans st' !! pid = Some plan
    ∧ plan_status plan = VALIDATED
    ∧ NoDup (concat (ordered_batches plan))
    ∧ (∀ x, x ∈ concat (ordered_batches plan) ↔ x ∈ selection)
    ∧ (∀ K J bk bj r d,
         ordered_batches plan !! K = Some bk → r ∈ bk →
         ordered_batches plan !! J = Some bj → d ∈ bj →
         depends_on (dependencies snap) selection r d → J < K)
    ∧ (∀ r, r ∈ selection →
         (∀ d, ¬ depends_on (dependencies snap) selection r d) →
         ∃ b, ordered_batches plan !! 0 = Some b ∧ r ∈ b)
    ∧ (∀ K b r, ordered_batches plan !! S K = Some b → r ∈ b →
         ∃ bk d, ordered_batches plan !! K = Some bk ∧ d ∈ bk
                 ∧ depends_on (dependencies snap) selection r d).
Proof.
  unfold submit_migration.
  destruct (compile validateRelocation snap selection target) as [err|batches] eqn:Hc;
    [discriminate|].
  intros [= <- <-].
  eexists. split; [apply lookup_insert_eq|]. split; [reflexivity|].
  simpl. exact (compile_leveling validateRelocation snap selection target batches Hc).
Qed.

(** *** Enough fuel: CycleDetected only for a cycle *)

Lemma list_difference_length_le (l k : list string) :
  (length (list_difference l k) ≤ length l)%nat.
Proof.
  induction l as [|x l IH]; simpl; [lia|].
  destruct (decide_rel elem_of x k); simpl; lia.
Qed.

Lemma list_difference_length_lt (l k : list string) (a : string) :
  a ∈ l → a ∈ k → length (list_difference l k) < length l.
Proof.
  induction l as [|x l IH]; intros Hl Hk; [inversion Hl|]. simpl.
  destruct (decide_rel elem_of x k) as [Hx|Hx].
  - pose proof (list_difference_length_le l k). lia.
  - apply elem_of_cons in Hl as [->|Hl]; [contradiction|].
    simpl. specialize (IH Hl Hk). lia.
Qed.

(** With fuel for every resource, the leveling stops only when each
    resource that is left waits for another one that is left. *)
Lemma levels_fuel (edges : list DependencyEdge) (fuel : nat) :
  ∀ remaining batches unassigned,
    (length remaining ≤ fuel)%nat →
    levels fuel edges remaining = (batches, unassigned) →
    ∀ x, x ∈ unassigned → waits edges unassigned x = true.
Proof.
  induction fuel as [|fuel IH]; intros remaining batches unassigned Hlen H x Hx;
    destruct (levels_inv _ _ _ _ _ H)
      as [(_ & -> & Hstop)|(fuel' & ready & bs & Hf & Hne & Hready & -> & Hrec)];
    try discriminate.
  - destruct remaining; [inversion Hx | simpl in Hlen; lia].
  - destruct Hstop as [[=]|Hall]. apply Hall. exact Hx.
  - injection Hf as <-.
    refine (IH _ _ _ _ Hrec x Hx).
    destruct ready as [|a ready]; [contradiction|].
    assert (Ha : a ∈ remaining) by (apply Hready; left).
    pose proof (list_difference_length_lt remaining (a :: ready) a Ha ltac:(left)).
    lia.
Qed.

(** In a finite set of resources in which each depends on another one of
    the set, following the dependencies comes back to a resource already
    seen. *)
Lemma follow_dependencies (dep : relation string) (un : list string) :
  (∀ z, z ∈ un → ∃ y, y ∈ un ∧ dep z y) →
  ∀ n visited x,
    NoDup visited → (∀ z, z ∈ visited → z ∈ un) → x ∈ un → x ∉ visited →
    (∀ z, z ∈ visited → tc dep z x) →
    (length un ≤ n + length visited)%nat →
    ∃ c, tc dep c c.
Proof.
  intros Hpred. induction n as [|n IH]; intros visited x Hnd Hsub Hx Hnew Hpath Hlen.
  - exfalso.
    assert (Hle : (length (x :: visited) ≤ length un)%nat).
    { apply submseteq_length, NoDup_submseteq.
      - constructor; assumption.
      - intros z Hz. apply elem_of_cons in Hz as [->|Hz]; auto. }
    simpl in Hle, Hlen. lia.
  - destruct (Hpred x Hx) as (y & Hy & Hxy).
    destruct (decide (y = x)) as [->|Hne]; [exists x; apply tc_once; exact Hxy|].
    destruct (decide (y ∈ visited)) as [Hin|Hout].
    + exists y. eapply tc_r; [apply Hpath; exact Hin | exact Hxy].
    + apply (IH (x :: visited) y).
      * constructor; assumption.
      * intros z Hz. apply elem_of_cons in Hz as [->|Hz]; auto.
      * exact Hy.
      * intros Hz. apply elem_of_cons in Hz as [->|Hz]; [congruence | contradiction].
      * intros z Hz. apply elem_of_cons in Hz as [->|Hz];
          [apply tc_once; exact Hxy | eapply tc_r; [apply Hpath; exact Hz | exact Hxy]].
      * simpl. lia.
Qed.

(** CycleDetected is raised only when the selection has a dependency
    cycle. *)
Lemma CycleDetected_has_cycle
    (validateRelocation : list string → string → Validation)
    (snap : Snapshot) (selection : list string) (target : string) :
  compile validateRelocation snap selection target = inl CycleDetected →
  has_cycle (dependencies snap) selection.
Proof.
  unfold compile.
  destruct (levels _ _ _) as [bs un] eqn:Hl.
  destruct un as [|u un].
  - destruct (List.find _ _); [discriminate|].
    destruct (validateRelocation _ _); discriminate.
  - intros _.
    pose proof (levels_fuel _ _ _ _ _ (le_n _) Hl) as Hwait.
    destruct (levels_partition _ _ _ _ _ Hl) as [Hmem _].
    assert (Hsel : ∀ z, z ∈ u :: un → z ∈ selection).
    { intros z Hz. apply elem_of_remove_dups, Hmem, elem_of_app. right. exact Hz. }
    apply (follow_dependencies (depends_on (dependencies snap) selection) (u :: un))
      with (n := length (u :: un)) (visited := []) (x := u).
    + intros z Hz. pose proof (Hwait z Hz) as Hw.
      apply waits_true in Hw as (d & He & Hd).
      exists d. split; [exact Hd|]. split; [exact He|].
      split; apply Hsel; assumption.
    + constructor.
    + intros z Hz. inversion Hz.
    + left.
    + intros Hz. inversion Hz.
    + intros z Hz. inversion Hz.
    + simpl. lia.
Qed.

(** A selection of known resources without a cycle, accepted by the
    pre-flight validation, compiles to a plan. *)
Lemma acyclic_compiles
    (validateRelocation : list string → string → Validation)
    (snap : Snapshot) (selection : list string) (target : string) :
  ¬ has_cycle (dependencies snap) selection →
  (∀ r, r ∈ selection → r ∈ resource_ids snap) →
  (∀ ids, validateRelocation ids target = Accept) →
  ∃ batches, compile validateRelocation snap selection target = inr batches.
Proof.
  intros Hacyclic Hknown Hacc.
  destruct (compile validateRelocation snap selection target) as [err|batches] eqn:Hc;
    [|eauto].
  exfalso. destruct err as [|r|detail].
  - apply Hacyclic. eapply CycleDetected_has_cycle; eauto.
  - unfold compile in Hc.
    destruct (levels _ _ _) as [bs un]. destruct un; [|discriminate].
    destruct (List.find _ _) as [r0|] eqn:Hfind.
    + apply find_some in Hfind as [Hin Hr0]. cbv beta in Hr0.
      apply negb_true_iff, bool_decide_eq_false in Hr0. apply Hr0, Hknown.
      apply (proj1 (elem_of_remove_dups _ _)), list_elem_of_In. exact Hin.
    + destruct (validateRelocation _ _); discriminate.
  - unfold compile in Hc.
    destruct (levels _ _ _) as [bs un]. destruct un; [|discriminate].
    destruct (List.find _ _); [discriminate|].
    rewrite Hacc in Hc. discriminate.
Qed.

(** *** Order inside a batch *)

Lemma insert_id_sorted (x : string) (l : list string) :
  Sorted (λ a b, String.leb a b = true) l →
  Sorted (λ a b, String.leb a b = true) (insert_id x l).
Proof.
  induction 1 as [|y l Hs IH Hhd]; simpl; [repeat constructor|].
  destruct (String.leb x y) eqn:Hxy.
  - constructor; [constructor; assumption | constructor; exact Hxy].
  - constructor; [exact IH|].
    assert (Hyx : String.leb y x = true).
    { destruct (String.leb_total x y) as [H|H]; [congruence | exact H]. }
    destruct l as [|z l]; simpl; [constructor; exact Hyx|].
    destruct (String.leb x z); constructor; [exact Hyx|].
    inversion Hhd; assumption.
Qed.

(** Every batch lists its resources in the lexical order of their ids. *)
Lemma sort_ids_sorted (l : list string) :
  Sorted (λ a b, String.leb a b = true) (sort_ids l).
Proof.
  induction l as [|x l IH]; simpl; [constructor|]. apply insert_id_sorted, IH.
Qed.

Example scenario_A_batches :
  compile accept_all scenario_A ["vm"; "net"; "disk"] "sub-2" = inr [["disk"; "net"]; ["vm"]].
Proof. vm_compute. reflexivity. Qed.

(** Scenario C of the design document: the validation collaborator
    rejects, the detail is kept, and no plan is stored. *)
Example scenario_C_rejected :
  submit_migration (λ _ _, Reject "quota exceeded") empty_store "job-1" scenario_A
    ["vm"; "net"; "disk"] "sub-2"
  = (empty_store, inl (ValidationRejected "quota exceeded")).
Proof. vm_compute. reflexivity. Qed.

Example unknown_resource_refused :
  compile accept_all scenario_A ["vm"; "lb"] "sub-2" = inl (UnknownResource "lb").
Proof. vm_compute. reflexivity. Qed.

(** A selection that leaves the disk out: the graph is restricted to the
    selection, so the machine waits for the network only. *)
Example restricted_selection :
  compile accept_all scenario_A ["vm"; "net"] "sub-2" = inr [["net"]; ["vm"]].
Proof. vm_compute. reflexivity. Qed.

Lemma plan_batches_topological_witness :
  ∃ plan,
    plans (submit_migration accept_all empty_store "job-1" scenario_A
             ["vm"; "net"; "disk"] "sub-2").1 !! 0 = Some plan
    ∧ NoDup (concat (ordered_batches plan)).
Proof.
  destruct (plan_batches_topological accept_all empty_store
              (submit_migration accept_all empty_store "job-1" scenario_A
                 ["vm"; "net"; "disk"] "sub-2").1
              "job-1" scenario_A ["vm"; "net"; "disk"] "sub-2" 0)
    as (plan & Hp & _ & Hnd & _).
  - vm_compute. reflexivity.
  - exists plan. split; [exact Hp | exact Hnd].
Defined.

(** C6: a selection with a dependency cycle in the restricted graph makes
    compilation fail with CycleDetected, whatever the validation
    collaborator would answer, and the plan store is left as it was: no
    plan is created, not even for the acyclic part. *)
Theorem cycle_yields_CycleDetected
    (validateRelocation : list string → string → Validation)
    (st : Store) (job : string) (snap : Snapshot)
    (selection : list string) (target : string) :
  has_cycle (dependencies snap) selection →
  compile validateRelocation snap selection target = inl CycleDetected
  ∧ submit_migration validateRelocation st job snap selection target
    = (st, inl CycleDetected).
Proof.
  intros [r Hr].
  assert (Hc : compile validateRelocation snap selection target = inl CycleDetected).
  { unfold compile.
    destruct (levels _ _ _) as [bs un] eqn:Hl.
    set (dep := depends_on (dependencies snap) selection) in *.
    assert (Hin : r ∈ un).
    { apply (levels_stuck _ (λ x, tc dep r x ∧ tc dep x r) _ _ _ _ Hl); [|auto].
      intros x [Hrx Hxr].
      assert (Hstep : ∃ y, dep x y ∧ (y = r ∨ tc dep y r)).
      { inversion Hxr as [? ? H1|? y ? H1 H2]; subst; eauto. }
      destruct Hstep as (y & Hxy & Hy).
      pose proof Hxy as (He & Hys & Hxs).
      split; [apply elem_of_remove_dups; exact Hxs|].
      exists y. split; [|exact He].
      destruct Hy as [->|Hy].
      - split; exact Hr.
      - split; [eapply tc_r; eauto | exact Hy]. }
    destruct un as [|u un]; [inversion Hin | reflexivity]. }
  split; [exact Hc|]. unfold submit_migration. rewrite Hc. reflexivity.
Qed.

Lemma contrived_has_cycle : has_cycle (dependencies contrived) ["a"; "b"; "c"].
Proof.
  exists "a". eapply tc_l; [|apply tc_once].
  - split; [|split]; repeat constructor.
  - split; [|split]; repeat constructor.
Qed.

Lemma cycle_yields_CycleDetected_witness :
  submit_migration accept_all empty_store "job-1" contrived ["a"; "b"; "c"] "sub-2"
  = (empty_store, inl CycleDetected).
Proof.
  exact (proj2 (cycle_yields_CycleDetected accept_all empty_store "job-1" contrived
                  ["a"; "b"; "c"] "sub-2" contrived_has_cycle)).
Defined.

End CompilerFacts.

(** * Properties of the executor *)

Module ExecutorFacts.
Import Executor Scenarios.

Lemma submit_all_other (b : list string) (lg : gmap string Entry) (r : string) :
  r ∉ b → submit_all b lg !! r = lg !! r.
Proof.
  induction b as [|x b IH]; intros Hr; simpl; [reflexivity|].
  apply not_elem_of_cons in Hr as [Hne Hr].
  rewrite lookup_insert_ne by congruence. apply IH. exact Hr.
Qed.

Lemma submit_all_member (b : list string) (lg : gmap string Entry) (r : string) :
  r ∈ b → submit_all b lg !! r = Some Submitted.
Proof.
  induction b as [|x b IH]; intros Hr; simpl; [inversion Hr|].
  destruct (decide (x = r)) as [->|Hne]; [apply lookup_insert_eq|].
  rewrite lookup_insert_ne by exact Hne. apply IH.
  apply elem_of_cons in Hr as [->|Hr]; [contradiction | exact Hr].
Qed.

Section Plan.

Variable batches : list (list string).
Hypothesis batches_disjoint : NoDup (concat batches).

Lemma other_batch (i j : nat) (bi bj : list string) (r : string) :
  batches !! i = Some bi → batches !! j = Some bj → i ≠ j → r ∈ bi → r ∉ bj.
Proof.
  intros Hi Hj Hne Hri Hrj. apply Hne.
  exact (CompilerFacts.batch_unique batches batches_disjoint i j bi bj r Hi Hj Hri Hrj).
Qed.

Lemma Inv_initial : Inv batches initial.
Proof.
  split; simpl; intros; try apply lookup_empty.
  match goal with H : _ < 0 |- _ => inversion H end.
Qed.

Lemma Inv_step (st st' : State) :
  Inv batches st → step batches st st' → Inv batches st'.
Proof.
  intros [I1 I2 I3] Hstep.
  destruct Hstep as [st b Hrun Hfl Hb | st b r o Hfl Hst Hb Hr Hsub
                    | st b Hfl Hst Hb Hall | st b r o Hfl Hst Hb Hall Hr Hlog Ho
                    | st Hrun Hfl Hb | st Hrun Hfl];
    split; simpl; intros.
  - rewrite submit_all_other; [eapply I1; eauto|].
    eapply other_batch; eauto. lia.
  - rewrite submit_all_other; [eapply I2; eauto|].
    eapply other_batch; eauto. lia.
  - discriminate.
  - rewrite lookup_insert_ne; [eapply I1; eauto|].
    intros ->. eapply (other_batch (current st) J); eauto. lia.
  - rewrite lookup_insert_ne; [eapply I2; eauto|].
    intros ->. eapply (other_batch (current st) K); eauto. lia.
  - discriminate.
  - eapply I1; [|eauto|eauto]. lia.
  - destruct (decide (K = current st)) as [->|Hne].
    + match goal with
      | H1 : batches !! current st = Some ?b1, H2 : batches !! current st = Some ?b2 |- _ =>
          rewrite H1 in H2; injection H2 as <-
      end.
      apply Hall. assumption.
    + eapply I2; [|eauto|eauto]. lia.
  - eapply I1; [|eauto|eauto]. lia.
  - eapply I1; eauto.
  - eapply I2; eauto.
  - match goal with H : runnable _ |- _ => destruct H; discriminate end.
  - eapply I1; eauto.
  - eapply I2; eauto.
  - match goal with H : runnable _ |- _ => destruct H; discriminate end.
  - eapply I1; eauto.
  - eapply I2; eauto.
  - match goal with H : runnable _ |- _ => destruct H; discriminate end.
Qed.

Lemma Inv_steps (st st' : State) :
  Inv batches st → rtc (step batches) st st' → Inv batches st'.
Proof. intros HI Hs. induction Hs; eauto using Inv_step. Qed.

Lemma Inv_reachable (st : State) : reachable batches st → Inv batches st.
Proof. apply Inv_steps, Inv_initial. Qed.

(** A resolved entry is never written again. *)
Lemma step_keeps_resolved (st st' : State) (r : string) (o : MoveOutcome) :
  Inv batches st → step batches st st' →
  log st !! r = Some (Resolved o) → log st' !! r = Some (Resolved o).
Proof.
  intros [I1 I2 I3] Hstep Hlog.
  destruct Hstep as [st b Hrun Hfl Hb | st b r0 o0 Hfl Hst Hb Hr Hsub
                    | st b Hfl Hst Hb Hall | st b r0 o0 Hfl Hst Hb Hall Hr Hl Ho
                    | st Hrun Hfl Hb | st Hrun Hfl]; simpl; try exact Hlog.
  - rewrite submit_all_other; [exact Hlog|].
    intros Hin. rewrite (I3 Hfl Hrun b r Hb Hin) in Hlog. discriminate.
  - rewrite lookup_insert_ne; [exact Hlog|]. intros ->. congruence.
Qed.

Lemma steps_keep_resolved (st st' : State) (r : string) (o : MoveOutcome) :
  Inv batches st → rtc (step batches) st st' →
  log st !! r = Some (Resolved o) → log st' !! r = Some (Resolved o).
Proof.
  intros HI Hs. induction Hs as [|x y z Hxy _ IH]; [auto|].
  intros Hl. apply IH; [eapply Inv_step; eauto | eapply step_keeps_resolved; eauto].
Qed.

Lemma entry_resolved (st : State) (r : string) (o : MoveOutcome) :
  entry st r = Resolved o → log st !! r = Some (Resolved o).
Proof.
  unfold entry. destruct (log st !! r) as [e|]; simpl; [congruence | discriminate].
Qed.

End Plan.

(** C7: in an execution of a plan (whose batches share no resource, as
    those of every compiled plan), once a resource of batch K is recorded
    FAILED, every resource of every later batch is not attempted, in that
    state and in every state the execution goes through afterwards. *)
Theorem failure_blocks_later_batches
    (batches : list (list string)) (st st' : State)
    (K : nat) (bK : list string) (r : string) :
  NoDup (concat batches) →
  reachable batches st →
  batches !! K = Some bK → r ∈ bK →
  entry st r = Resolved FAILED →
  rtc (step batches) st st' →
  ∀ J bJ r', K < J → batches !! J = Some bJ → r' ∈ bJ →
    entry st' r' = NotAttempted.
Proof.
  intros Hnd Hreach HK Hr Hfailed Hlater J bJ r' HJ HbJ Hr'.
  pose proof (Inv_reachable batches Hnd st Hreach) as HI.
  pose proof (Inv_steps batches Hnd st st' HI Hlater) as HI'.
  apply entry_resolved in Hfailed.
  pose proof (steps_keep_resolved batches Hnd st st' r FAILED HI Hlater Hfailed) as Hf'.
  assert (Hcur : (current st' ≤ K)%nat).
  { destruct (decide (K < current st')) as [Hlt|]; [|lia].
    rewrite (earlier_moved batches st' HI' K bK r Hlt HK Hr) in Hf'. discriminate. }
  unfold entry.
  rewrite (later_untouched batches st' HI' J bJ r' ltac:(lia) HbJ Hr'). reflexivity.
Qed.

(** *** The driver follows the transitions *)

Lemma resolve_all_other (poll : string → MoveOutcome) (l : list string) :
  ∀ (m : gmap string Entry) (r : string),
    r ∉ l → resolve_all poll l m !! r = m !! r.
Proof.
  induction l as [|x l IH]; intros m r Hr; [reflexivity|].
  apply not_elem_of_cons in Hr as [Hne Hr]. unfold resolve_all in *. simpl.
  rewrite IH by exact Hr. apply lookup_insert_ne. congruence.
Qed.

Lemma resolve_all_member (poll : string → MoveOutcome) (l : list string) :
  ∀ (m : gmap string Entry) (r : string),
    r ∈ l → resolve_all poll l m !! r = Some (Resolved (poll r)).
Proof.
  induction l as [|x l IH]; intros m r Hr; [inversion Hr|].
  change (resolve_all poll (x :: l) m)
    with (resolve_all poll l (<[x := Resolved (poll x)]> m)).
  destruct (decide (r ∈ l)) as [Hin|Hout]; [apply IH; exact Hin|].
  apply elem_of_cons in Hr as [->|Hr]; [|contradiction].
  rewrite resolve_all_other by exact Hout. apply lookup_insert_eq.
Qed.

Lemma forallb_false_witness {A} (f : A → bool) (l : list A) :
  forallb f l = false → ∃ x, x ∈ l ∧ f x = false.
Proof.
  induction l as [|x l IH]; simpl; [discriminate|].
  destruct (f x) eqn:Hx; simpl.
  - intros H. destruct (IH H) as (y & Hy & Hfy). exists y. split; [right|]; assumption.
  - intros _. exists x. split; [left | exact Hx].
Qed.

Section Driver.

Variable poll : string → MoveOutcome.
Variable batches : list (list string).

(** The moves of the batch in flight resolve one by one. *)
Lemma resolve_steps (k : nat) (b : list string) :
  batches !! k = Some b →
  ∀ todo m,
    NoDup todo → (∀ r, r ∈ todo → r ∈ b ∧ m !! r = Some Submitted) →
    rtc (step batches)
      {| status := Compiler.EXECUTING; current := k; in_flight := true; log := m |}
      {| status := Compiler.EXECUTING; current := k; in_flight := true;
         log := resolve_all poll todo m |}.
Proof.
  intros Hb. induction todo as [|r todo IH]; intros m Hnd Hsub; [apply rtc_refl|].
  apply NoDup_cons in Hnd as [Hr Hnd].
  destruct (Hsub r ltac:(left)) as [Hrb Hm].
  eapply rtc_l.
  - exact (step_resolve batches
             {| status := Compiler.EXECUTING; current := k; in_flight := true; log := m |}
             b r (poll r) eq_refl eq_refl Hb Hrb Hm).
  - apply IH; [exact Hnd|].
    intros r' Hr'. destruct (Hsub r' ltac:(right; exact Hr')) as [Hb' Hm'].
    split; [exact Hb'|]. simpl. rewrite lookup_insert_ne; [exact Hm'|].
    intros ->. contradiction.
Qed.

(** From an idle state in front of the batches that are left, the
    transitions lead to the state the driver computes. *)
Lemma execute_from_steps :
  ∀ todo done lg s,
    batches = done ++ todo → NoDup (concat todo) → runnable s →
    rtc (step batches)
      {| status := s; current := length done; in_flight := false; log := lg |}
      (execute_from poll todo (length done) lg).
Proof.
  induction todo as [|b rest IH]; intros done lg s Hsplit Hnd Hrun.
  - apply rtc_once.
    refine (step_complete batches
              {| status := s; current := length done; in_flight := false; log := lg |}
              Hrun eq_refl _).
    simpl. apply lookup_ge_None. rewrite Hsplit, app_nil_r. lia.
  - assert (Hb : batches !! length done = Some b)
      by (rewrite Hsplit; apply list_lookup_middle; reflexivity).
    simpl in Hnd. apply NoDup_app in Hnd as (Hndb & _ & Hndrest).
    eapply rtc_l.
    { exact (step_submit batches
               {| status := s; current := length done; in_flight := false; log := lg |}
               b Hrun eq_refl Hb). }
    eapply rtc_trans.
    { apply (resolve_steps (length done) b Hb b (submit_all b lg) Hndb).
      intros r Hr. split; [exact Hr | apply submit_all_member; exact Hr]. }
    simpl. destruct (forallb (λ r, is_moved (poll r)) b) eqn:Hall.
    + eapply rtc_l.
      * refine (step_advance batches
                  {| status := Compiler.EXECUTING; current := length done;
                     in_flight := true;
                     log := resolve_all poll b (submit_all b lg) |}
                  b eq_refl eq_refl Hb _).
        intros r Hr. simpl. rewrite resolve_all_member by exact Hr.
        rewrite forallb_forall in Hall.
        specialize (Hall r (proj1 (list_elem_of_In _ _) Hr)).
        destruct (poll r); [reflexivity | discriminate | discriminate].
      * simpl.
        replace (S (length done)) with (length (done ++ [b]))
          by (rewrite length_app; simpl; lia).
        apply IH; [rewrite <- app_assoc; exact Hsplit | exact Hndrest | right; reflexivity].
    + apply rtc_once.
      destruct (forallb_false_witness _ _ Hall) as (r & Hr & Hpoll).
      refine (step_block batches
                {| status := Compiler.EXECUTING; current := length done;
                   in_flight := true;
                   log := resolve_all poll b (submit_all b lg) |}
                b r (poll r) eq_refl eq_refl Hb _ Hr _ _).
      * intros r' Hr'. exists (poll r'). simpl. apply resolve_all_member. exact Hr'.
      * simpl. apply resolve_all_member. exact Hr.
      * intros Hm. rewrite Hm in Hpoll. discriminate.
Qed.

(** The state the driver ends in is a state of an execution. *)
Lemma execute_reachable : NoDup (concat batches) → reachable batches (execute poll batches).
Proof.
  intros Hnd.
  exact (execute_from_steps batches [] ∅ Compiler.VALIDATED eq_refl Hnd (or_introl eq_refl)).
Qed.

End Driver.

Lemma two_batches_disjoint : NoDup (concat two_batches).
Proof. apply (bool_decide_unpack _). vm_compute. exact I. Qed.

Example execute_net_fails :
  status (execute net_fails two_batches) = Compiler.PARTIALLY_FAILED
  ∧ entry (execute net_fails two_batches) "disk" = Resolved MOVED
  ∧ entry (execute net_fails two_batches) "net" = Resolved FAILED
  ∧ entry (execute net_fails two_batches) "vm" = NotAttempted.
Proof. repeat split; vm_compute; reflexivity. Qed.

Example execute_all_moved :
  status (execute (λ _, MOVED) two_batches) = Compiler.COMPLETED
  ∧ entry (execute (λ _, MOVED) two_batches) "vm" = Resolved MOVED.
Proof. repeat split; vm_compute; reflexivity. Qed.

Lemma failure_blocks_later_batches_witness :
  entry (execute net_fails two_batches) "vm" = NotAttempted.
Proof.
  apply (failure_blocks_later_batches two_batches
           (execute net_fails two_batches) (execute net_fails two_batches)
           0 ["disk"; "net"] "net"
           two_batches_disjoint
           (execute_reachable net_fails two_batches two_batches_disjoint)
           eq_refl ltac:(repeat constructor) eq_refl
           (rtc_refl _ _) 1 ["vm"] "vm"
           ltac:(lia) eq_refl ltac:(repeat constructor)).
Defined.

End ExecutorFacts.

(** * Further properties of the login page *)

Module LoginActionsFacts.
Import LoginPage LoginActions.

Lemma filter_negb_eqb (a : string) (l : list SavedLogin) :
  List.filter (λ x, negb (String.eqb (alias x) a)) l = filter (λ x, alias x ≠ a) l.
Proof.
  induction l as [|x l IH]; [reflexivity|]. simpl. rewrite filter_cons, IH.
  destruct (String.eqb_spec (alias x) a) as [E|E]; simpl;
    destruct (decide (alias x ≠ a)); try reflexivity; contradiction.
Qed.

Lemma savedLogins_deleteLogin (p : Page) (a : string) :
  savedLogins (deleteLogin p a) = filter (λ x, alias x ≠ a) (savedLogins p).
Proof. apply filter_negb_eqb. Qed.

Lemma filter_all {A} (P : A → Prop) `{∀ x, Decision (P x)} (l : list A) :
  Forall P l → filter P l = l.
Proof.
  induction 1 as [|x l Hx _ IH]; [reflexivity|].
  rewrite filter_cons_True by exact Hx. rewrite IH. reflexivity.
Qed.

Lemma filter_filter_comm {A} (P Q : A → Prop)
    `{∀ x, Decision (P x)} `{∀ x, Decision (Q x)} (l : list A) :
  filter P (filter Q l) = filter Q (filter P l).
Proof.
  induction l as [|x l IH]; [reflexivity|].
  rewrite !(filter_cons _ x l).
  destruct (decide (P x)), (decide (Q x)); rewrite ?filter_cons; 
    repeat case_decide; try contradiction; rewrite IH; reflexivity.
Qed.

(** Deleting a saved login: no entry with the alias remains; for every
    other alias the entries stay as they were, in their order; deleting an
    alias that is not saved changes nothing; and when the aliases are
    pairwise distinct, deleting a saved alias takes exactly one entry away
    and leaves the aliases distinct. *)
Theorem deleteLogin_removes_alias (p : Page) (a : string) :
  (∀ l, l ∈ savedLogins (deleteLogin p a) → alias l ≠ a)
  ∧ (∀ b, b ≠ a →
       filter (λ l, alias l = b) (savedLogins (deleteLogin p a))
       = filter (λ l, alias l = b) (savedLogins p))
  ∧ (a ∉ alias <$> savedLogins p → savedLogins (deleteLogin p a) = savedLogins p)
  ∧ (NoDup (alias <$> savedLogins p) →
       NoDup (alias <$> savedLogins (deleteLogin p a))
       ∧ (a ∈ alias <$> savedLogins p →
            S (length (savedLogins (deleteLogin p a))) = length (savedLogins p))).
Proof.
  rewrite savedLogins_deleteLogin. split; [|split; [|split]].
  - intros l Hl. apply list_elem_of_filter in Hl as [Hl _]. exact Hl.
  - intros b Hb. rewrite filter_filter_comm. apply filter_all.
    apply Forall_forall. intros x Hx. apply list_elem_of_filter in Hx as [Hx _].
    congruence.
  - intros Hn. apply filter_all, LoginFacts.not_in_aliases. exact Hn.
  - intros Hnd. split.
    + eapply sublist_NoDup; [exact Hnd|]. apply fmap_sublist, sublist_filter.
    + intros Ha. apply list_elem_of_fmap in Ha as (x & -> & Hx).
      apply list_elem_of_split in Hx as (l1 & l2 & Hl). rewrite Hl in Hnd |- *.
      rewrite fmap_app, fmap_cons in Hnd.
      apply NoDup_app in Hnd as (_ & Hl1 & Hnd). apply NoDup_cons in Hnd as [Hl2 _].
      rewrite filter_app, filter_cons_False by (intros Hc; apply Hc; reflexivity).
      rewrite !filter_all.
      * rewrite !length_app. simpl. lia.
      * apply LoginFacts.not_in_aliases. exact Hl2.
      * apply LoginFacts.not_in_aliases. intros Hin. apply (Hl1 _ Hin). left.
Qed.

(** What [handleConnect] hands to [setSavedLogins], whatever the saved list
    holds: the first entry with the alias is replaced, or the new entry is
    put last. *)
Lemma updatedLogins_cases (p : Page) :
  (∃ l1 x l2, savedLogins p = l1 ++ x :: l2
              ∧ alias x = Str.trim (f_alias p)
              ∧ Forall (λ y, alias y ≠ Str.trim (f_alias p)) l1
              ∧ updatedLogins p = l1 ++ newLogin p :: l2)
  ∨ (Forall (λ y, alias y ≠ Str.trim (f_alias p)) (savedLogins p)
     ∧ updatedLogins p = savedLogins p ++ [newLogin p]).
Proof.
  unfold updatedLogins. change (alias (newLogin p)) with (Str.trim (f_alias p)).
  set (a := Str.trim (f_alias p)).
  destruct (0 <=? findIndex (λ l, String.eqb (alias l) a) (savedLogins p))%Z eqn:E.
  - left. apply Z.leb_le in E.
    destruct (LoginFacts.findIndex_some _ _ E) as (l1 & x & l2 & Hl & Hx & Hl1 & Hlen).
    exists l1, x, l2. split; [exact Hl|]. split; [apply String.eqb_eq; exact Hx|].
    split; [apply LoginFacts.Forall_eqb_ne; exact Hl1|].
    rewrite Hlen, Hl. replace (length l1) with (length l1 + 0) by lia.
    rewrite insert_app_r. reflexivity.
  - right. apply Z.leb_gt in E. split; [|reflexivity].
    apply LoginFacts.Forall_eqb_ne, LoginFacts.findIndex_none. exact E.
Qed.

Lemma savedLogins_handleConnect (p : Page) :
  Str.trim (f_alias p) ≠ EmptyString →
  savedLogins (handleConnect p) = updatedLogins p.
Proof.
  intros Hne. simpl.
  destruct (String.eqb_spec (Str.trim (f_alias p)) EmptyString); [contradiction|].
  reflexivity.
Qed.

Lemma updatedLogins_filter_other (p : Page) :
  filter (λ l, alias l ≠ Str.trim (f_alias p)) (updatedLogins p)
  = filter (λ l, alias l ≠ Str.trim (f_alias p)) (savedLogins p).
Proof.
  assert (Hnew : ¬ alias (newLogin p) ≠ Str.trim (f_alias p))
    by (intros Hc; apply Hc; reflexivity).
  destruct (updatedLogins_cases p)
    as [(l1 & x & l2 & Hl & Hx & Hl1 & ->)|(Hall & ->)].
  - rewrite Hl, !filter_app, !filter_cons.
    destruct (decide (alias (newLogin p) ≠ Str.trim (f_alias p))); [contradiction|].
    destruct (decide (alias x ≠ Str.trim (f_alias p))); [contradiction|].
    reflexivity.
  - rewrite filter_app, (filter_cons_False _ (newLogin p) []) by exact Hnew.
    rewrite filter_nil, app_nil_r. reflexivity.
Qed.

(** Saving under an alias that is not blank, whatever the saved list holds
    (also one with repeated aliases): the entry of the form is in the list;
    the entries with another alias are the same, in the same order; and the
    list keeps its length when the alias was saved before and grows by one
    when it was not. *)
Theorem handleConnect_keeps_other_entries (p : Page) :
  Str.trim (f_alias p) ≠ EmptyString →
  newLogin p ∈ savedLogins (handleConnect p)
  ∧ filter (λ l, alias l ≠ Str.trim (f_alias p)) (savedLogins (handleConnect p))
    = filter (λ l, alias l ≠ Str.trim (f_alias p)) (savedLogins p)
  ∧ (Str.trim (f_alias p) ∈ alias <$> savedLogins p →
       length (savedLogins (handleConnect p)) = length (savedLogins p))
  ∧ (Str.trim (f_alias p) ∉ alias <$> savedLogins p →
       savedLogins (handleConnect p) = savedLogins p ++ [newLogin p]).
Proof.
  intros Hne. rewrite (savedLogins_handleConnect p Hne).
  split; [|split; [apply updatedLogins_filter_other|]].
  { destruct (updatedLogins_cases p)
      as [(l1 & x & l2 & Hl & Hx & Hl1 & ->)|(Hall & ->)];
      apply elem_of_app; right; left. }
  destruct (updatedLogins_cases p)
    as [(l1 & x & l2 & Hl & Hx & Hl1 & ->)|(Hall & ->)].
  - rewrite Hl. split.
    + intros _. rewrite !length_app. reflexivity.
    + intros Hn. exfalso. apply Hn. rewrite fmap_app, fmap_cons, Hx.
      apply elem_of_app. right. left.
  - split.
    + intros Hin. exfalso. apply list_elem_of_fmap in Hin as (y & Hy & Hyin).
      rewrite Forall_forall in Hall. apply (Hall y Hyin). symmetry. exact Hy.
    + intros _. reflexivity.
Qed.

Lemma handleConnect_keeps_other_entries_witness :
  length (savedLogins (handleConnect Scenarios.page_resave)) = 2.
Proof.
  refine (proj1 (proj2 (proj2 (handleConnect_keeps_other_entries Scenarios.page_resave _))) _).
  - discriminate.
  - apply (bool_decide_unpack _). vm_compute. exact I.
Defined.

(** Saving under an alias and then deleting that alias leaves what deleting
    it from the list before the save would have left. *)
Theorem deleteLogin_after_handleConnect (p : Page) :
  Str.trim (f_alias p) ≠ EmptyString →
  savedLogins (deleteLogin (handleConnect p) (Str.trim (f_alias p)))
  = savedLogins (deleteLogin p (Str.trim (f_alias p))).
Proof.
  intros Hne. rewrite !savedLogins_deleteLogin, (savedLogins_handleConnect p Hne).
  apply updatedLogins_filter_other.
Qed.

Lemma deleteLogin_after_handleConnect_witness :
  savedLogins (deleteLogin (handleConnect Scenarios.page_resave) "Production")
  = [Scenarios.dev].
Proof.
  exact (deleteLogin_after_handleConnect Scenarios.page_resave ltac:(discriminate)).
Defined.

(** *** The trimmed alias *)

Lemma existsb_either {A} (f g : A → bool) (l : list A) :
  existsb (λ x, f x || g x) l = existsb f l || existsb g l.
Proof.
  induction l as [|x l IH]; [reflexivity|]. simpl. rewrite IH.
  destruct (f x), (g x), (existsb f l), (existsb g l); reflexivity.
Qed.

Lemma prefix_of_app (w a t : string) :
  String.prefix w a = true → String.prefix w (a +:+ t) = true.
Proof.
  revert a. induction w as [|c w IH]; intros a H; [destruct (a +:+ t); reflexivity|].
  destruct a as [|d a]; [discriminate|].
  change (String d a +:+ t) with (String d (a +:+ t)). simpl in *.
  destruct (ascii_dec c d); [|discriminate]. apply IH, H.
Qed.

Lemma prefix_cons_inv (a : ascii) (w s : string) :
  String.prefix (String a w) s = true → ∃ r, s = String a r ∧ String.prefix w r = true.
Proof.
  destruct s as [|b s]; [discriminate|]. cbn [String.prefix].
  destruct (ascii_dec a b) as [<-|]; [eauto | discriminate].
Qed.

Lemma prefix_self_app (w r : string) : String.prefix w (w +:+ r) = true.
Proof.
  induction w as [|c w IH]; [destruct r; reflexivity|].
  change (String c w +:+ r) with (String c (w +:+ r)). simpl.
  destruct (ascii_dec c c); [exact IH | contradiction].
Qed.

(** What follows the white-space character at the front of [s], if there
    is one. *)
Definition leading (s : string) : option string :=
  match s with
  | EmptyString => None
  | String c1 r1 =>
      if Str.is_space (String c1 EmptyString) then Some r1
      else
        match r1 with
        | EmptyString => None
        | String c2 r2 =>
            if Str.is_space (String c1 (String c2 EmptyString)) then Some r2
            else
              match r2 with
              | EmptyString => None
              | String c3 r3 =>
                  if Str.is_space (String c1 (String c2 (String c3 EmptyString)))
                  then Some r3
                  else None
              end
        end
  end.

Lemma trimStart_leading (s : string) :
  Str.trimStart s = match leading s with Some r => Str.trimStart r | None => s end.
Proof.
  destruct s as [|c1 r1]; [reflexivity|].
  change (Str.trimStart (String c1 r1))
    with (if Str.is_space (String c1 EmptyString) then Str.trimStart r1
          else
            match r1 with
            | EmptyString => String c1 r1
            | String c2 r2 =>
                if Str.is_space (String c1 (String c2 EmptyString)) then Str.trimStart r2
                else
                  match r2 with
                  | EmptyString => String c1 r1
                  | String c3 r3 =>
                      if Str.is_space (String c1 (String c2 (String c3 EmptyString)))
                      then Str.trimStart r3
                      else String c1 r1
                  end
            end).
  unfold leading.
  destruct (Str.is_space (String c1 EmptyString)); [reflexivity|].
  destruct r1 as [|c2 r2]; [reflexivity|].
  destruct (Str.is_space (String c1 (String c2 EmptyString))); [reflexivity|].
  destruct r2 as [|c3 r3]; [reflexivity|].
  destruct (Str.is_space _); reflexivity.
Qed.

Lemma leading_split (s r : string) :
  leading s = Some r → ∃ w, Str.is_space w = true ∧ s = w +:+ r.
Proof.
  destruct s as [|c1 [|c2 [|c3 r3]]]; cbn [leading]; try discriminate;
    repeat match goal with
           | |- context [Str.is_space ?w] => destruct (Str.is_space w) eqn:?
           end;
    intros H; try discriminate H; injection H as <-; eexists; (split; [eassumption|reflexivity]).
Qed.

Lemma leading_shorter (s r : string) :
  leading s = Some r → String.length r < String.length s.
Proof.
  destruct s as [|c1 [|c2 [|c3 r3]]]; cbn [leading]; try discriminate;
    repeat match goal with
           | |- context [Str.is_space ?w] => destruct (Str.is_space w)
           end;
    intros H; try discriminate H; injection H as <-; simpl; lia.
Qed.

Lemma leading_starts (s : string) :
  leading s = None ↔ starts_with_space s = false.
Proof.
  split.
  - intros Hl. destruct (starts_with_space s) eqn:E; [|reflexivity]. exfalso.
    unfold starts_with_space in E. apply existsb_exists in E as (w & Hw & Hp).
    revert s Hl Hp.
    let l := eval cbv in Str.white_space in change Str.white_space with l in Hw.
    repeat (apply in_inv in Hw as [<-|Hw]); [..|contradiction]; intros s Hl Hp.
    all: repeat (apply prefix_cons_inv in Hp as (? & -> & Hp)).
    all: cbv in Hl; discriminate Hl.
  - intros Hs. destruct (leading s) as [r|] eqn:E; [|reflexivity]. exfalso.
    apply leading_split in E as (w & Hw & ->).
    unfold Str.is_space in Hw. apply existsb_exists in Hw as (x & Hx & Hwx).
    apply String.eqb_eq in Hwx as <-.
    assert (starts_with_space (w +:+ r) = true); [|congruence].
    apply existsb_exists. exists w. split; [exact Hx | apply prefix_self_app].
Qed.

Lemma trimStart_clean (s : string) : starts_with_space (Str.trimStart s) = false.
Proof.
  remember (String.length s) as n eqn:Hn. revert s Hn.
  induction n as [n IH] using lt_wf_ind. intros s ->.
  rewrite trimStart_leading. destruct (leading s) as [r|] eqn:E.
  - exact (IH _ (leading_shorter s r E) r eq_refl).
  - apply leading_starts, E.
Qed.

Lemma trimStart_id (s : string) : starts_with_space s = false → Str.trimStart s = s.
Proof. intros H. rewrite trimStart_leading, (proj2 (leading_starts s) H). reflexivity. Qed.

Lemma ends_with_space_cons (c : ascii) (r : string) :
  ends_with_space (String c r) = Str.is_space (String c r) || ends_with_space r.
Proof. unfold ends_with_space, Str.is_space. rewrite <- existsb_either. reflexivity. Qed.

Lemma trimEnd_clean (s : string) : ends_with_space (Str.trimEnd s) = false.
Proof.
  induction s as [|c s IH]; [reflexivity|]. cbn [Str.trimEnd].
  destruct (Str.is_space (String c (Str.trimEnd s))) eqn:E; [reflexivity|].
  rewrite ends_with_space_cons, E, IH. reflexivity.
Qed.

Lemma trimEnd_id (s : string) : ends_with_space s = false → Str.trimEnd s = s.
Proof.
  induction s as [|c s IH]; [reflexivity|]. rewrite ends_with_space_cons.
  intros H. apply orb_false_iff in H as [Hc Hs]. cbn [Str.trimEnd].
  rewrite (IH Hs), Hc. reflexivity.
Qed.

Lemma trimEnd_prefix (s : string) : ∃ t, s = Str.trimEnd s +:+ t.
Proof.
  induction s as [|c s [t IH]]; [exists EmptyString; reflexivity|]. cbn [Str.trimEnd].
  destruct (Str.is_space _).
  - exists (String c s). reflexivity.
  - exists t. exact (f_equal (String c) IH).
Qed.

Lemma trimEnd_keeps_start (s : string) :
  starts_with_space s = false → starts_with_space (Str.trimEnd s) = false.
Proof.
  intros H. destruct (starts_with_space (Str.trimEnd s)) eqn:E; [|reflexivity].
  destruct (trimEnd_prefix s) as [t Ht].
  unfold starts_with_space in E. apply existsb_exists in E as (w & Hw & Hp).
  assert (starts_with_space s = true); [|congruence].
  apply existsb_exists. exists w. split; [exact Hw|].
  rewrite Ht. apply prefix_of_app, Hp.
Qed.

(** White space at the front and at the end is what is dropped. *)
Lemma trimStart_drops (w s : string) :
  Str.is_space w = true → Str.trimStart (w +:+ s) = Str.trimStart s.
Proof.
  unfold Str.is_space. intros Hw. apply existsb_exists in Hw as (x & Hx & Hwx).
  apply String.eqb_eq in Hwx as <-. revert s.
  let l := eval cbv in Str.white_space in change Str.white_space with l in Hx.
  repeat (apply in_inv in Hx as [<-|Hx]); [..|contradiction]; intros s.
  all: rewrite trimStart_leading; reflexivity.
Qed.

Lemma trimEnd_drops (w s : string) :
  Str.is_space w = true → Str.trimEnd (s +:+ w) = Str.trimEnd s.
Proof.
  intros Hw. induction s as [|c s IH].
  - unfold Str.is_space in Hw. apply existsb_exists in Hw as (x & Hx & Hwx).
    apply String.eqb_eq in Hwx as <-.
    let l := eval cbv in Str.white_space in change Str.white_space with l in Hx.
    repeat (apply in_inv in Hx as [<-|Hx]); [..|contradiction]; reflexivity.
  - change (String c s +:+ w) with (String c (s +:+ w)). cbn [Str.trimEnd].
    rewrite IH. reflexivity.
Qed.

Lemma trim_clean (s : string) :
  starts_with_space (Str.trim s) = false ∧ ends_with_space (Str.trim s) = false.
Proof.
  unfold Str.trim. split; [|apply trimEnd_clean].
  apply trimEnd_keeps_start, trimStart_clean.
Qed.

Lemma trim_idempotent (s : string) : Str.trim (Str.trim s) = Str.trim s.
Proof.
  destruct (trim_clean s) as [Hs He].
  unfold Str.trim at 1. rewrite (trimStart_id _ Hs). apply trimEnd_id. exact He.
Qed.

(** White space beyond ASCII is trimmed as well: a no-break space around
    an alias, a line of an em space and a byte order mark; a letter with an
    accent stays. *)
Example trim_beyond_ascii :
  Str.trim (Str.bytes [194; 160]%N +:+ "Prod" +:+ Str.bytes [194; 160; 32]%N) = "Prod"
  ∧ Str.trim (Str.bytes [194; 160]%N) = EmptyString
  ∧ Str.trim (Str.bytes [32; 226; 128; 131; 239; 187; 191]%N) = EmptyString
  ∧ Str.trim (Str.bytes [195; 160]%N) = Str.bytes [195; 160]%N.
Proof. vm_compute. repeat split. Qed.

(** An alias that is one no-break space is blank: nothing is saved. *)
Example handleConnect_no_break_space_alias :
  let p :=
    {| f_tenantId := "tenant-demo-1"; f_subId := "sub-1";
       f_alias := Str.bytes [194; 160]%N;
       f_loginMode := auto; f_clientId := EmptyString; f_clientSecret := EmptyString;
       savedLogins := [Scenarios.production]; localStorage := ∅; pushed := [] |} in
  savedLogins (handleConnect p) = [Scenarios.production]
  ∧ localStorage (handleConnect p) = ∅.
Proof. split; reflexivity. Qed.

(** The alias under which [handleConnect] saves has no white space at
    either end and trimming it again changes nothing, so the entry is found
    again under the alias it shows. *)
Theorem saved_alias_is_trimmed (p : Page) :
  Str.trim (f_alias p) ≠ EmptyString →
  ∃ l, l ∈ savedLogins (handleConnect p)
       ∧ alias l = Str.trim (f_alias p)
       ∧ starts_with_space (alias l) = false
       ∧ ends_with_space (alias l) = false
       ∧ Str.trim (alias l) = alias l.
Proof.
  intros Hne. exists (newLogin p). split.
  - rewrite (savedLogins_handleConnect p Hne).
    destruct (updatedLogins_cases p)
      as [(l1 & x & l2 & Hl & Hx & Hl1 & ->)|(Hall & ->)];
      apply elem_of_app; right; left.
  - split; [reflexivity|]. simpl.
    destruct (trim_clean (f_alias p)) as [Hs He].
    split; [exact Hs|]. split; [exact He | apply trim_idempotent].
Qed.

Lemma saved_alias_is_trimmed_witness :
  ∃ l, l ∈ savedLogins (handleConnect Scenarios.page_resave) ∧ alias l = "Production".
Proof.
  destruct (saved_alias_is_trimmed Scenarios.page_resave ltac:(discriminate))
    as (l & Hl & Ha & _).
  exists l. split; [exact Hl | exact Ha].
Defined.

(** *** Loading a saved login and connecting again *)

(** An entry that [handleConnect] could have written (trimmed alias that is
    not empty, both credentials recorded) comes back unchanged when it is
    loaded into the form and the form is submitted: the form yields the
    entry itself and the saved logins stay as they are. *)
Theorem handleConnect_after_loadLogin (p : Page) (l : SavedLogin) :
  NoDup (alias <$> savedLogins p) →
  l ∈ savedLogins p →
  Str.trim (alias l) = alias l → alias l ≠ EmptyString →
  is_Some (clientId l) → is_Some (clientSecret l) →
  newLogin (loadLogin p l) = l
  ∧ savedLogins (handleConnect (loadLogin p l)) = savedLogins p.
Proof.
  intros Hnd Hl Htrim Hne [c Hc] [k Hk].
  assert (Hnew : newLogin (loadLogin p l) = l).
  { destruct l as [a t s m ci cs]. simpl in *. subst ci cs.
    unfold newLogin. simpl. rewrite Htrim. reflexivity. }
  split; [exact Hnew|].
  assert (Hne' : Str.trim (f_alias (loadLogin p l)) ≠ EmptyString)
    by (simpl; rewrite Htrim; exact Hne).
  rewrite (savedLogins_handleConnect _ Hne').
  destruct (updatedLogins_cases (loadLogin p l))
    as [(l1 & x & l2 & Hsplit & Hx & Hl1 & ->)|(Hall & _)]; simpl in *.
  - rewrite Htrim in Hx. rewrite Hnew, Hsplit. do 2 f_equal.
    (* the entry found under the alias is the entry that was loaded *)
    rewrite Hsplit in Hl, Hnd.
    rewrite fmap_app, fmap_cons in Hnd.
    apply NoDup_app in Hnd as (_ & Hdisj & Hnd). apply NoDup_cons in Hnd as [Hx2 _].
    apply elem_of_app in Hl as [Hl|Hl].
    + exfalso. apply (Hdisj (alias l)); [apply list_elem_of_fmap; eauto|].
      rewrite <- Hx. left.
    + apply elem_of_cons in Hl as [->|Hl]; [reflexivity|].
      exfalso. apply Hx2. rewrite Hx. apply list_elem_of_fmap. eauto.
  - exfalso. rewrite Forall_forall in Hall. apply (Hall l Hl). symmetry. exact Htrim.
Qed.

Lemma handleConnect_after_loadLogin_witness :
  savedLogins (handleConnect (loadLogin Scenarios.page_resave Scenarios.dev))
  = savedLogins Scenarios.page_resave.
Proof.
  refine (proj2 (handleConnect_after_loadLogin Scenarios.page_resave Scenarios.dev
                   _ _ eq_refl _ _ _)).
  - apply (bool_decide_unpack _). vm_compute. exact I.
  - right. left.
  - discriminate.
  - eexists. reflexivity.
  - eexists. reflexivity.
Defined.

(** *** The browser storage follows the saved logins *)

(** After a delete, and after a save under an alias that is not blank, the
    browser storage holds the serialized list of saved logins; connecting
    (with any alias) and loading keep it so once it holds. *)
Theorem storage_in_sync :
  (∀ p a, in_sync (deleteLogin p a))
  ∧ (∀ p, Str.trim (f_alias p) ≠ EmptyString → in_sync (handleConnect p))
  ∧ (∀ p, in_sync p → in_sync (handleConnect p))
  ∧ (∀ p l, in_sync p → in_sync (loadLogin p l)).
Proof.
  assert (Hsave : ∀ p, Str.trim (f_alias p) ≠ EmptyString → in_sync (handleConnect p)).
  { intros p Hne. unfold in_sync. simpl.
    destruct (String.eqb_spec (Str.trim (f_alias p)) EmptyString); [contradiction|].
    simpl. apply lookup_insert_eq. }
  split; [|split; [exact Hsave|split]].
  - intros p a. unfold in_sync. simpl. apply lookup_insert_eq.
  - intros p Hp.
    destruct (String.eqb_spec (Str.trim (f_alias p)) EmptyString) as [E|E];
      [|apply Hsave; exact E].
    unfold in_sync. simpl. rewrite E. simpl. exact Hp.
  - intros p l Hp. exact Hp.
Qed.

End LoginActionsFacts.

(** * Properties of the query string *)

Module QueryFacts.
Import LoginPage Query.

Lemma occurs_app (c : ascii) (a b : string) :
  occurs c (a +:+ b) = occurs c a || occurs c b.
Proof.
  induction a as [|x a IH]; [reflexivity|].
  change (occurs c (String x a +:+ b)) with (Ascii.eqb x c || occurs c (a +:+ b)).
  rewrite IH. simpl. apply orb_assoc.
Qed.

(** The characters that structure a URL are always escaped. *)
Lemma occurs_form_char (x : ascii) :
  occurs "&" (form_char x) = false ∧ occurs "=" (form_char x) = false
  ∧ occurs "?" (form_char x) = false ∧ occurs "#" (form_char x) = false.
Proof. destruct x as [[] [] [] [] [] [] [] []]; repeat split; reflexivity. Qed.

Definition structural (c : ascii) : Prop :=
  c = "&"%char ∨ c = "="%char ∨ c = "?"%char ∨ c = "#"%char.

Lemma occurs_form_encode (c : ascii) (s : string) :
  structural c → occurs c (form_encode s) = false.
Proof.
  intros Hc. induction s as [|x s IH]; [reflexivity|].
  cbn [form_encode]. rewrite occurs_app, IH, orb_false_r.
  destruct (occurs_form_char x) as (H1 & H2 & H3 & H4).
  destruct Hc as [->|[->|[->| ->]]]; assumption.
Qed.

Lemma split_first_none (sep : ascii) (a : string) :
  occurs sep a = false → split_first sep a = (a, None).
Proof.
  induction a as [|x a IH]; [reflexivity|]. simpl. intros H.
  apply orb_false_iff in H as [Hx Ha]. rewrite Hx, (IH Ha). reflexivity.
Qed.

Lemma split_first_app (sep : ascii) (a b : string) :
  occurs sep a = false → split_first sep (a +:+ String sep b) = (a, Some b).
Proof.
  induction a as [|x a IH]; intros H.
  - change (split_first sep (String sep b) = (EmptyString, Some b)).
    simpl. rewrite Ascii.eqb_refl. reflexivity.
  - simpl in H. apply orb_false_iff in H as [Hx Ha].
    change (split_first sep (String x (a +:+ String sep b)) = (String x a, Some b)).
    simpl. rewrite Hx, (IH Ha). reflexivity.
Qed.

Lemma split_on_none (sep : ascii) (a : string) :
  occurs sep a = false → split_on sep a = [a].
Proof.
  induction a as [|x a IH]; [reflexivity|]. simpl. intros H.
  apply orb_false_iff in H as [Hx Ha]. rewrite Hx, (IH Ha). reflexivity.
Qed.

Lemma split_on_app (sep : ascii) (a b : string) :
  occurs sep a = false → split_on sep (a +:+ String sep b) = a :: split_on sep b.
Proof.
  induction a as [|x a IH]; intros H.
  - change (split_on sep (String sep b) = EmptyString :: split_on sep b).
    simpl. rewrite Ascii.eqb_refl. reflexivity.
  - simpl in H. apply orb_false_iff in H as [Hx Ha].
    change (split_on sep (String x (a +:+ String sep b)) = String x a :: split_on sep b).
    simpl. rewrite Hx, (IH Ha). reflexivity.
Qed.

(** One serialized pair. *)
Definition piece (kv : string * string) : string :=
  form_encode (fst kv) +:+ "=" +:+ form_encode (snd kv).

Lemma piece_clean (c : ascii) (kv : string * string) :
  c = "&"%char ∨ c = "?"%char ∨ c = "#"%char → occurs c (piece kv) = false.
Proof.
  intros Hc. unfold piece. rewrite !occurs_app.
  rewrite !occurs_form_encode by (unfold structural; tauto).
  destruct Hc as [->|[->| ->]]; reflexivity.
Qed.

Lemma piece_not_empty (kv : string * string) :
  String.eqb (piece kv) EmptyString = false.
Proof.
  unfold piece. destruct (form_encode kv.1) as [|x r]; reflexivity.
Qed.

Lemma parse_pair_piece (kv : string * string) : parse_pair (piece kv) = kv.
Proof.
  destruct kv as [k v]. unfold parse_pair, piece. simpl fst. simpl snd.
  change (form_encode k +:+ "=" +:+ form_encode v)
    with (form_encode k +:+ String "=" (form_encode v)).
  rewrite split_first_app by (apply occurs_form_encode; unfold structural; tauto).
  simpl. rewrite !LoginFacts.form_decode_encode. reflexivity.
Qed.

Lemma concat_cons2 (x y : string) (l : list string) :
  String.concat "&" (x :: y :: l) = x +:+ String "&" (String.concat "&" (y :: l)).
Proof. reflexivity. Qed.

Lemma split_pieces (ps : list (string * string)) :
  ps ≠ [] → split_on "&" (String.concat "&" (piece <$> ps)) = piece <$> ps.
Proof.
  induction ps as [|kv ps IH]; [congruence|]. intros _.
  destruct ps as [|kv2 ps].
  - simpl. apply split_on_none, piece_clean. tauto.
  - change (piece <$> kv :: kv2 :: ps) with (piece kv :: piece kv2 :: (piece <$> ps)).
    rewrite concat_cons2, split_on_app by (apply piece_clean; tauto).
    f_equal. apply IH. discriminate.
Qed.

Lemma occurs_pieces (c : ascii) (ps : list (string * string)) :
  c = "?"%char ∨ c = "#"%char → occurs c (String.concat "&" (piece <$> ps)) = false.
Proof.
  intros Hc. induction ps as [|kv ps IH]; [reflexivity|].
  destruct ps as [|kv2 ps].
  - simpl. apply piece_clean. tauto.
  - change (piece <$> kv :: kv2 :: ps) with (piece kv :: piece kv2 :: (piece <$> ps)).
    rewrite concat_cons2, occurs_app. rewrite piece_clean by tauto.
    change (occurs c (String "&" (String.concat "&" (piece kv2 :: (piece <$> ps)))))
      with (Ascii.eqb "&" c || occurs c (String.concat "&" (piece <$> kv2 :: ps))).
    rewrite IH. destruct Hc as [->| ->]; reflexivity.
Qed.

Lemma params_toString_pieces (ps : list (string * string)) :
  params_toString ps = String.concat "&" (piece <$> ps).
Proof. reflexivity. Qed.

Lemma parse_query_pieces (ps : list (string * string)) :
  parse_query (String.concat "&" (piece <$> ps)) = ps.
Proof.
  unfold parse_query.
  destruct ps as [|kv ps]; [reflexivity|].
  rewrite split_pieces by discriminate.
  generalize (kv :: ps). clear. intros ps.
  induction ps as [|kv ps IH]; [reflexivity|].
  rewrite fmap_cons. simpl List.filter. rewrite piece_not_empty. simpl negb. cbv iota.
  rewrite fmap_cons, parse_pair_piece. f_equal. exact IH.
Qed.

Lemma query_of_dashboard_url (p : Page) :
  query_of (dashboard_url p) = params_toString (params p).
Proof.
  unfold query_of, dashboard_url.
  change (split_first "?" ("/dashboard?" +:+ params_toString (params p)))
    with ("/dashboard", Some (params_toString (params p))).
  cbv iota beta.
  rewrite split_first_none; [reflexivity|].
  rewrite params_toString_pieces. apply occurs_pieces. tauto.
Qed.

Lemma parse_dashboard_url (p : Page) :
  parse_query (query_of (dashboard_url p)) = params p.
Proof. rewrite query_of_dashboard_url. apply parse_query_pieces. Qed.

(** What [URLSearchParams.toString()] writes, the parser reads back: the
    same pairs, in the same order, whatever characters the names and values
    hold. *)
Theorem parse_query_toString (ps : list (string * string)) :
  parse_query (params_toString ps) = ps.
Proof. rewrite params_toString_pieces. apply parse_query_pieces. Qed.

(** The dashboard, on the URL [handleConnect] navigates to, reads exactly
    the five parameters the login page put there: tenant and subscription
    as typed, the mode, and the credentials as typed in mode explicit and
    empty in mode auto. *)
Theorem dashboard_reads_login_params (p : Page) :
  last (pushed (handleConnect p)) = Some (dashboard_url p)
  ∧ parse_query (query_of (dashboard_url p)) =
      [("tenantId", f_tenantId p);
       ("subId", f_subId p);
       ("mode", mode_string (f_loginMode p));
       ("clientId", match f_loginMode p with
                    | explicit => f_clientId p | auto => EmptyString end);
       ("clientSecret", match f_loginMode p with
                        | explicit => f_clientSecret p | auto => EmptyString end)].
Proof.
  split; [simpl; apply last_snoc | apply parse_dashboard_url].
Qed.

End QueryFacts.

(** * Properties of the dashboard *)

Module DashboardFacts.
Import Api Dashboard.

Lemma or_empty (v : string) : (if String.eqb v EmptyString then EmptyString else v) = v.
Proof. destruct (String.eqb_spec v EmptyString) as [->|]; reflexivity. Qed.

Lemma run_fetch_then_handle (net : Request → option Response) (req : Request) :
  run net (fetch_then_handle req) = ([req], Claimed.settle (net req)).
Proof. unfold fetch_then_handle. simpl. destruct (net req); reflexivity. Qed.

Section OnePage.

Variable env : option string.
Variable net : Request → option Response.
Variable sp : list (string * string).

(** The mode counts as explicit only when the URL says so. *)
Lemma loginMode_explicit :
  String.eqb (loginMode sp) "explicit" = true ↔ Query.get sp "mode" = Some "explicit".
Proof.
  unfold loginMode, param. destruct (Query.get sp "mode") as [v|]; [|split; discriminate].
  destruct (String.eqb_spec v EmptyString) as [->|Hv]; [split; discriminate|].
  rewrite String.eqb_eq. split; congruence.
Qed.

(** The request [handleAssessment] sends. *)
Definition assess_request : Request :=
  {| method := "POST";
     url := API_URL env +:+ "/api/v1/assess";
     headers := [("Content-Type", "application/json")];
     body := Some (JSON_stringify (JObj
       (assessment_payload (tenantId sp) (subId sp)
          (when_explicit sp (clientId sp)) (when_explicit sp (clientSecret sp))))) |}.

Lemma handleAssessment_sent (st : State) :
  fst (handleAssessment env net sp st) = [assess_request].
Proof.
  unfold handleAssessment, triggerAssessment. rewrite run_fetch_then_handle.
  fold assess_request.
  destruct (Claimed.settle (net assess_request)) as [data|e]; [|reflexivity].
  destruct (get_prop data "job_id"); reflexivity.
Qed.

(** The dashboard starts an assessment with one POST to /api/v1/assess that
    names the tenant and the subscription of the URL.  It carries the
    client id and secret of the URL exactly when the URL's mode is
    explicit and both are present and not empty; with any other mode, or
    with one of them missing, it carries no credentials at all. *)
Theorem handleAssessment_credentials (st : State) :
  ∃ req payload,
    fst (handleAssessment env net sp st) = [req]
    ∧ method req = "POST"
    ∧ url req = API_URL env +:+ "/api/v1/assess"
    ∧ body req = Some (JSON_stringify (JObj payload))
    ∧ (Query.get sp "mode" = Some "explicit"
       ∧ clientId sp ≠ EmptyString ∧ clientSecret sp ≠ EmptyString →
         payload = [("tenant_id", JStr (tenantId sp));
                    ("subscription_id", JStr (subId sp));
                    ("client_id", JStr (clientId sp));
                    ("client_secret", JStr (clientSecret sp))])
    ∧ (¬ (Query.get sp "mode" = Some "explicit"
          ∧ clientId sp ≠ EmptyString ∧ clientSecret sp ≠ EmptyString) →
         payload = [("tenant_id", JStr (tenantId sp));
                    ("subscription_id", JStr (subId sp))]).
Proof.
  exists assess_request, (assessment_payload (tenantId sp) (subId sp)
          (when_explicit sp (clientId sp)) (when_explicit sp (clientSecret sp))).
  split; [apply handleAssessment_sent|]. do 3 (split; [reflexivity|]).
  unfold assessment_payload, both_given, when_explicit.
  destruct (String.eqb (loginMode sp) "explicit") eqn:Hm.
  - apply loginMode_explicit in Hm. simpl.
    destruct (String.eqb_spec (clientId sp) EmptyString) as [Hc|Hc]; simpl.
    + split; [intros (_ & H & _); contradiction | reflexivity].
    + destruct (String.eqb_spec (clientSecret sp) EmptyString) as [Hs|Hs]; simpl.
      * split; [intros (_ & _ & H); contradiction | reflexivity].
      * split; [reflexivity | intros Hn; exfalso; apply Hn; auto].
  - simpl. split; [|reflexivity].
    intros (H & _). apply loginMode_explicit in H. congruence.
Qed.

(** How an assessment ends on the dashboard.  When the backend answers ok
    with a JSON body other than null, the page navigates to /jobs/ followed
    by the body's job_id as a string ("undefined" when the body has none),
    shows no alert and keeps its spinner.  In every other case (no answer,
    an answer that is not ok, a body that is not JSON or is null) it stays
    on the page, shows the one fixed alert, logs the error and stops the
    spinner. *)
Theorem handleAssessment_outcome (st : State) :
  (∀ res data, net (assess_request) = Some res → ok res = true →
     json res = Some data → data ≠ JNull →
     snd (handleAssessment env net sp st)
     = {| loadingAction := Some "assessment";
          pushed := pushed st ++ ["/jobs/" +:+ ToString_value (Claimed.member data "job_id")];
          alerts := alerts st;
          console := console st;
          showKeyInfo := showKeyInfo st;
          keyInfo := keyInfo st;
          loadingKeyInfo := loadingKeyInfo st |})
  ∧ ((net assess_request = None
      ∨ ∃ res, net assess_request = Some res
               ∧ (ok res = false ∨ json res = None ∨ json res = Some JNull)) →
     ∃ e, snd (handleAssessment env net sp st)
          = {| loadingAction := None;
               pushed := pushed st;
               alerts := alerts st ++ ["Failed to trigger assessment. Check console."];
               console := console st ++ [e];
               showKeyInfo := showKeyInfo st;
               keyInfo := keyInfo st;
               loadingKeyInfo := loadingKeyInfo st |}).
Proof.
  unfold handleAssessment, triggerAssessment. rewrite run_fetch_then_handle.
  fold assess_request. split.
  - intros res data Hnet Hok Hj Hn. rewrite Hnet. simpl.
    unfold handleResponse. rewrite Hok, Hj. simpl.
    rewrite (ApiFacts.get_prop_member data "job_id" Hn). reflexivity.
  - intros [Hnet|(res & Hnet & Hres)]; rewrite Hnet; simpl; [eauto|].
    unfold handleResponse.
    destruct (ok res) eqn:Hok; simpl; [|eauto].
    destruct Hres as [[=]|[Hj|Hj]]; rewrite Hj; simpl; eauto.
Qed.

End OnePage.

(** From the login form to the assessment request.  On the URL the login
    page navigates to, the dashboard's assessment request names the tenant
    and the subscription typed into the form; in mode auto it carries no
    credentials whatever was typed into the credential fields, and in mode
    explicit it carries the typed client id and secret when both are
    filled in. *)
Theorem login_to_assessment_request
    (env : option string) (net : Request → option Response)
    (p : LoginPage.Page) (st : State) :
  fst (handleAssessment env net
         (Query.parse_query (Query.query_of (LoginPage.dashboard_url p))) st)
  = [ {| method := "POST";
         url := API_URL env +:+ "/api/v1/assess";
         headers := [("Content-Type", "application/json")];
         body := Some (JSON_stringify (JObj
           (match LoginPage.f_loginMode p with
            | LoginPage.auto =>
                [("tenant_id", JStr (LoginPage.f_tenantId p));
                 ("subscription_id", JStr (LoginPage.f_subId p))]
            | LoginPage.explicit =>
                assessment_payload (LoginPage.f_tenantId p) (LoginPage.f_subId p)
                  (Some (LoginPage.f_clientId p)) (Some (LoginPage.f_clientSecret p))
            end))) |} ].
Proof.
  rewrite handleAssessment_sent, QueryFacts.parse_dashboard_url.
  unfold assess_request. do 4 f_equal.
  unfold tenantId, subId, clientId, clientSecret, when_explicit, loginMode, param,
    LoginPage.params.
  cbn [Query.get]. simpl String.eqb. cbv iota.
  rewrite !or_empty.
  destruct (LoginPage.f_loginMode p); reflexivity.
Qed.

(** *** The context request and the status of the reasoning service *)

(** [loadKeyInfo] puts the two ids into the address unescaped.  The backend
    reads them back as they are when they consist of letters, digits and
    [* - . _] only (the characters the form encoding leaves alone). *)
Theorem context_url_plain_ids (sp : list (string * string)) :
  LoginPage.form_encode (subId sp) = subId sp →
  LoginPage.form_encode (tenantId sp) = tenantId sp →
  Query.parse_query (Query.query_of (context_url sp))
  = [("subscription_id", subId sp); ("tenant_id", tenantId sp)].
Proof.
  intros Hs Ht.
  assert (Hstr : "subscription_id=" +:+ subId sp +:+ "&tenant_id=" +:+ tenantId sp
                 = String.concat "&"
                     (QueryFacts.piece <$>
                        [("subscription_id", subId sp); ("tenant_id", tenantId sp)])).
  { unfold QueryFacts.piece. simpl. rewrite Hs, Ht. reflexivity. }
  unfold Query.query_of, context_url.
  change (Query.split_first "?"
            ("http://localhost:8000/api/v1/context?subscription_id=" +:+ subId sp
               +:+ "&tenant_id=" +:+ tenantId sp))
    with ("http://localhost:8000/api/v1/context",
          Some ("subscription_id=" +:+ subId sp +:+ "&tenant_id=" +:+ tenantId sp)).
  cbv iota beta. rewrite Hstr.
  rewrite QueryFacts.split_first_none by (apply QueryFacts.occurs_pieces; tauto).
  apply QueryFacts.parse_query_pieces.
Qed.

Lemma context_url_plain_ids_witness :
  Query.parse_query (Query.query_of
    (context_url [("tenantId", "tenant-demo-1"); ("subId", "sub-1")]))
  = [("subscription_id", "sub-1"); ("tenant_id", "tenant-demo-1")].
Proof.
  exact (context_url_plain_ids [("tenantId", "tenant-demo-1"); ("subId", "sub-1")]
           eq_refl eq_refl).
Defined.

(** An id with an ampersand is not escaped: the backend reads another
    tenant than the one of the page. *)
Example context_url_injection :
  Query.get (Query.parse_query (Query.query_of
    (context_url [("tenantId", "tenant-demo-1"); ("subId", "sub-1&tenant_id=other")])))
    "tenant_id"
  = Some "other".
Proof. reflexivity. Qed.

Section Loaders.

Variable net : Request → option Response.
Variable sp : list (string * string).

(** [loadKeyInfo] sends one GET and always clears its busy flag.  The
    context shown is replaced exactly when the answer is ok and its body is
    JSON; on an answer that is not ok, a body that is not JSON or no answer
    at all, the context stays what it was and nothing is announced to the
    user. *)
Theorem loadKeyInfo_settles (st : State) :
  fst (loadKeyInfo net sp st) = [get (context_url sp)]
  ∧ loadingKeyInfo (snd (loadKeyInfo net sp st)) = false
  ∧ alerts (snd (loadKeyInfo net sp st)) = alerts st
  ∧ (∀ res data, net (get (context_url sp)) = Some res → ok res = true →
       json res = Some data → keyInfo (snd (loadKeyInfo net sp st)) = Some data)
  ∧ ((net (get (context_url sp)) = None
      ∨ ∃ res, net (get (context_url sp)) = Some res
               ∧ (ok res = false ∨ json res = None)) →
       keyInfo (snd (loadKeyInfo net sp st)) = keyInfo st).
Proof.
  unfold loadKeyInfo. simpl. split; [reflexivity|].
  destruct (net (get (context_url sp))) as [res|] eqn:Hnet; simpl.
  - destruct (ok res) eqn:Hok; [destruct (json res) as [data|] eqn:Hj|]; simpl.
    + repeat split; try reflexivity.
      * intros res' data' [= <-] _ Hj'. rewrite Hj in Hj'. congruence.
      * intros [[=]|(res' & [= <-] & [Hc|Hc])]; congruence.
    + repeat split; try reflexivity. intros res' data' [= <-] _ Hj'. congruence.
    + repeat split; try reflexivity. intros res' data' [= <-] Hok'. congruence.
  - repeat split; try reflexivity. intros res data [=].
Qed.

(** The indicator of the reasoning service shows success exactly when the
    status request is answered ok with a JSON body whose member connected
    is truthy; in every other case it shows failed, and never stays at
    checking. *)
Theorem checkStatus_success_iff :
  (snd (checkStatus net) = success
   ↔ ∃ res data, net (fst (checkStatus net)) = Some res ∧ ok res = true
                 ∧ json res = Some data
                 ∧ truthy (Claimed.member data "connected") = true)
  ∧ snd (checkStatus net) ≠ checking
  ∧ fst (checkStatus net) = get "http://localhost:8000/api/ai-status".
Proof.
  unfold checkStatus. simpl.
  set (req := get "http://localhost:8000/api/ai-status").
  split; [|split; [|reflexivity]].
  - destruct (net req) as [res|]; [|split; [discriminate | intros (? & ? & [=] & _)]].
    destruct (ok res) eqn:Hok; simpl;
      [|split; [discriminate | intros (? & ? & [= <-] & Hc & _); congruence]].
    destruct (json res) as [data|] eqn:Hj;
      [|split; [discriminate | intros (? & ? & [= <-] & _ & Hc & _); congruence]].
    destruct data; simpl;
      try (split; [discriminate
                  | intros (? & ? & [= <-] & _ & Hc & Ht); rewrite Hj in Hc;
                    injection Hc as <-; simpl in Ht; discriminate]).
    destruct (truthy (assoc "connected" fields)) eqn:Ht.
    + split; [intros _; eauto 10 | reflexivity].
    + split; [discriminate|].
      intros (? & ? & [= <-] & _ & Hc & Ht'). rewrite Hj in Hc.
      injection Hc as <-. simpl in Ht'. congruence.
  - destruct (net req) as [res|]; [|discriminate].
    destruct (negb (ok res)); [discriminate|].
    destruct (json res) as [data|]; [|discriminate].
    destruct (get_prop data "connected") as [c|]; [|discriminate].
    destruct (truthy c); discriminate.
Qed.

End Loaders.

End DashboardFacts.

(** * Further properties of the inventory table *)

Module TableColumnsFacts.
Import InventoryTable TableColumns Query.


(** The subscription column.  For an id of the usual form
    /subscriptions/<sub>/... it shows <sub>; for an id with fewer than three
    segments, or with an empty third segment, it shows "unknown". *)
Theorem subId_of_id (res : AzureResource) :
  (∀ sub rest, occurs "/" sub = false → sub ≠ EmptyString →
     id res = "/subscriptions/" +:+ sub +:+ "/" +:+ rest → subId res = sub)
  ∧ (∀ sub, occurs "/" sub = false → sub ≠ EmptyString →
     id res = "/subscriptions/" +:+ sub → subId res = sub)
  ∧ (occurs "/" (id res) = false → subId res = "unknown")
  ∧ (∀ a b, occurs "/" a = false → occurs "/" b = false →
     id res = a +:+ "/" +:+ b → subId res = "unknown")
  ∧ (∀ a b rest, occurs "/" a = false → occurs "/" b = false →
     id res = a +:+ "/" +:+ b +:+ "//" +:+ rest → subId res = "unknown").
Proof.
  unfold subId. split; [|split; [|split; [|split]]].
  - intros sub rest Hs Hne ->.
    change ("/subscriptions/" +:+ sub +:+ "/" +:+ rest)
      with (String "/" ("subscriptions" +:+ String "/" (sub +:+ String "/" rest))).
    change (split_on "/" (String "/" ?x)) with (EmptyString :: split_on "/" x).
    rewrite !QueryFacts.split_on_app by (try reflexivity; exact Hs).
    simpl. destruct (String.eqb_spec sub EmptyString); [contradiction | reflexivity].
  - intros sub Hs Hne ->.
    change ("/subscriptions/" +:+ sub)
      with (String "/" ("subscriptions" +:+ String "/" sub)).
    change (split_on "/" (String "/" ?x)) with (EmptyString :: split_on "/" x).
    rewrite QueryFacts.split_on_app by reflexivity.
    rewrite QueryFacts.split_on_none by exact Hs.
    simpl. destruct (String.eqb_spec sub EmptyString); [contradiction | reflexivity].
  - intros H. rewrite QueryFacts.split_on_none by exact H. reflexivity.
  - intros a b Ha Hb ->.
    change (a +:+ "/" +:+ b) with (a +:+ String "/" b).
    rewrite QueryFacts.split_on_app by exact Ha.
    rewrite QueryFacts.split_on_none by exact Hb. reflexivity.
  - intros a b rest Ha Hb ->.
    change (a +:+ "/" +:+ b +:+ "//" +:+ rest)
      with (a +:+ String "/" (b +:+ String "/" (String "/" rest))).
    rewrite !QueryFacts.split_on_app by assumption.
    change (split_on "/" (String "/" rest)) with (EmptyString :: split_on "/" rest).
    reflexivity.
Qed.




(** A first character beyond ASCII is upper-cased by the engine: with an
    engine that writes SS for the sharp s, the segment grows by one
    letter. *)
Example getHumanType_sharp_s :
  getHumanType (λ s, if String.eqb s (Str.bytes [195; 159]%N) then "SS" else s)
    ("a/" +:+ Str.bytes [195; 159]%N +:+ "eta")
  = "SSeta".
Proof. vm_compute. reflexivity. Qed.

(** The remark of a row says what its status says: the direct-move remark
    goes with Yes, the recreate remark with No, and no remark with the
    dash. *)
Theorem remarks_match_status (b : gmap string (list string)) (res : AzureResource) :
  (renderStatus b res = Yes
   ↔ getRemarks b res = "This resource type supports for direct move operation.")
  ∧ (renderStatus b res = No
   ↔ getRemarks b res = "This resource type does not support move operation and will be recreated in the Destination Subscription with same configurations.")
  ∧ (renderStatus b res = Dash ↔ getRemarks b res = EmptyString).
Proof.
  unfold renderStatus, getRemarks.
  destruct (isBlocked b res); [destruct (isUnknown b res)|];
    repeat split; intros H; try reflexivity; discriminate H.
Qed.

End TableColumnsFacts.

(** * The coverage marker and the counters *)

Module MarkerFacts.
Import InventoryTable.

Lemma append_assoc (a b c : string) : (a +:+ b) +:+ c = a +:+ (b +:+ c).
Proof. induction a as [|x a IH]; [reflexivity|]. exact (f_equal (String x) IH). Qed.

Lemma toLowerCase_app (a b : string) :
  Str.toLowerCase (a +:+ b) = Str.toLowerCase a +:+ Str.toLowerCase b.
Proof.
  induction a as [|x a IH]; [reflexivity|].
  exact (f_equal (String (Str.lower_char x)) IH).
Qed.

Lemma toLowerCase_join (sep : string) (parts : list string) :
  Str.toLowerCase (Str.join sep parts)
  = Str.join (Str.toLowerCase sep) (Str.toLowerCase <$> parts).
Proof.
  unfold Str.join. induction parts as [|p [|q parts] IH]; [reflexivity..|].
  change (String.concat sep (p :: q :: parts))
    with (p +:+ sep +:+ String.concat sep (q :: parts)).
  rewrite !toLowerCase_app, IH. reflexivity.
Qed.

Lemma prefix_app (n s y : string) :
  String.prefix n s = true → String.prefix n (s +:+ y) = true.
Proof.
  revert s. induction n as [|c n IH]; intros s H;
    [destruct (s +:+ y); reflexivity|].
  destruct s as [|d s]; [discriminate|].
  change (String d s +:+ y) with (String d (s +:+ y)). simpl in *.
  destruct (ascii_dec c d); [|discriminate]. apply IH, H.
Qed.

Lemma includes_unfold (s n : string) :
  Str.includes s n
  = String.prefix n s
    || match s with EmptyString => false | String _ rest => Str.includes rest n end.
Proof. destruct s; reflexivity. Qed.

Lemma includes_app_r (s y n : string) :
  Str.includes s n = true → Str.includes (s +:+ y) n = true.
Proof.
  induction s as [|c s IH]; intros H; rewrite includes_unfold in H;
    apply orb_true_iff in H as [H|H].
  - rewrite includes_unfold. apply orb_true_iff. left. exact (prefix_app _ _ y H).
  - discriminate.
  - rewrite includes_unfold. apply orb_true_iff. left. exact (prefix_app _ _ y H).
  - change (String c s +:+ y) with (String c (s +:+ y)).
    rewrite includes_unfold. apply orb_true_iff. right. exact (IH H).
Qed.

Lemma includes_app_l (x s n : string) :
  Str.includes s n = true → Str.includes (x +:+ s) n = true.
Proof.
  intros H. induction x as [|c x IH]; [exact H|].
  change (String c x +:+ s) with (String c (x +:+ s)).
  rewrite includes_unfold. apply orb_true_iff. right. exact IH.
Qed.

Lemma join_app (sep : string) (a b : list string) :
  a ≠ [] → b ≠ [] →
  Str.join sep (a ++ b) = Str.join sep a +:+ sep +:+ Str.join sep b.
Proof.
  unfold Str.join. intros Ha Hb. induction a as [|p [|q a] IH]; [contradiction| |].
  - destruct b as [|r b]; [contradiction|]. reflexivity.
  - change (String.concat sep ((p :: q :: a) ++ b))
      with (p +:+ sep +:+ String.concat sep ((q :: a) ++ b)).
    rewrite IH by discriminate.
    change (String.concat sep (p :: q :: a))
      with (p +:+ sep +:+ String.concat sep (q :: a)).
    rewrite !append_assoc. reflexivity.
Qed.

(** The marker in one part of the reasons is the marker in the whole. *)
Lemma coverage_unknown_app (rs1 rs2 : list string) :
  Claimed.coverage_unknown rs1 = true ∨ Claimed.coverage_unknown rs2 = true →
  Claimed.coverage_unknown (rs1 ++ rs2) = true.
Proof.
  intros H.
  destruct rs1 as [|r1 rs1]; [destruct H as [H|H]; [discriminate H | exact H]|].
  destruct rs2 as [|r2 rs2]; [rewrite app_nil_r; destruct H as [H|H]; [exact H | discriminate H]|].
  unfold Claimed.coverage_unknown in *.
  rewrite join_app by discriminate. rewrite !toLowerCase_app.
  destruct H as [H|H].
  - apply includes_app_r, H.
  - apply includes_app_l, includes_app_l, H.
Qed.

(** A marker among the reasons hides the blockers beside it: as soon as
    one part of the reasons of a resource carries the coverage marker, the
    row shows the dash and no remark, whatever the other reasons say. *)
Theorem unknown_marker_masks_blockers
    (b : gmap string (list string)) (res : AzureResource) (rs1 rs2 : list string) :
  b !! id res = Some (rs1 ++ rs2) →
  Claimed.coverage_unknown rs1 = true ∨ Claimed.coverage_unknown rs2 = true →
  renderStatus b res = Dash ∧ getRemarks b res = EmptyString.
Proof.
  intros Hb H.
  assert (Hu : isUnknown b res = true).
  { rewrite (TableFacts.isUnknown_coverage_unknown b res _ Hb).
    apply coverage_unknown_app, H. }
  pose proof (TableFacts.isUnknown_isBlocked b res Hu) as Hbl.
  unfold renderStatus, getRemarks. rewrite Hbl, Hu. split; reflexivity.
Qed.

Lemma unknown_marker_masks_blockers_witness :
  renderStatus
    {[ id Scenarios.vm1 := ["Resource has a CanNotDelete lock."; Scenarios.unknown_reason] ]}
    Scenarios.vm1 = Dash.
Proof.
  refine (proj1 (unknown_marker_masks_blockers _ Scenarios.vm1
                   ["Resource has a CanNotDelete lock."] [Scenarios.unknown_reason]
                   _ (or_intror eq_refl))).
  apply lookup_singleton_eq.
Defined.

(** The marker is looked for without regard to case, and the row depends
    on the reasons only up to case: reasons that agree after lower-casing
    give the same status and the same remark. *)
Theorem rendering_ignores_case
    (b1 b2 : gmap string (list string)) (res : AzureResource) (rs1 rs2 : list string) :
  b1 !! id res = Some rs1 → b2 !! id res = Some rs2 →
  Str.toLowerCase <$> rs1 = Str.toLowerCase <$> rs2 →
  renderStatus b1 res = renderStatus b2 res ∧ getRemarks b1 res = getRemarks b2 res.
Proof.
  intros H1 H2 Hl.
  assert (Hu : isUnknown b1 res = isUnknown b2 res).
  { unfold isUnknown, combinedIssues, blockersList. rewrite H1, H2. simpl.
    rewrite !toLowerCase_join, Hl. reflexivity. }
  assert (Hb : isBlocked b1 res = isBlocked b2 res).
  { unfold isBlocked, blockersList. rewrite H1, H2. simpl.
    rewrite <- (length_fmap Str.toLowerCase rs1), Hl, length_fmap. reflexivity. }
  unfold renderStatus, getRemarks. rewrite Hu, Hb. split; reflexivity.
Qed.

Lemma rendering_ignores_case_witness :
  renderStatus {[ id Scenarios.vm1 := ["NO SPECIFIC OFFICIAL DOCUMENTATION"] ]} Scenarios.vm1
  = renderStatus {[ id Scenarios.vm1 := ["no specific official documentation"] ]} Scenarios.vm1.
Proof.
  refine (proj1 (rendering_ignores_case _ _ Scenarios.vm1
                   ["NO SPECIFIC OFFICIAL DOCUMENTATION"]
                   ["no specific official documentation"] _ _ eq_refl));
    apply lookup_singleton_eq.
Defined.

End MarkerFacts.

(** * Properties of the counters and the actions of the job page *)

Module JobFacts.
Import InventoryTable JobActions.

(** Whether a row shows Yes. *)
Definition shown_yes (s : Status) : bool :=
  match s with Yes => true | _ => false end.

Definition not_yes (s : Status) : bool := negb (shown_yes s).

Lemma yes_not_yes_length (l : list Status) :
  length (List.filter shown_yes l) + length (List.filter not_yes l) = length l.
Proof.
  induction l as [|s l IH]; [reflexivity|].
  unfold not_yes in *. simpl. destruct (shown_yes s); simpl; lia.
Qed.

(** Rows that do not show Yes have an entry in the blocker map. *)
Lemma not_yes_rows_have_entry (b : gmap string (list string)) (rs : list AzureResource) :
  (length (List.filter not_yes (statuses rs b))
   ≤ length (filter (λ r : AzureResource, is_Some (b !! id r)) rs))%nat.
Proof.
  unfold statuses. induction rs as [|r rs IH]; [reflexivity|].
  rewrite fmap_cons, filter_cons. simpl.
  destruct (decide (is_Some (b !! id r))) as [Hr|Hr].
  - destruct (not_yes (renderStatus b r)); simpl; lia.
  - assert (Hy : renderStatus b r = Yes).
    { apply TableFacts.renderStatus_Yes_iff. left.
      destruct (b !! id r) eqn:E; [|reflexivity]. exfalso. apply Hr. eauto. }
    rewrite Hy. simpl. exact IH.
Qed.

(** With distinct ids, the resources with an entry are no more than the
    keys of the map. *)
Lemma entries_bounded_by_keys (b : gmap string (list string)) (rs : list AzureResource) :
  NoDup (id <$> rs) →
  (length (filter (λ r : AzureResource, is_Some (b !! id r)) rs) ≤ size b)%nat.
Proof.
  intros Hnd. set (P := λ r : AzureResource, is_Some (b !! id r)).
  assert (Hnd' : NoDup (id <$> filter P rs))
    by (eapply sublist_NoDup; [exact Hnd|]; apply fmap_sublist, sublist_filter).
  rewrite <- (length_fmap id (filter P rs)).
  rewrite <- (size_list_to_set (C := gset string) _ Hnd').
  rewrite <- (size_dom (D := gset string) b).
  apply subseteq_size. intros k Hk.
  apply elem_of_list_to_set, list_elem_of_fmap in Hk as (r & -> & Hr).
  apply list_elem_of_filter in Hr as [Hr _]. apply elem_of_dom. exact Hr.
Qed.

(** The counter Attention Needed is never below what the table shows:
    when no id occurs twice among the resources, the rows that do not show
    Yes are at most as many as the counter says; when moreover the
    snapshot's total is the number of its resources, the counter Ready to
    Move is at most the number of rows that show Yes. *)
Theorem attention_needed_bounds_rows (job : AssessmentJob) (snap : InventorySnapshot) :
  inventory_snapshot job = Some snap →
  NoDup (id <$> resources snap) →
  (Z.of_nat (length (List.filter not_yes (JobPage.table job)))
     <= JobPage.blockersCount job)%Z
  ∧ (total_resources snap = Z.of_nat (length (resources snap)) →
     (JobPage.readyCount job
        <= Z.of_nat (length (List.filter shown_yes (JobPage.table job))))%Z).
Proof.
  intros Hs Hnd.
  assert (Hc : JobPage.blockersCount job = Z.of_nat (size (default ∅ (blockers job)))).
  { unfold JobPage.blockersCount. destruct (blockers job); reflexivity. }
  assert (H1 : (length (List.filter not_yes (JobPage.table job))
                ≤ size (default ∅ (blockers job)))%nat).
  { unfold JobPage.table. rewrite Hs.
    etransitivity; [apply not_yes_rows_have_entry|].
    apply entries_bounded_by_keys, Hnd. }
  split; [lia|]. intros Htot.
  pose proof (yes_not_yes_length (JobPage.table job)) as Hlen.
  assert (Hrows : length (JobPage.table job) = length (resources snap)).
  { unfold JobPage.table, statuses. rewrite Hs. apply length_fmap. }
  unfold JobPage.readyCount, JobPage.totalResources. rewrite Hs, Htot. lia.
Qed.

Lemma attention_needed_bounds_rows_witness :
  (Z.of_nat (length (List.filter not_yes (JobPage.table Scenarios.job_unknown_entry)))
     <= JobPage.blockersCount Scenarios.job_unknown_entry)%Z.
Proof.
  refine (proj1 (attention_needed_bounds_rows Scenarios.job_unknown_entry _ eq_refl _)).
  apply NoDup_singleton.
Defined.

(** The bound needs the ids to be distinct: the same blocked id listed
    twice gives two rows that do not show Yes against a counter of 1. *)
Example duplicate_ids_exceed_counter :
  let job :=
    {| job_id := "job-2"; tenant_id := "t"; status := COMPLETED;
       inventory_snapshot :=
         Some {| subscription_id := "sub-1"; total_resources := 2;
                 resources := [Scenarios.vm1; Scenarios.vm1];
                 resource_groups := [] |};
       blockers := Some {[ id Scenarios.vm1 := ["Resource has a CanNotDelete lock."] ]};
       ai_generated_summary := None |} in
  JobPage.table job = [No; No] ∧ JobPage.blockersCount job = 1%Z.
Proof. split; vm_compute; reflexivity. Qed.

Lemma run_settle (net : Api.Request → option Api.Response) (req : Api.Request) :
  Api.run net (Api.fetch_then_handle req) = ([req], Claimed.settle (net req)).
Proof. unfold Api.fetch_then_handle. simpl. destruct (net req); reflexivity. Qed.

(** A job that failed before the inventory was taken, with one entry in
    its blocker map. *)
Definition failed_job : AssessmentJob :=
  {| job_id := "job-3"; tenant_id := "t"; status := FAILED;
     inventory_snapshot := None;
     blockers := Some {[ "a" := ["Resource has a CanNotDelete lock."] ]};
     ai_generated_summary := None |}.

(** A job without inventory: the page shows 0 resources and an empty
    table, the button Start Migration sends nothing and changes nothing,
    and the counter Ready to Move is the number of keys of the blocker map
    with a minus sign, below 0 as soon as there is a key. *)
Theorem job_without_snapshot
    (env : option string) (net : Api.Request → option Api.Response)
    (native : Thrown → string) (job : AssessmentJob) (ui : JobPage.Ui) :
  inventory_snapshot job = None →
  JobPage.totalResources job = 0%Z
  ∧ JobPage.table job = []
  ∧ migrate_request env job = None
  ∧ JobPage.handleMigrate env net native job ui = ui
  ∧ JobPage.readyCount job = (- JobPage.blockersCount job)%Z
  ∧ (∀ b, blockers job = Some b → b ≠ ∅ → (JobPage.readyCount job < 0)%Z).
Proof.
  intros Hs.
  unfold JobPage.totalResources, JobPage.table, migrate_request, JobPage.handleMigrate,
    JobPage.readyCount, JobPage.totalResources, JobPage.blockersCount.
  rewrite Hs. repeat split; try reflexivity.
  intros b Hb Hne. rewrite Hb.
  assert (size b ≠ 0) by (intros H0; apply Hne, map_size_empty_inv, H0). lia.
Qed.

Lemma job_without_snapshot_witness :
  JobPage.readyCount failed_job = (-1)%Z.
Proof.
  refine (eq_trans
            (proj1 (proj2 (proj2 (proj2 (proj2
               (job_without_snapshot None (λ _, None) (λ _, EmptyString) failed_job
                  {| JobPage.migrating := false; JobPage.planId := Some JNull;
                     JobPage.alerts := [] |} eq_refl)))))) _).
  reflexivity.
Defined.

(** *** Start Migration *)

(** What [handleMigrate] does with the answer to its request. *)
Lemma handleMigrate_by_answer
    (env : option string) (net : Api.Request → option Api.Response)
    (native : Thrown → string) (j : AssessmentJob) (snap : InventorySnapshot)
    (ui : JobPage.Ui) (req : Api.Request) :
  inventory_snapshot j = Some snap →
  migrate_request env j = Some req →
  JobPage.handleMigrate env net native j ui
  = match Claimed.settle (net req) with
    | Returns data =>
        match get_prop data "plan_id" with
        | Some plan_id =>
            {| JobPage.migrating := true; JobPage.planId := plan_id;
               JobPage.alerts := JobPage.alerts ui |}
        | None =>
            {| JobPage.migrating := false; JobPage.planId := JobPage.planId ui;
               JobPage.alerts :=
                 JobPage.alerts ui ++ ["Migration trigger failed: " +:+ native TypeError] |}
        end
    | Throws e =>
        {| JobPage.migrating := false; JobPage.planId := JobPage.planId ui;
           JobPage.alerts :=
             JobPage.alerts ui
             ++ ["Migration trigger failed: " +:+ JobPage.err_message native e] |}
    end.
Proof.
  intros Hs Hreq. unfold migrate_request in Hreq. rewrite Hs in Hreq.
  injection Hreq as <-.
  unfold JobPage.handleMigrate. rewrite Hs. cbv zeta.
  unfold Api.triggerMigration. rewrite run_settle. cbn [snd].
  destruct (Claimed.settle _) as [data|e]; [|reflexivity].
  destruct (get_prop data "plan_id"); reflexivity.
Qed.

(** The migration request names every resource of the snapshot, the
    blocked ones as well: one POST to /api/v1/migrate whose body lists the
    ids of all resources in the order of the snapshot, with the first
    resource group as source and the same name with -migrated as target; the
    blocker map, the status and the summary of the job have no part in it. *)
Theorem migrate_request_every_resource
    (env : option string) (j : AssessmentJob) (snap : InventorySnapshot) :
  inventory_snapshot j = Some snap →
  ∃ req,
    migrate_request env j = Some req
    ∧ (∀ net, fst (Api.run net
         (Api.triggerMigration env (job_id j) (JobPage.sourceRg_of snap)
            ("/subscriptions/" +:+ subscription_id snap +:+ "/resourceGroups/"
               +:+ JobPage.sourceRg_of snap +:+ "-migrated")
            (id <$> resources snap))) = [req])
    ∧ Api.method req = "POST"
    ∧ Api.url req = Api.API_URL env +:+ "/api/v1/migrate"
    ∧ Api.body req = Some (JSON_stringify (JObj
        [("job_id", JStr (job_id j));
         ("source_resource_group", JStr (JobPage.sourceRg_of snap));
         ("target_resource_group_id",
          JStr ("/subscriptions/" +:+ subscription_id snap +:+ "/resourceGroups/"
                  +:+ JobPage.sourceRg_of snap +:+ "-migrated"));
         ("resources", JArr (JStr <$> (id <$> resources snap)))]))
    ∧ (∀ j', job_id j' = job_id j → inventory_snapshot j' = Some snap →
         migrate_request env j' = Some req).
Proof.
  intros Hs. unfold migrate_request. rewrite Hs. eexists. split; [reflexivity|].
  split; [intros net; unfold Api.triggerMigration; rewrite run_settle; reflexivity|].
  repeat split.
  intros j' Hid Hs'. rewrite Hs', Hid. reflexivity.
Qed.

Lemma migrate_request_every_resource_witness :
  ∃ req, migrate_request None (Scenarios.job_with {[ id Scenarios.vm1 := ["Resource has a CanNotDelete lock."] ]})
         = Some req
         ∧ Api.method req = "POST".
Proof.
  destruct (migrate_request_every_resource None
              (Scenarios.job_with {[ id Scenarios.vm1 := ["Resource has a CanNotDelete lock."] ]})
              _ eq_refl) as (req & H1 & _ & H3 & _).
  exists req. split; [exact H1 | exact H3].
Defined.

(** A backend that accepts every request and answers with a plan id. *)
Definition plan_accepted (_ : Api.Request) : option Api.Response :=
  Some {| Api.ok := true; Api.statusText := "OK";
          Api.json := Some (JObj [("plan_id", JStr "plan-1")]) |}.

(** The button Start Migration of a completed job, pressed while it is
    shown and enabled.  When the backend answers with a plan id, the button
    is gone and nothing is announced.  When the answer is accepted but
    carries no plan id (or an empty one), nothing is announced and the
    button stays, disabled.  When the request fails, the button is enabled
    again and exactly one alert is added, with the message of the error
    after the fixed prefix. *)
Theorem startMigration_after_handleMigrate
    (env : option string) (net : Api.Request → option Api.Response)
    (native : Thrown → string) (j : AssessmentJob) (snap : InventorySnapshot)
    (ui : JobPage.Ui) (req : Api.Request) :
  inventory_snapshot j = Some snap →
  migrate_request env j = Some req →
  startMigration j ui = Some false →
  let ui' := JobPage.handleMigrate env net native j ui in
  (∀ data p, Claimed.settle (net req) = Returns data →
     get_prop data "plan_id" = Some p → truthy p = true →
     startMigration j ui' = None ∧ JobPage.planId ui' = p
     ∧ JobPage.alerts ui' = JobPage.alerts ui)
  ∧ (∀ data p, Claimed.settle (net req) = Returns data →
     get_prop data "plan_id" = Some p → truthy p = false →
     startMigration j ui' = Some true ∧ JobPage.alerts ui' = JobPage.alerts ui)
  ∧ (∀ e, Claimed.settle (net req) = Throws e →
     startMigration j ui' = Some false
     ∧ JobPage.alerts ui'
       = JobPage.alerts ui ++ ["Migration trigger failed: " +:+ JobPage.err_message native e]).
Proof.
  intros Hs Hreq Hbtn ui'. subst ui'.
  rewrite (handleMigrate_by_answer env net native j snap ui req Hs Hreq).
  unfold startMigration in *.
  destruct (status j); try discriminate Hbtn.
  destruct (truthy (JobPage.planId ui)) eqn:Hp; [discriminate Hbtn|].
  injection Hbtn as Hm.
  split; [|split].
  - intros data p -> -> Ht. simpl. rewrite Ht. repeat split.
  - intros data p -> -> Ht. simpl. rewrite Ht. repeat split.
  - intros e ->. simpl. rewrite Hp. repeat split.
Qed.

Lemma startMigration_after_handleMigrate_witness :
  startMigration (Scenarios.job_with ∅)
    (JobPage.handleMigrate None plan_accepted (λ _, EmptyString) (Scenarios.job_with ∅)
       {| JobPage.migrating := false; JobPage.planId := Some JNull; JobPage.alerts := [] |})
  = None.
Proof.
  refine (proj1 (proj1 (startMigration_after_handleMigrate None plan_accepted
            (λ _, EmptyString) (Scenarios.job_with ∅) _
            {| JobPage.migrating := false; JobPage.planId := Some JNull;
               JobPage.alerts := [] |} _ eq_refl eq_refl eq_refl)
            (JObj [("plan_id", JStr "plan-1")]) (Some (JStr "plan-1"))
            eq_refl eq_refl eq_refl)).
Defined.

(** *** Reading the job *)

(** The job a read brings, if it succeeds. *)
Definition read_job (env : option string) (id : string)
    (net : Api.Request → option Api.Response) : option JSON :=
  match Claimed.settle (net (Api.get (Api.API_URL env +:+ "/api/v1/jobs/" +:+ id))) with
  | Returns data => Some data
  | Throws _ => None
  end.

Lemma fetchJob_job (env : option string) (net : Api.Request → option Api.Response)
    (id : string) (v : View) :
  fetchJob env net id v
  = ([Api.get (Api.API_URL env +:+ "/api/v1/jobs/" +:+ id)],
     match Claimed.settle (net (Api.get (Api.API_URL env +:+ "/api/v1/jobs/" +:+ id))) with
     | Returns data =>
         {| job := Some data; loading := false; exportingARM := exportingARM v;
            downloads := downloads v; alerts := alerts v; console := console v |}
     | Throws e =>
         {| job := job v; loading := false; exportingARM := exportingARM v;
            downloads := downloads v; alerts := alerts v; console := console v ++ [e] |}
     end).
Proof. unfold fetchJob, Api.getJobStatus. rewrite run_settle. reflexivity. Qed.

Lemma screen_not_spinner (v : View) : loading v = false → screen v ≠ Spinner.
Proof.
  intros Hl. unfold screen. rewrite Hl.
  destruct (job v) as [j|]; [destruct (truthy (Some j))|]; discriminate.
Qed.

(** The reads keep the last job that was read. *)
Lemma reads_keep_last_job
    (env : option string) (id : string)
    (nets : list (Api.Request → option Api.Response)) (v : View) :
  job (reads env id nets v)
    = match last (omap (read_job env id) nets) with
      | Some data => Some data
      | None => job v
      end
  ∧ length (console (reads env id nets v)) + length (omap (read_job env id) nets)
    = length (console v) + length nets
  ∧ alerts (reads env id nets v) = alerts v
  ∧ (nets ≠ [] → loading (reads env id nets v) = false
                 ∧ screen (reads env id nets v) ≠ Spinner).
Proof.
  revert v. induction nets as [|net nets IH]; intros v.
  - simpl. split; [reflexivity|]. split; [lia|]. split; [reflexivity|].
    intros Hn. contradiction.
  - simpl reads. rewrite fetchJob_job. cbn [snd].
    assert (Hr : read_job env id net
                 = match Claimed.settle
                           (net (Api.get (Api.API_URL env +:+ "/api/v1/jobs/" +:+ id))) with
                   | Returns data => Some data
                   | Throws _ => None
                   end) by reflexivity.
    change (omap (read_job env id) (net :: nets))
      with (match read_job env id net with
            | Some data => data :: omap (read_job env id) nets
            | None => omap (read_job env id) nets
            end).
    rewrite Hr. clear Hr.
    destruct (Claimed.settle _) as [data|e];
      match goal with
      | |- context [reads _ _ _ ?v1] =>
          destruct (IH v1) as (Hjob & Hcon & Hal & Hload);
          assert (Hl : loading (reads env id nets v1) = false)
            by (destruct nets; [reflexivity | apply Hload; discriminate])
      end;
      cbn [job console alerts] in Hjob, Hcon, Hal; rewrite Hjob, Hal.
    + rewrite last_cons. split; [destruct (last _); reflexivity|].
      split; [cbn [length]; lia|]. split; [reflexivity|].
      intros _. split; [exact Hl | exact (screen_not_spinner _ Hl)].
    + rewrite length_app in Hcon. cbn [length] in Hcon. split; [reflexivity|].
      split; [cbn [length]; lia|]. split; [reflexivity|].
      intros _. split; [exact Hl | exact (screen_not_spinner _ Hl)].
Qed.

(** Polling keeps the last job that was read.  With a job id that is not
    empty: after any number of reads, the page holds the job of the last
    read that succeeded, or the job it had before when none did; a failed
    read never takes a job off the screen, it only adds its error to the
    console; no read announces anything, and after the first read the
    spinner is gone for good.  Without a job id, or with an empty one,
    nothing is read and the page stays as it is, spinner included. *)
Theorem polling_keeps_last_job
    (env : option string) (id : string)
    (nets : list (Api.Request → option Api.Response)) (v : View) :
  id ≠ EmptyString →
  (job (polling env (Some id) nets v)
     = match last (omap (read_job env id) nets) with
       | Some data => Some data
       | None => job v
       end
   ∧ length (console (polling env (Some id) nets v)) + length (omap (read_job env id) nets)
     = length (console v) + length nets
   ∧ alerts (polling env (Some id) nets v) = alerts v
   ∧ (nets ≠ [] → loading (polling env (Some id) nets v) = false
                  ∧ screen (polling env (Some id) nets v) ≠ Spinner))
  ∧ polling env None nets v = v
  ∧ polling env (Some EmptyString) nets v = v.
Proof.
  intros Hid. split; [|split; reflexivity].
  unfold polling. destruct (String.eqb_spec id EmptyString) as [E|_]; [contradiction|].
  apply reads_keep_last_job.
Qed.

(** A read that fails after one that succeeded: the job stays. *)
Definition answers_job (_ : Api.Request) : option Api.Response :=
  Some {| Api.ok := true; Api.statusText := "OK";
          Api.json := Some (JObj [("id", JStr "job-1")]) |}.

Lemma polling_keeps_last_job_witness :
  job (polling None (Some "job-1") [answers_job; λ _, None] mounted)
  = Some (JObj [("id", JStr "job-1")]).
Proof.
  refine (eq_trans (proj1 (proj1 (polling_keeps_last_job None "job-1"
                                    [answers_job; λ _, None] mounted _))) _).
  - discriminate.
  - reflexivity.
Defined.

(** *** The export of the templates *)

(** [handleARMExport] sends one GET of the export address and releases
    the button whatever happens.  When the answer is ok and its body can be
    read, one download is handed to the browser, named after the job, and
    nothing is announced; in every other case (no answer, an answer that is
    not ok, a body that cannot be read) there is no download and exactly one
    alert, always the same text: what the server says about the failure is
    not shown. *)
Theorem handleARMExport_outcome
    (env : option string) (net : Api.Request → option Api.Response)
    (blob : Api.Response → option string) (id : string) (v : View) :
  let req := Api.get (Api.API_URL env +:+ "/api/v1/jobs/" +:+ id +:+ "/export/arm") in
  let v' := snd (handleARMExport env net blob id v) in
  fst (handleARMExport env net blob id v) = [req]
  ∧ exportingARM v' = false
  ∧ job v' = job v ∧ loading v' = loading v ∧ console v' = console v
  ∧ ((∃ res content, net req = Some res ∧ Api.ok res = true ∧ blob res = Some content)
     → downloads v' = downloads v ++ ["Blocked_Resources_Templates_" +:+ id +:+ ".zip"]
       ∧ alerts v' = alerts v)
  ∧ (¬ (∃ res content, net req = Some res ∧ Api.ok res = true ∧ blob res = Some content)
     → downloads v' = downloads v
       ∧ alerts v' = alerts v ++ ["Failed to download ARM templates."]).
Proof.
  intros req v'. subst v'. unfold handleARMExport, Api.getARMExportUrl. fold req.
  cbn [fst snd].
  split; [reflexivity|].
  destruct (net req) as [res|] eqn:Hn.
  - destruct (Api.ok res) eqn:Hok; simpl.
    + destruct (blob res) as [content|] eqn:Hb; simpl.
      * do 4 (split; [reflexivity|]).
        split; [intros _; split; reflexivity|].
        intros Hno. exfalso. apply Hno. eauto.
      * do 4 (split; [reflexivity|]).
        split; [|intros _; split; reflexivity].
        intros (res' & content & Hr & _ & Hc). congruence.
    + do 4 (split; [reflexivity|]).
      split; [|intros _; split; reflexivity].
      intros (res' & content & Hr & Ho & _). congruence.
  - simpl. do 4 (split; [reflexivity|]).
    split; [|intros _; split; reflexivity].
    intros (res' & content & Hr & _). congruence.
Qed.

End JobFacts.

(** * Coverage-unknown entries on the job page *)

Module CoverageFacts.
Import InventoryTable JobFacts.






End CoverageFacts.

(** * The earlier lemmas on the scenarios *)

Module ScenarioFacts.
Import Scenarios.

(** One locked virtual machine: the counter and the table agree. *)
Lemma readyCount_movable_count_witness :
  JobPage.readyCount (job_with {[ id vm1 := ["Resource has a CanNotDelete lock."] ]})
  = Claimed.movable_count (job_with {[ id vm1 := ["Resource has a CanNotDelete lock."] ]}).
Proof.
  refine (TableFacts.readyCount_movable_count
            (job_with {[ id vm1 := ["Resource has a CanNotDelete lock."] ]})
            _ _ eq_refl eq_refl eq_refl _ _).
  - apply NoDup_singleton.
  - intros k reasons Hk. apply lookup_singleton_Some in Hk as [<- <-].
    split; [discriminate | apply list_elem_of_singleton; reflexivity].
Defined.

(** The quota rejection reaches the alert of the job page. *)
Lemma handleMigrate_alerts_detail_witness :
  JobPage.handleMigrate None (λ _, Some rejected_quota) (λ _, EmptyString) (job_with ∅)
    {| JobPage.migrating := false; JobPage.planId := Some JNull; JobPage.alerts := [] |}
  = {| JobPage.migrating := false; JobPage.planId := Some JNull;
       JobPage.alerts := ["Migration trigger failed: quota exceeded"] |}.
Proof.
  refine (ApiFacts.handleMigrate_alerts_detail None (λ _, Some rejected_quota)
            (λ _, EmptyString) (job_with ∅) _
            {| JobPage.migrating := false; JobPage.planId := Some JNull;
               JobPage.alerts := [] |}
            rejected_quota [("detail", JStr "quota exceeded")] "quota exceeded"
            eq_refl (λ _, eq_refl) eq_refl eq_refl eq_refl _).
  discriminate.
Defined.

(** Two forms in mode explicit that differ in the alias only. *)
Definition page_explicit (a : string) : LoginPage.Page :=
  {| LoginPage.f_tenantId := "tenant-demo-1"; LoginPage.f_subId := "sub-1";
     LoginPage.f_alias := a; LoginPage.f_loginMode := LoginPage.explicit;
     LoginPage.f_clientId := "app-1"; LoginPage.f_clientSecret := "p&ss=word";
     LoginPage.savedLogins := []; LoginPage.localStorage := ∅; LoginPage.pushed := [] |}.

Lemma dashboard_url_explicit_reveals_secret_witness :
  LoginPage.dashboard_url (page_explicit "a") = LoginPage.dashboard_url (page_explicit "b")
  ∧ LoginPage.f_clientSecret (page_explicit "a") = LoginPage.f_clientSecret (page_explicit "b").
Proof.
  split; [reflexivity|].
  exact (LoginFacts.dashboard_url_explicit_reveals_secret
           (page_explicit "a") (page_explicit "b")
           eq_refl eq_refl eq_refl eq_refl eq_refl eq_refl).
Defined.

End ScenarioFacts.

(** * How a call of the client can end *)

Module ClientFacts.
Import Api.

(** Every operation of the client is one [fetch] followed by
    [handleResponse], and such a call ends in one of four ways.  It returns
    a value exactly when the answer is ok and its body is JSON, and the
    value is that body.  It throws an [Error] with a message exactly when
    there is an answer and it is not ok.  It fails with the parser's error
    exactly when the answer is ok and its body is not JSON, and with the
    rejection of [fetch] exactly when there is no answer. *)
Theorem client_call_outcomes (net : Request → option Response) (req : Request) :
  fst (run net (fetch_then_handle req)) = [req]
  ∧ (∀ v, snd (run net (fetch_then_handle req)) = Returns v
          ↔ ∃ res, net req = Some res ∧ ok res = true ∧ json res = Some v)
  ∧ ((∃ m, snd (run net (fetch_then_handle req)) = Throws (Error m))
     ↔ ∃ res, net req = Some res ∧ ok res = false)
  ∧ (snd (run net (fetch_then_handle req)) = Throws SyntaxError
     ↔ ∃ res, net req = Some res ∧ ok res = true ∧ json res = None)
  ∧ (snd (run net (fetch_then_handle req)) = Throws NetworkError ↔ net req = None)
  ∧ (∀ env tenantId subscriptionId clientId clientSecret jobId sourceRg targetRgId
       resources planId,
       (∃ r, triggerAssessment env tenantId subscriptionId clientId clientSecret
             = fetch_then_handle r)
       ∧ (∃ r, getJobStatus env jobId = fetch_then_handle r)
       ∧ (∃ r, triggerMigration env jobId sourceRg targetRgId resources
               = fetch_then_handle r)
       ∧ (∃ r, getMigrationPlan env planId = fetch_then_handle r)).
Proof.
  assert (Hrun : run net (fetch_then_handle req) = ([req], Claimed.settle (net req))).
  { unfold fetch_then_handle. simpl. destruct (net req); reflexivity. }
  rewrite Hrun. cbn [fst snd]. clear Hrun.
  split; [reflexivity|].
  unfold Claimed.settle, handleResponse.
  destruct (net req) as [res|].
  - destruct (ok res) eqn:Hok; simpl.
    + destruct (json res) as [body|] eqn:Hj.
      * split; [|split; [|split; [|split]]].
        -- intros v. split.
           ++ intros H. injection H as <-. eauto.
           ++ intros (res' & Hr & _ & Hv). injection Hr as <-. congruence.
        -- split; [intros (m & H); discriminate H|].
           intros (res' & Hr & Ho). injection Hr as <-. congruence.
        -- split; [discriminate|].
           intros (res' & Hr & _ & Hn). injection Hr as <-. congruence.
        -- split; discriminate.
        -- intros. repeat split; eexists; reflexivity.
      * split; [|split; [|split; [|split]]].
        -- intros v. split; [discriminate|].
           intros (res' & Hr & _ & Hv). injection Hr as <-. congruence.
        -- split; [intros (m & H); discriminate H|].
           intros (res' & Hr & Ho). injection Hr as <-. congruence.
        -- split; [eauto|reflexivity].
        -- split; discriminate.
        -- intros. repeat split; eexists; reflexivity.
    + split; [|split; [|split; [|split]]].
      * intros v. split; [discriminate|].
        intros (res' & Hr & Ho & _). injection Hr as <-. congruence.
      * split; [eauto|]. intros _. eexists. reflexivity.
      * split; [discriminate|].
        intros (res' & Hr & Ho & _). injection Hr as <-. congruence.
      * split; discriminate.
      * intros. repeat split; eexists; reflexivity.
  - split; [|split; [|split; [|split]]].
    + intros v. split; [discriminate|]. intros (res' & Hr & _). discriminate Hr.
    + split; [intros (m & H); discriminate H|]. intros (res' & Hr & _). discriminate Hr.
    + split; [discriminate|]. intros (res' & Hr & _). discriminate Hr.
    + split; reflexivity.
    + intros. repeat split; eexists; reflexivity.
Qed.

End ClientFacts.
